(** * hamsterdb storage core: extended-key cache, key comparison, page allocation

    A shallow embedding of [src/config.h], [src/extkeys.c] and [src/db.c].
    Unsigned C integers are values of [Z] with the wrap-around of their width
    written out, byte buffers are [list byte], a hash chain is the list of
    its entries in link order, and the bucket array is a list indexed with
    stdpp's lookup and insert. *)

From Stdlib Require Import ZArith List Lia Bool.
From Stdlib.Strings Require Import Byte.
From stdpp Require Import base numbers list.

Open Scope Z_scope.

(** ** Integer types of [ham/types.h] *)

(** Modelled from the spec: [ham/types.h] is not among the verified sources;
    the data model gives an entry's [size] as u32 and its [blob_id] as u64,
    which are [ham_size_t] and [ham_offset_t]. *)
Definition ham_size_bits : Z := 32.

Definition ham_size_modulus : Z := 2 ^ ham_size_bits.

(** The value a [ham_size_t] holds after an arithmetic result [z] is stored
    in it. *)
Definition ham_size_wrap (z : Z) : Z := z mod ham_size_modulus.

Definition ham_size_max : Z := ham_size_modulus - 1.

(** [sizeof(ham_offset_t)] *)
Definition sizeof_ham_offset_t : Z := 8.

(** ** config.h *)

Definition HAM_DEFAULT_CACHESIZE : Z := 1024 * 256.

(** ** Status codes *)

(** Modelled from the spec: [ham/hamsterdb.h] is not among the verified
    sources; section 6 gives the error codes as a closed set. *)
Inductive ham_status_t : Type :=
  | HAM_SUCCESS
  | HAM_OUT_OF_MEMORY
  | HAM_INVALID_PARAMETER
  | HAM_IO_ERROR
  | HAM_KEY_NOT_FOUND
  | HAM_DUPLICATE_KEY
  | HAM_CACHE_FULL
  | HAM_DATABASE_ALREADY_OPEN
  | HAM_CURSOR_IS_NIL
  | HAM_LIMITS_REACHED
  | HAM_INTERNAL_ERROR.

#[global] Instance ham_status_eq_dec : EqDecision ham_status_t.
Proof. solve_decision. Defined.

(** The C test [if (st)]. *)
Definition status_is_error (st : ham_status_t) : bool :=
  match st with HAM_SUCCESS => false | _ => true end.

(** ** The page cache, as far as the extended-key cache reads it *)

(** Modelled from the spec: [cache.h] is not among the verified sources; the
    cache is "a bounded mapping from page offset to Page, plus a running byte
    count [usedsize]; capacity is [cachesize] bytes".  Only the two counters
    are read by the code below. *)
Record ham_cache_t : Type := mk_cache {
  cache_get_usedsize : Z;
  cache_get_cachesize : Z
}.

(** ** extkeys.c *)

Definition EXTKEY_CACHE_BUCKETSIZE : Z := 128.

(** An entry of a hash chain; the [next] pointer is the tail of the list the
    entry heads. *)
Record extkey_t : Type := mk_extkey {
  extkey_get_blobid : Z;
  extkey_get_size : Z;
  extkey_get_data : list byte
}.

Record extkey_cache_t : Type := mk_extkey_cache {
  extkey_cache_get_usedsize : Z;
  extkey_cache_get_bucketsize : Z;
  extkey_cache_buckets : list (list extkey_t)
}.

(** [extkey_cache_new]: the structure is zeroed, then the bucket size is set.
    The result of [ham_mem_alloc] is the argument [mem]. *)
Definition extkey_cache_new (mem : bool) : option extkey_cache_t :=
  if mem
  then Some (mk_extkey_cache 0 EXTKEY_CACHE_BUCKETSIZE
               (replicate (Z.to_nat EXTKEY_CACHE_BUCKETSIZE) []))
  else None.

(** [extkey_cache_get_bucket(cache, i)]: the head of chain [i]; a null head
    is the empty chain. *)
Definition extkey_cache_get_bucket (cache : extkey_cache_t) (i : Z)
  : list extkey_t :=
  default [] (extkey_cache_buckets cache !! Z.to_nat i).

(** [extkey_cache_set_bucket(cache, i, e)] *)
Definition extkey_cache_set_bucket (cache : extkey_cache_t) (i : Z)
    (chain : list extkey_t) : extkey_cache_t :=
  mk_extkey_cache (extkey_cache_get_usedsize cache)
                  (extkey_cache_get_bucketsize cache)
                  (<[Z.to_nat i := chain]> (extkey_cache_buckets cache)).

Definition extkey_cache_set_usedsize (cache : extkey_cache_t) (u : Z)
  : extkey_cache_t :=
  mk_extkey_cache (ham_size_wrap u)
                  (extkey_cache_get_bucketsize cache)
                  (extkey_cache_buckets cache).

(** The macro [my_calc_hash]; its result is stored in a [ham_size_t].  The
    macro reads the bucket size through [cache_get_bucketsize], the accessor
    of [cache.h], applied to the extended-key cache: the field it names is
    the bucket size of this structure. *)
Definition my_calc_hash (cache : extkey_cache_t) (o : Z) : Z :=
  ham_size_wrap
    (if extkey_cache_get_bucketsize cache =? 0
     then 0
     else Z.land o (extkey_cache_get_bucketsize cache - 1)).

(** The loop [while (e) { if (blobid matches) break; e = next; }]: the entry
    it stops at. *)
Fixpoint chain_find (blobid : Z) (chain : list extkey_t) : option extkey_t :=
  match chain with
  | [] => None
  | e :: rest =>
      if extkey_get_blobid e =? blobid then Some e
      else chain_find blobid rest
  end.

(** The chain after the entry the loop stopped at is unlinked: the
    predecessor's [next] (or the bucket head) skips it. *)
Fixpoint chain_unlink (blobid : Z) (chain : list extkey_t) : list extkey_t :=
  match chain with
  | [] => []
  | e :: rest =>
      if extkey_get_blobid e =? blobid then rest
      else e :: chain_unlink blobid rest
  end.

(** [memcpy(dst, src, n)] into a fresh block: the [n] bytes read. *)
Definition memcpy_read (src : list byte) (n : Z) : list byte :=
  take (Z.to_nat n) src.

(** The capacity test of [extkey_cache_insert]:
    [cache_get_usedsize(db_get_cache(db)) + extkey_cache_get_usedsize(cache)
     + size > cache_get_cachesize(db_get_cache(db))], evaluated on
    [ham_size_t]. *)
Definition no_capacity (db_cache : ham_cache_t) (cache : extkey_cache_t)
    (size : Z) : bool :=
  ham_size_wrap (ham_size_wrap (cache_get_usedsize db_cache
                                + extkey_cache_get_usedsize cache) + size)
  >? cache_get_cachesize db_cache.

(** [extkey_cache_insert].  [db_cache] is [db_get_cache(db)] of the owning
    database and [mem] the result of [ham_mem_alloc].  The block under
    [#ifndef HAM_RELEASE] only asserts the precondition [blobid_is_new] and
    changes nothing. *)
Definition extkey_cache_insert (db_cache : ham_cache_t) (mem : bool)
    (cache : extkey_cache_t) (blobid size : Z) (data : list byte)
  : ham_status_t * extkey_cache_t :=
  let h := my_calc_hash cache blobid in
  if no_capacity db_cache cache size
  then (HAM_CACHE_FULL, cache)
  else if negb mem then (HAM_OUT_OF_MEMORY, cache)
  else
    let e := mk_extkey blobid size (memcpy_read data size) in
    let cache1 :=
      extkey_cache_set_bucket cache h (e :: extkey_cache_get_bucket cache h) in
    (HAM_SUCCESS,
     extkey_cache_set_usedsize cache1 (extkey_cache_get_usedsize cache1 + size)).

(** The debug-build assertion of [extkey_cache_insert]. *)
Definition blobid_is_new (cache : extkey_cache_t) (blobid : Z) : bool :=
  match chain_find blobid
          (extkey_cache_get_bucket cache (my_calc_hash cache blobid)) with
  | Some _ => false
  | None => true
  end.

(** [extkey_cache_remove] *)
Definition extkey_cache_remove (cache : extkey_cache_t) (blobid : Z)
  : ham_status_t * extkey_cache_t :=
  let h := my_calc_hash cache blobid in
  match chain_find blobid (extkey_cache_get_bucket cache h) with
  | None => (HAM_KEY_NOT_FOUND, cache)
  | Some e =>
      let cache1 :=
        extkey_cache_set_bucket cache h
          (chain_unlink blobid (extkey_cache_get_bucket cache h)) in
      (HAM_SUCCESS,
       extkey_cache_set_usedsize cache1
         (extkey_cache_get_usedsize cache1 - extkey_get_size e))
  end.

(** [extkey_cache_fetch]; the out-parameters [*size] and [*data] are written
    only on success. *)
Definition extkey_cache_fetch (cache : extkey_cache_t) (blobid : Z)
  : ham_status_t * option (Z * list byte) :=
  let h := my_calc_hash cache blobid in
  match chain_find blobid (extkey_cache_get_bucket cache h) with
  | None => (HAM_KEY_NOT_FOUND, None)
  | Some e => (HAM_SUCCESS, Some (extkey_get_size e, extkey_get_data e))
  end.

(** *** Sequences of operations *)

Inductive extkey_op : Type :=
  | OpInsert (db_cache : ham_cache_t) (mem : bool)
             (blobid size : Z) (data : list byte)
  | OpRemove (blobid : Z).

Definition op_blobid (op : extkey_op) : Z :=
  match op with
  | OpInsert _ _ blobid _ _ => blobid
  | OpRemove blobid => blobid
  end.

Definition run_op (cache : extkey_cache_t) (op : extkey_op) : extkey_cache_t :=
  match op with
  | OpInsert db_cache mem blobid size data =>
      snd (extkey_cache_insert db_cache mem cache blobid size data)
  | OpRemove blobid => snd (extkey_cache_remove cache blobid)
  end.

Definition run_ops (ops : list extkey_op) (cache : extkey_cache_t)
  : extkey_cache_t :=
  fold_left run_op ops cache.

(** The debug-build assertion holds at every insertion of the sequence. *)
Fixpoint asserts_hold (cache : extkey_cache_t) (ops : list extkey_op)
  : Prop :=
  match ops with
  | [] => True
  | op :: rest =>
      match op with
      | OpInsert _ _ blobid _ _ => blobid_is_new cache blobid = true
      | OpRemove _ => True
      end /\ asserts_hold (run_op cache op) rest
  end.

(** The cache [extkey_cache_new] returns when its allocation succeeds. *)
Definition fresh_cache : extkey_cache_t :=
  mk_extkey_cache 0 EXTKEY_CACHE_BUCKETSIZE
    (replicate (Z.to_nat EXTKEY_CACHE_BUCKETSIZE) []).

(** Sum of the [size] fields of the entries of a chain, and of all chains. *)
Definition chain_size (chain : list extkey_t) : Z :=
  fold_right (fun e acc => extkey_get_size e + acc) 0 chain.

Definition buckets_size (buckets : list (list extkey_t)) : Z :=
  fold_right (fun chain acc => chain_size chain + acc) 0 buckets.

Definition stored_size (cache : extkey_cache_t) : Z :=
  buckets_size (extkey_cache_buckets cache).

(** Every entry of the cache. *)
Definition entries (cache : extkey_cache_t) : list extkey_t :=
  concat (extkey_cache_buckets cache).

(** The shape [extkey_cache_new] establishes: as many chains as the bucket
    size says, and at least one. *)
Definition well_formed (cache : extkey_cache_t) : Prop :=
  0 < extkey_cache_get_bucketsize cache <= ham_size_max /\
  Z.of_nat (length (extkey_cache_buckets cache))
  = extkey_cache_get_bucketsize cache.


(** ** db.c: the default comparison functions *)

Definition byte_value (b : byte) : Z := Z.of_N (Byte.to_N b).

(** [memcmp(lhs, rhs, n)]: the bytes are compared as [unsigned char]; the
    result is the difference of the first pair that differs (only its sign is
    used by the callers).  Both buffers hold at least [n] bytes in every
    defined call. *)
Fixpoint memcmp (lhs rhs : list byte) (n : nat) {struct n} : Z :=
  match n, lhs, rhs with
  | S n', a :: lhs', b :: rhs' =>
      if byte_value a =? byte_value b then memcmp lhs' rhs' n'
      else byte_value a - byte_value b
  | _, _, _ => 0
  end.

Definition db_default_compare (lhs : list byte) (lhs_length : Z)
    (rhs : list byte) (rhs_length : Z) : Z :=
  if lhs_length <? rhs_length then
    let m := memcmp lhs rhs (Z.to_nat lhs_length) in
    if m <? 0 then -1
    else if m >? 0 then 1
    else -1
  else if rhs_length <? lhs_length then
    let m := memcmp lhs rhs (Z.to_nat rhs_length) in
    if m <? 0 then -1
    else if m >? 0 then 1
    else 1
  else
    let m := memcmp lhs rhs (Z.to_nat lhs_length) in
    if m <? 0 then -1
    else if m >? 0 then 1
    else 0.

(** ** db.c: pages, databases and their collaborators *)

Record ham_record_t : Type := mk_record {
  record_size : Z;
  record_data : list byte
}.

(** A key slot of a btree node. *)
Record key_t : Type := mk_key {
  key_get_flags : Z;
  key_get_key : list byte
}.

Record btree_node_t : Type := mk_btree_node {
  btree_node_is_leaf : bool;
  btree_node_keys : list key_t
}.

(** Modelled from the spec: [page.h] is not among the verified sources; a
    page has its offset [self], a type, a dirty bit, the pointer [pers] to
    its persistent bytes (null, a mapped region or a heap buffer), the
    non-persistent flags, a cache counter and its owner.  A pointer to a
    database is the handle [db_handle] of that database. *)
Record ham_page_t : Type := mk_page {
  page_get_self : Z;
  page_get_type : Z;
  page_is_dirty : bool;
  page_get_pers : option (list byte);
  page_get_npers_flags : Z;
  page_get_cache_cntr : Z;
  page_get_inuse : Z;
  page_get_owner : option Z
}.

(** [memset(page, 0, sizeof(ham_page_t))] *)
Definition zero_page : ham_page_t := mk_page 0 0 false None 0 0 0 None.

Definition page_set_owner (page : ham_page_t) (db : Z) : ham_page_t :=
  mk_page (page_get_self page) (page_get_type page) (page_is_dirty page)
          (page_get_pers page) (page_get_npers_flags page)
          (page_get_cache_cntr page) (page_get_inuse page) (Some db).

Definition page_set_dirty (page : ham_page_t) (d : bool) : ham_page_t :=
  mk_page (page_get_self page) (page_get_type page) d
          (page_get_pers page) (page_get_npers_flags page)
          (page_get_cache_cntr page) (page_get_inuse page)
          (page_get_owner page).

Definition page_set_pers (page : ham_page_t) (p : option (list byte))
  : ham_page_t :=
  mk_page (page_get_self page) (page_get_type page) (page_is_dirty page)
          p (page_get_npers_flags page)
          (page_get_cache_cntr page) (page_get_inuse page)
          (page_get_owner page).

Definition page_set_npers_flags (page : ham_page_t) (f : Z) : ham_page_t :=
  mk_page (page_get_self page) (page_get_type page) (page_is_dirty page)
          (page_get_pers page) f
          (page_get_cache_cntr page) (page_get_inuse page)
          (page_get_owner page).

Definition page_set_cache_cntr (page : ham_page_t) (c : Z) : ham_page_t :=
  mk_page (page_get_self page) (page_get_type page) (page_is_dirty page)
          (page_get_pers page) (page_get_npers_flags page)
          c (page_get_inuse page) (page_get_owner page).

(** The user comparison callbacks.  A prefix comparison also reports the
    error it left in the error slot of the database ([HAM_SUCCESS] when it
    left none): the caller reads the slot right after the call. *)
Definition ham_compare_func_t : Type :=
  list byte -> Z -> list byte -> Z -> Z.

Definition ham_prefix_compare_func_t : Type :=
  list byte -> Z -> Z -> list byte -> Z -> Z -> Z * ham_status_t.

Record ham_db_t : Type := mk_db {
  db_handle : Z;
  db_get_flags : Z;
  db_get_fd : Z;
  db_get_pagesize : Z;
  db_get_keysize : Z;
  db_get_error : ham_status_t;
  db_get_cache : ham_cache_t;
  db_get_extkey_cache : option extkey_cache_t;
  db_get_compare_func : ham_compare_func_t;
  db_get_prefix_compare_func : option ham_prefix_compare_func_t
}.

Definition db_with_error (db : ham_db_t) (st : ham_status_t) : ham_db_t :=
  mk_db (db_handle db) (db_get_flags db) (db_get_fd db) (db_get_pagesize db)
        (db_get_keysize db) st (db_get_cache db) (db_get_extkey_cache db)
        (db_get_compare_func db) (db_get_prefix_compare_func db).

Definition db_with_extkey_cache (db : ham_db_t) (c : option extkey_cache_t)
  : ham_db_t :=
  mk_db (db_handle db) (db_get_flags db) (db_get_fd db) (db_get_pagesize db)
        (db_get_keysize db) (db_get_error db) (db_get_cache db) c
        (db_get_compare_func db) (db_get_prefix_compare_func db).

(** What the code of [db.c] takes from headers and modules that are not
    among the verified sources: flag bits, page types, structure sizes, the
    sentinel of the prefix comparison, the integer a status is returned as,
    the host byte order, and the operations of the page cache and of the
    btree node layout. *)
Class externals : Type := mk_externals {
  HAM_IN_MEMORY_DB : Z;
  HAM_WRITE_THROUGH : Z;
  DB_USE_MMAP : Z;
  DB_FLUSH_NODELETE : Z;
  KEY_IS_EXTENDED : Z;
  PAGE_NPERS_MALLOC : Z;
  PAGE_NPERS_DELETE_PENDING : Z;
  PAGE_TYPE_B_ROOT : Z;
  PAGE_TYPE_B_INDEX : Z;
  HAM_PREFIX_REQUEST_FULLKEY : Z;
  SIZEOF_EXTKEY_T : Z;
  sizeof_extkey_cache_t : Z;
  sizeof_ham_page_t : Z;
  sizeof_pointer : Z;
  status_code : ham_status_t -> Z;
  host_big_endian : bool;
  cache_can_add_page : ham_cache_t -> bool;
  cache_get_unused : ham_cache_t -> option ham_page_t;
  cache_put : ham_cache_t -> ham_page_t -> ham_status_t;
  ham_page_get_btree_node : ham_page_t -> btree_node_t
}.

(** What the headers promise about these values: a status is returned as 0
    exactly when it is [HAM_SUCCESS], the flags are non-zero bit masks, and
    the sentinel is none of the comparison results. *)
Record externals_ok (X : externals) : Prop := mk_externals_ok {
  status_code_success : status_code HAM_SUCCESS = 0;
  status_code_error :
    forall st, st <> HAM_SUCCESS -> status_code st <> 0;
  sentinel_not_result :
    HAM_PREFIX_REQUEST_FULLKEY <> -1 /\
    HAM_PREFIX_REQUEST_FULLKEY <> 0 /\
    HAM_PREFIX_REQUEST_FULLKEY <> 1;
  delete_pending_bit : PAGE_NPERS_DELETE_PENDING <> 0;
  malloc_bit : PAGE_NPERS_MALLOC <> 0
}.

(** The C test [flags & mask]. *)
Definition flag_set (flags mask : Z) : bool := negb (Z.land flags mask =? 0).

(** ** db.c: the machine the functions run on *)

(** What the functions do to the file, the heap and the blob store, in the
    order it happens. *)
Inductive event : Type :=
  | EvPwrite (fd offset : Z) (buf : option (list byte)) (len : Z)
             (st : ham_status_t)
  | EvMunmap (buf : option (list byte)) (len : Z) (st : ham_status_t)
  | EvMalloc (len : Z) (block : option (list byte))
  | EvFree (block : option (list byte))
  | EvFreePageStruct (self : Z)
  | EvFreeExtkey (e : extkey_t)
  | EvCacheRemovePage (self : Z)
  | EvBlobFree (blobid : Z).

(** The state the functions thread: the database, the answers the
    surroundings will give (each [ham_mem_alloc] takes the next element of
    [st_mem], [None] for a null result and otherwise the bytes the fresh
    block happens to hold; each [os_] call takes the next status of [st_os];
    an exhausted list answers with success), the blob store, and the events
    so far. *)
Record state : Type := mk_state {
  st_db : ham_db_t;
  st_mem : list (option (nat -> byte));
  st_os : list ham_status_t;
  st_blob_read : Z -> ham_status_t * ham_record_t;
  st_trace : list event
}.

Definition M (A : Type) : Type := state -> A * state.

Definition ret {A : Type} (a : A) : M A := fun s => (a, s).

Definition bind {A B : Type} (m : M A) (k : A -> M B) : M B :=
  fun s => let (a, s') := m s in k a s'.

Notation "x <- m ;; k" := (bind m (fun x => k))
  (at level 100, m at next level, right associativity).
Notation "m ;;; k" := (bind m (fun _ => k))
  (at level 100, right associativity).

Definition get_db : M ham_db_t := fun s => (st_db s, s).

Definition put_db (db : ham_db_t) : M unit :=
  fun s => (tt, mk_state db (st_mem s) (st_os s) (st_blob_read s) (st_trace s)).

Definition emit (ev : event) : M unit :=
  fun s => (tt, mk_state (st_db s) (st_mem s) (st_os s) (st_blob_read s)
                         (st_trace s ++ [ev])).

(** [db_set_error(db, st)]; it evaluates to [st]. *)
Definition db_set_error (st : ham_status_t) : M ham_status_t :=
  db <- get_db ;;
  put_db (db_with_error db st) ;;;
  ret st.

Definition next_mem : M (option (nat -> byte)) :=
  fun s =>
    match st_mem s with
    | [] => (Some (fun _ => x00), s)
    | a :: rest =>
        (a, mk_state (st_db s) rest (st_os s) (st_blob_read s) (st_trace s))
    end.

Definition next_os : M ham_status_t :=
  fun s =>
    match st_os s with
    | [] => (HAM_SUCCESS, s)
    | a :: rest =>
        (a, mk_state (st_db s) (st_mem s) rest (st_blob_read s) (st_trace s))
    end.

(** [ham_mem_alloc(len)]: null, or a block of [len] bytes. *)
Definition ham_mem_alloc (len : Z) : M (option (list byte)) :=
  a <- next_mem ;;
  let block := option_map (fun f => map f (seq 0 (Z.to_nat len))) a in
  emit (EvMalloc len block) ;;;
  ret block.

Definition ham_mem_free (block : option (list byte)) : M unit :=
  emit (EvFree block).

Definition os_pwrite (fd offset : Z) (buf : option (list byte)) (len : Z)
  : M ham_status_t :=
  st <- next_os ;;
  emit (EvPwrite fd offset buf len st) ;;;
  ret st.

Definition os_munmap (buf : option (list byte)) (len : Z) : M ham_status_t :=
  st <- next_os ;;
  emit (EvMunmap buf len st) ;;;
  ret st.

Definition blob_read (blobid : Z) : M (ham_status_t * ham_record_t) :=
  fun s => (st_blob_read s blobid, s).

Definition blob_free (blobid : Z) : M unit := emit (EvBlobFree blobid).

(** [memcpy(dst + off, src, n)] on a block [dst]: byte [i] of [src] goes to
    offset [off + i]. *)
Fixpoint memcpy (dst : list byte) (off : nat) (src : list byte) (n : nat)
    {struct n} : list byte :=
  match n, src with
  | S n', b :: src' => memcpy (<[off := b]> dst) (S off) src' n'
  | _, _ => dst
  end.

(** The unsigned integer the bytes spell, least significant byte first. *)
Fixpoint le_decode (bs : list byte) : Z :=
  match bs with
  | [] => 0
  | b :: rest => byte_value b + 256 * le_decode rest
  end.

Section Db.

Context {X : externals}.

(** [*(ham_offset_t * )(key + (db_get_keysize(db) - sizeof(ham_offset_t)))]:
    the blob id in the last eight bytes of the key slot, in host order. *)
Definition key_blobid (db : ham_db_t) (key : list byte) : Z :=
  let raw := take (Z.to_nat sizeof_ham_offset_t)
               (drop (Z.to_nat (db_get_keysize db - sizeof_ham_offset_t)) key) in
  le_decode (if host_big_endian then rev raw else raw).

Definition my_write_page (page : ham_page_t) : M (ham_status_t * ham_page_t) :=
  db <- get_db ;;
  st <- os_pwrite (db_get_fd db) (page_get_self page) (page_get_pers page)
                  (db_get_pagesize db) ;;
  if status_is_error st then
    e <- db_set_error HAM_IO_ERROR ;;
    ret (e, page)
  else ret (HAM_SUCCESS, page_set_dirty page false).

Definition db_alloc_page_struct : M (option ham_page_t) :=
  db <- get_db ;;
  a <- ham_mem_alloc sizeof_ham_page_t ;;
  match a with
  | None => (db_set_error HAM_OUT_OF_MEMORY ;;; ret None)
  | Some _ =>
      let page := page_set_cache_cntr
                    (page_set_owner zero_page (db_handle db)) 20 in
      if negb (flag_set (db_get_flags db) DB_USE_MMAP) then
        p <- ham_mem_alloc (db_get_pagesize db) ;;
        match p with
        | None => (db_set_error HAM_OUT_OF_MEMORY ;;; ret None)
        | Some _ =>
            let page := page_set_pers page p in
            ret (Some (page_set_npers_flags page
                         (Z.lor (page_get_npers_flags page)
                                PAGE_NPERS_MALLOC)))
        end
      else ret (Some page)
  end.

(** [my_alloc_page]; the argument [need_pers] is not used. *)
Definition my_alloc_page : M (option ham_page_t) :=
  db <- get_db ;;
  got <-
    (if cache_can_add_page (db_get_cache db) then db_alloc_page_struct
     else
       match cache_get_unused (db_get_cache db) with
       | None => (db_set_error HAM_CACHE_FULL ;;; ret None)
       | Some page =>
           w <- (if page_is_dirty page
                    && negb (flag_set (db_get_flags db) HAM_IN_MEMORY_DB)
                 then my_write_page page
                 else ret (HAM_SUCCESS, page)) ;;
           let (st, page) := w in
           if status_is_error st then (db_set_error st ;;; ret None)
           else
             r <- (if negb (flag_set (page_get_npers_flags page)
                                     PAGE_NPERS_MALLOC)
                   then os_munmap (page_get_pers page) (db_get_pagesize db)
                   else (ham_mem_free (page_get_pers page) ;;;
                         ret HAM_SUCCESS)) ;;
             if status_is_error r then (db_set_error r ;;; ret None)
             else ret (Some (page_set_owner zero_page (db_handle db)))
       end) ;;
  match got with
  | None => ret None
  | Some page =>
      if negb (flag_set (db_get_flags db) DB_USE_MMAP)
         && negb (bool_decide (is_Some (page_get_pers page)))
      then
        p <- ham_mem_alloc (db_get_pagesize db) ;;
        match p with
        | None => (db_set_error HAM_OUT_OF_MEMORY ;;; ret None)
        | Some _ =>
            let page := page_set_pers page p in
            ret (Some (page_set_npers_flags page
                         (Z.lor (page_get_npers_flags page)
                                PAGE_NPERS_MALLOC)))
        end
      else ret (Some page)
  end.

(** [extkey_cache_remove] of [extkeys.c], run on this machine on the cache
    [c] of the database: the cache is updated in place, and the entry the
    function unlinked is given back to the heap by [ham_mem_free(e)].  The
    callers discard the status. *)
Definition run_extkey_cache_remove (c : extkey_cache_t) (blobid : Z)
  : M unit :=
  db <- get_db ;;
  put_db (db_with_extkey_cache db
            (Some (snd (extkey_cache_remove c blobid)))) ;;;
  match chain_find blobid
          (extkey_cache_get_bucket c (my_calc_hash c blobid)) with
  | Some e => emit (EvFreeExtkey e)
  | None => ret tt
  end.

(** The loop of [db_free_page] and [db_free_page_struct] over the keys of a
    leaf: an extended key's blob is freed (in-memory database) or its entry
    leaves the extended-key cache, when there is one. *)
Fixpoint scrub_extkeys (keys : list key_t) : M unit :=
  match keys with
  | [] => ret tt
  | bte :: rest =>
      db <- get_db ;;
      (if flag_set (key_get_flags bte) KEY_IS_EXTENDED then
         let blobid := key_blobid db (key_get_key bte) in
         if flag_set (db_get_flags db) HAM_IN_MEMORY_DB then blob_free blobid
         else
           match db_get_extkey_cache db with
           | Some c => run_extkey_cache_remove c blobid
           | None => ret tt
           end
       else ret tt) ;;;
      scrub_extkeys rest
  end.

Definition scrub_page (page : ham_page_t) : M unit :=
  if (page_get_type page =? PAGE_TYPE_B_ROOT)
     || (page_get_type page =? PAGE_TYPE_B_INDEX)
  then
    let node := ham_page_get_btree_node page in
    if btree_node_is_leaf node then scrub_extkeys (btree_node_keys node)
    else ret tt
  else ret tt.

Definition db_free_page_struct (page : ham_page_t) : M unit :=
  db <- get_db ;;
  emit (EvCacheRemovePage (page_get_self page)) ;;;
  (if negb (flag_set (page_get_npers_flags page) PAGE_NPERS_DELETE_PENDING)
   then scrub_page page
   else ret tt) ;;;
  (match page_get_pers page with
   | Some _ =>
       if flag_set (page_get_npers_flags page) PAGE_NPERS_MALLOC
       then ham_mem_free (page_get_pers page)
       else (os_munmap (page_get_pers page) (db_get_pagesize db) ;;; ret tt)
   | None => ret tt
   end) ;;;
  emit (EvFreePageStruct (page_get_self page)).

(** [db_free_page]; the arguments [txn] and [flags] are not used, and the
    assertion states the precondition that the page is not yet
    delete-pending. *)
Definition db_free_page (page : ham_page_t) : M (ham_status_t * ham_page_t) :=
  scrub_page page ;;;
  ret (HAM_SUCCESS,
       page_set_npers_flags page
         (Z.lor (page_get_npers_flags page) PAGE_NPERS_DELETE_PENDING)).

Definition db_write_page_and_delete (page : ham_page_t) (flags : Z)
  : M ham_status_t :=
  db <- get_db ;;
  w <- (if page_is_dirty page
           && negb (flag_set (db_get_flags db) HAM_IN_MEMORY_DB)
        then my_write_page page
        else ret (HAM_SUCCESS, page)) ;;
  (if negb (flag_set flags DB_FLUSH_NODELETE)
   then db_free_page_struct (snd w)
   else ret tt) ;;;
  ret HAM_SUCCESS.

Definition db_flush_page (page : ham_page_t) (flags : Z)
  : M (ham_status_t * ham_page_t) :=
  db <- get_db ;;
  if flag_set (db_get_flags db) HAM_WRITE_THROUGH && page_is_dirty page then
    w <- my_write_page page ;;
    if status_is_error (fst w) then ret w
    else ret (cache_put (db_get_cache db) (snd w), snd w)
  else ret (cache_put (db_get_cache db) page, page).

Definition db_default_prefix_compare (lhs : list byte)
    (lhs_length lhs_real_length : Z) (rhs : list byte)
    (rhs_length rhs_real_length : Z) : Z :=
  let min_length := if lhs_length <? rhs_length then lhs_length
                    else rhs_length in
  let m := memcmp lhs rhs (Z.to_nat min_length) in
  if m <? 0 then -1
  else if m >? 0 then 1
  else HAM_PREFIX_REQUEST_FULLKEY.

(** [extkey_cache_new] and [extkey_cache_insert] of [extkeys.c], run on this
    machine: the allocation is the next answer of the heap. *)
Definition run_extkey_cache_new : M (option extkey_cache_t) :=
  p <- ham_mem_alloc (sizeof_extkey_cache_t
                      + (EXTKEY_CACHE_BUCKETSIZE - 1) * sizeof_pointer) ;;
  match extkey_cache_new (bool_decide (is_Some p)) with
  | None => (db_set_error HAM_OUT_OF_MEMORY ;;; ret None)
  | Some c => ret (Some c)
  end.

Definition run_extkey_cache_insert (blobid size : Z) (data : list byte)
  : M unit :=
  db <- get_db ;;
  match db_get_extkey_cache db with
  | None => ret tt
  | Some c =>
      if no_capacity (db_get_cache db) c size then ret tt
      else
        p <- ham_mem_alloc (SIZEOF_EXTKEY_T + size) ;;
        db' <- get_db ;;
        put_db (db_with_extkey_cache db'
                  (Some (snd (extkey_cache_insert (db_get_cache db)
                                (bool_decide (is_Some p)) c blobid size data))))
  end.

(** How one of the two keys stands after its loading step. *)
Inductive loaded : Type :=
  | KeyInline
  | KeyCached (data : list byte)
  | KeyAllocated (block : list byte)
  | KeyReturn (st : ham_status_t)
  | KeyBail.

(** Steps 1 and 2 of [db_compare_keys], the same statements on [lhs] and on
    [rhs]: the key pointer stays null ([KeyInline]), points into the cache
    ([KeyCached]), or to a fresh block with the allocation flag set
    ([KeyAllocated]); or the function leaves by [return (st)] or by
    [goto bail]. *)
Definition load_key (flags : Z) (key : list byte) (key_length : Z)
  : M loaded :=
  db <- get_db ;;
  if flag_set flags KEY_IS_EXTENDED then
    let blobid := key_blobid db key in
    let in_memory := flag_set (db_get_flags db) HAM_IN_MEMORY_DB in
    let fetched :=
      if negb in_memory then
        match db_get_extkey_cache db with
        | Some c => extkey_cache_fetch c blobid
        | None => (HAM_KEY_NOT_FOUND, None)
        end
      else (HAM_KEY_NOT_FOUND, None) in
    match fetched with
    | (HAM_SUCCESS, Some (_, data)) => ret (KeyCached data)
    | (st, _) =>
        if negb (bool_decide (st = HAM_KEY_NOT_FOUND)) then
          (db_set_error st ;;; ret (KeyReturn st))
        else
          r <- blob_read blobid ;;
          let (rst, record) := r in
          if status_is_error rst then (db_set_error rst ;;; ret KeyBail)
          else
            p <- ham_mem_alloc (ham_size_wrap (record_size record
                                               + db_get_keysize db)) ;;
            match p with
            | None => (db_set_error HAM_OUT_OF_MEMORY ;;; ret KeyBail)
            | Some block =>
                let prefix := db_get_keysize db - sizeof_ham_offset_t in
                let block := memcpy block 0 key (Z.to_nat prefix) in
                let block := memcpy block (Z.to_nat prefix)
                               (record_data record)
                               (Z.to_nat (record_size record)) in
                (if negb in_memory
                 then run_extkey_cache_insert blobid key_length block
                 else ret tt) ;;;
                ret (KeyAllocated block)
            end
    end
  else ret KeyInline.

(** [p ? p : key] *)
Definition key_pointer (l : loaded) (key : list byte) : list byte :=
  match l with
  | KeyCached data => data
  | KeyAllocated block => block
  | _ => key
  end.

(** [if (alloc && p) ham_mem_free(p)] *)
Definition free_loaded (l : loaded) : M unit :=
  match l with
  | KeyAllocated block => ham_mem_free (Some block)
  | _ => ret tt
  end.

(** [db_compare_keys]; the arguments [txn], [page], [lhs_idx] and [rhs_idx]
    do not influence it. *)
Definition db_compare_keys (lhs_flags : Z) (lhs : list byte) (lhs_length : Z)
    (rhs_flags : Z) (rhs : list byte) (rhs_length : Z) : M Z :=
  db_set_error HAM_SUCCESS ;;;
  db <- get_db ;;
  let foo := db_get_compare_func db in
  if negb (flag_set lhs_flags KEY_IS_EXTENDED)
     && negb (flag_set rhs_flags KEY_IS_EXTENDED)
  then ret (foo lhs lhs_length rhs rhs_length)
  else
    pre <-
      match db_get_prefix_compare_func db with
      | Some prefoo =>
          let lhsprefixlen :=
            if flag_set lhs_flags KEY_IS_EXTENDED
            then ham_size_wrap (db_get_keysize db - sizeof_ham_offset_t)
            else lhs_length in
          let rhsprefixlen :=
            if flag_set rhs_flags KEY_IS_EXTENDED
            then ham_size_wrap (db_get_keysize db - sizeof_ham_offset_t)
            else rhs_length in
          let (c, err) :=
            prefoo lhs lhsprefixlen lhs_length rhs rhsprefixlen rhs_length in
          (if status_is_error err then db_set_error err ;;; ret tt
           else ret tt) ;;;
          db1 <- get_db ;;
          ret (c, status_is_error (db_get_error db1))
      | None => ret (HAM_PREFIX_REQUEST_FULLKEY, false)
      end ;;
    let (cmp, leave) := pre in
    if leave then ret 0
    else if cmp =? HAM_PREFIX_REQUEST_FULLKEY then
      have_cache <-
        (if negb (flag_set (db_get_flags db) HAM_IN_MEMORY_DB) then
           db2 <- get_db ;;
           match db_get_extkey_cache db2 with
           | Some _ => ret true
           | None =>
               c <- run_extkey_cache_new ;;
               db3 <- get_db ;;
               put_db (db_with_extkey_cache db3 c) ;;;
               ret (bool_decide (is_Some c))
           end
         else ret true) ;;
      if negb have_cache then
        db4 <- get_db ;;
        ret (status_code (db_get_error db4))
      else
        plhs <- load_key lhs_flags lhs lhs_length ;;
        match plhs with
        | KeyReturn st => ret (status_code st)
        | KeyBail => ret cmp
        | _ =>
            prhs <- load_key rhs_flags rhs rhs_length ;;
            match prhs with
            | KeyReturn st => ret (status_code st)
            | KeyBail => free_loaded plhs ;;; ret cmp
            | _ =>
                let cmp' := foo (key_pointer plhs lhs) lhs_length
                                (key_pointer prhs rhs) rhs_length in
                free_loaded plhs ;;;
                free_loaded prhs ;;;
                ret cmp'
            end
        end
    else ret cmp.

End Db.

(** ** Vocabulary of the statements *)

Definition is_pwrite (ev : event) : bool :=
  match ev with EvPwrite _ _ _ _ _ => true | _ => false end.

(** A buffer is given back: unmapped, or freed. *)
Definition is_release (ev : event) : bool :=
  match ev with EvMunmap _ _ _ | EvFree _ => true | _ => false end.

(** The events a run from [s] to [s'] added. *)
Definition new_events (s s' : state) : list event :=
  drop (length (st_trace s)) (st_trace s').

(** The run from [s] to [s'] added exactly the events [evs]. *)
Definition extends (s s' : state) (evs : list event) : Prop :=
  st_trace s' = st_trace s ++ evs.

(** The positional writes among the events a run added. *)
Definition pwrites (s s' : state) : list event :=
  filter is_pwrite (new_events s s').

Definition is_free (ev : event) : bool :=
  match ev with EvFree _ => true | _ => false end.

(** A run that frees nothing and leaves the blob store and the key size
    alone. *)
Definition quiet (s s' : state) : Prop :=
  st_blob_read s' = st_blob_read s /\
  db_get_keysize (st_db s') = db_get_keysize (st_db s) /\
  exists evs, extends s s' evs /\ Forall (fun ev => is_free ev = false) evs.

Definition quiet_run {A : Type} (m : M A) : Prop :=
  forall s, quiet s (snd (m s)).

(** The size of the block and what it holds, for the key [key] and the
    record the blob store of [s] has for it. *)
Definition assembled {X : externals} (s : state) (key block : list byte)
  : Prop :=
  let db := st_db s in
  let record := snd (st_blob_read s (key_blobid db key)) in
  let prefix := db_get_keysize db - sizeof_ham_offset_t in
  length block
  = Z.to_nat (ham_size_wrap (record_size record + db_get_keysize db)) /\
  (0 <= prefix <= Z.of_nat (length key) ->
   Z.of_nat (length (record_data record)) = record_size record ->
   record_size record + db_get_keysize db <= ham_size_max ->
   take (Z.to_nat (prefix + record_size record)) block
   = take (Z.to_nat prefix) key ++ record_data record /\
   Z.of_nat (length block)
   = prefix + record_size record + sizeof_ham_offset_t).

(** Every block a run frees, started after a quiet run from [s0], is the
    assembly of [lhs] or of [rhs]. *)
Definition frees_assembled {X : externals} {A : Type} (s0 : state)
    (lhs rhs : list byte) (m : M A) : Prop :=
  forall s block,
    quiet s0 s ->
    In (EvFree (Some block)) (new_events s0 (snd (m s))) ->
    assembled s0 lhs block \/ assembled s0 rhs block.

(** A page as [memset] and [page_set_owner] leave it, but for the buffer and
    the flag a later allocation of the buffer sets. *)
Definition reinitialized (db : ham_db_t) (page : ham_page_t) : Prop :=
  page_get_self page = 0 /\ page_get_type page = 0 /\
  page_is_dirty page = false /\ page_get_cache_cntr page = 0 /\
  page_get_inuse page = 0 /\ page_get_owner page = Some (db_handle db).

(** Values for the flag bits and the other externals, for running the
    functions on examples: [unused] is the page the cache offers as a victim
    and [node] the btree node every page holds; the cache is full when less
    than one page of 4 KiB fits. *)
Definition sample_externals (unused : option ham_page_t)
    (node : btree_node_t) : externals :=
  {| HAM_IN_MEMORY_DB := 128;
     HAM_WRITE_THROUGH := 1;
     DB_USE_MMAP := 256;
     DB_FLUSH_NODELETE := 1;
     KEY_IS_EXTENDED := 8;
     PAGE_NPERS_MALLOC := 2;
     PAGE_NPERS_DELETE_PENDING := 1;
     PAGE_TYPE_B_ROOT := 2;
     PAGE_TYPE_B_INDEX := 3;
     HAM_PREFIX_REQUEST_FULLKEY := -2;
     SIZEOF_EXTKEY_T := 24;
     sizeof_extkey_cache_t := 24;
     sizeof_ham_page_t := 64;
     sizeof_pointer := 8;
     status_code := fun st =>
       match st with
       | HAM_SUCCESS => 0
       | HAM_OUT_OF_MEMORY => -6
       | HAM_INVALID_PARAMETER => -8
       | HAM_IO_ERROR => -18
       | HAM_KEY_NOT_FOUND => -11
       | HAM_DUPLICATE_KEY => -12
       | HAM_CACHE_FULL => -19
       | HAM_DATABASE_ALREADY_OPEN => -22
       | HAM_CURSOR_IS_NIL => -100
       | HAM_LIMITS_REACHED => -24
       | HAM_INTERNAL_ERROR => -14
       end;
     host_big_endian := false;
     cache_can_add_page := fun c =>
       cache_get_usedsize c + 4096 <=? cache_get_cachesize c;
     cache_get_unused := fun _ => unused;
     cache_put := fun _ _ => HAM_SUCCESS;
     ham_page_get_btree_node := fun _ => node |}.

(** ** A concrete database, for running the functions *)

(** A database on disk in read/write mode, with 4 KiB pages, 16-byte key
    slots, a full page cache and no extended-key cache yet; the file system
    and the heap answer every call with success, the blob store every read
    with an error. *)
Definition full_db : ham_db_t :=
  mk_db 1 0 3 4096 16 HAM_SUCCESS (mk_cache 1048576 1048576) None
        db_default_compare None.

Definition full_state : state :=
  mk_state full_db [] [] (fun _ => (HAM_IO_ERROR, mk_record 0 [])) [].

(** A dirty page at offset 8192 with a heap buffer. *)
Definition dirty_page : ham_page_t :=
  mk_page 8192 0 true (Some (replicate 4096 x00)) 2 7 0 (Some 1).

Definition no_node : btree_node_t := mk_btree_node false [].

(** The same database with room in its page cache and an empty extended-key
    cache. *)
Definition disk_db : ham_db_t :=
  mk_db 1 0 3 4096 16 HAM_SUCCESS (mk_cache 4096 1048576) (Some fresh_cache)
        db_default_compare None.

(** A key of 64 bytes [a] in a 16-byte slot: eight bytes of prefix, then the
    blob id 4096 of its tail of 56 bytes. *)
Definition long_key_slot : list byte :=
  replicate 8 x61 ++ [x00; x10; x00; x00; x00; x00; x00; x00].

Definition long_key_tail : list byte := replicate 56 x61.

(** The blob store holds the tail under its id and fails on every other
    read. *)
Definition tail_store (blobid : Z) : ham_status_t * ham_record_t :=
  if blobid =? 4096 then (HAM_SUCCESS, mk_record 56 long_key_tail)
  else (HAM_IO_ERROR, mk_record 0 []).

Definition failing_store (blobid : Z) : ham_status_t * ham_record_t :=
  (HAM_IO_ERROR, mk_record 0 []).

(** * More of the code *)

(** ** extkeys.c: destroying a cache *)

(** The debug-build loop of [extkey_cache_destroy]: every bucket from 0 to
    the bucket size must be a null chain. *)
Definition extkey_cache_destroy_assert (cache : extkey_cache_t) : bool :=
  forallb
    (fun i =>
       match extkey_cache_get_bucket cache (Z.of_nat i) with
       | [] => true
       | _ :: _ => false
       end)
    (seq 0 (Z.to_nat (extkey_cache_get_bucketsize cache))).

(** Every entry sits in the chain its blob id hashes to, and no chain holds
    a blob id twice. *)
Definition unique_ids (cache : extkey_cache_t) : Prop :=
  well_formed cache /\
  forall (i : nat) (chain : list extkey_t),
    extkey_cache_buckets cache !! i = Some chain ->
    NoDup (extkey_get_blobid <$> chain) /\
    Forall (fun e => Z.to_nat (my_calc_hash cache (extkey_get_blobid e)) = i)
           chain.


(** ** Byte strings in lexicographic order *)

(** The order of two byte strings by their first differing byte, taken as an
    unsigned number; a proper prefix comes first. *)
Fixpoint lexicographic (l r : list byte) : Z :=
  match l, r with
  | [], [] => 0
  | [], _ :: _ => -1
  | _ :: _, [] => 1
  | a :: l', b :: r' =>
      if byte_value a =? byte_value b then lexicographic l' r'
      else Z.sgn (byte_value a - byte_value b)
  end.


(** ** Vocabulary for the runs of [db_compare_keys] *)

(** The blocks the heap handed out, and the blocks given back to it, among
    some events. *)
Definition allocated (evs : list event) : list (list byte) :=
  omap (fun ev => match ev with
                  | EvMalloc _ (Some block) => Some block
                  | _ => None
                  end) evs.

Definition freed (evs : list event) : list (list byte) :=
  omap (fun ev => match ev with
                  | EvFree (Some block) => Some block
                  | _ => None
                  end) evs.

(** The whole key a key slot stands for: the slot's bytes for a short key;
    for an extended key the prefix in the slot, followed by the bytes the
    blob store keeps under the blob id in the slot. *)
Definition full_key {X : externals} (s : state) (flags : Z)
    (key : list byte) : list byte :=
  if flag_set flags KEY_IS_EXTENDED then
    take (Z.to_nat (db_get_keysize (st_db s) - sizeof_ham_offset_t)) key
    ++ record_data (snd (st_blob_read s (key_blobid (st_db s) key)))
  else key.

(** A key slot passed with its length: a short key has that many bytes; an
    extended key has its prefix in the slot and a readable record of the
    remaining bytes in the blob store. *)
Definition key_in_store {X : externals} (s : state) (flags : Z)
    (key : list byte) (key_length : Z) : Prop :=
  let db := st_db s in
  let prefix := db_get_keysize db - sizeof_ham_offset_t in
  if flag_set flags KEY_IS_EXTENDED then
    exists record,
      st_blob_read s (key_blobid db key) = (HAM_SUCCESS, record) /\
      Z.of_nat (length (record_data record)) = record_size record /\
      prefix <= Z.of_nat (length key) /\
      record_size record + db_get_keysize db <= ham_size_max /\
      key_length = prefix + record_size record
  else 0 <= key_length <= Z.of_nat (length key).

(** [db_default_prefix_compare] as the prefix comparison of a database; it
    leaves the error slot alone. *)
Definition default_prefix_compare_func {X : externals}
  : ham_prefix_compare_func_t :=
  fun lhs lhs_length lhs_real_length rhs rhs_length rhs_real_length =>
    (db_default_prefix_compare lhs lhs_length lhs_real_length
                               rhs rhs_length rhs_real_length,
     HAM_SUCCESS).

(** An in-memory database with 16-byte key slots, the default comparison
    functions and the blob store [tail_store]; the heap hands out blocks of
    bytes [z]. *)
Definition memory_db {X : externals} : ham_db_t :=
  mk_db 1 HAM_IN_MEMORY_DB 0 4096 16 HAM_SUCCESS (mk_cache 0 1048576) None
        db_default_compare (Some default_prefix_compare_func).

Definition memory_state {X : externals} : state :=
  mk_state memory_db [Some (fun _ => x7a); Some (fun _ => x7a)] []
           tail_store [].


(** ** Vocabulary for freeing pages *)

(** The blob ids handed to [blob_free] among some events. *)
Definition blob_frees (evs : list event) : list Z :=
  omap (fun ev => match ev with
                  | EvBlobFree blobid => Some blobid
                  | _ => None
                  end) evs.

(** The blob ids in the slots of the extended keys among [keys], in slot
    order. *)
Definition extended_blobids {X : externals} (db : ham_db_t)
    (keys : list key_t) : list Z :=
  map (fun bte => key_blobid db (key_get_key bte))
      (List.filter (fun bte => flag_set (key_get_flags bte) KEY_IS_EXTENDED)
                   keys).

(** The key slots the loops of [db_free_page] and [db_free_page_struct]
    visit: those of a leaf of the btree, none for any other page. *)
Definition scrubbed_keys {X : externals} (page : ham_page_t) : list key_t :=
  if (page_get_type page =? PAGE_TYPE_B_ROOT)
     || (page_get_type page =? PAGE_TYPE_B_INDEX)
  then
    if btree_node_is_leaf (ham_page_get_btree_node page)
    then btree_node_keys (ham_page_get_btree_node page)
    else []
  else [].

(** A leaf with one short key and the extended key [long_key_slot], and a
    root page that holds it. *)
Definition leaf_node : btree_node_t :=
  mk_btree_node true [mk_key 0 (replicate 16 x62); mk_key 8 long_key_slot].

Definition leaf_page : ham_page_t :=
  mk_page 4096 2 false (Some (replicate 4096 x00)) 2 0 0 (Some 1).

(** [disk_db] after the key [long_key_slot] was cached under its blob id. *)
Definition cached_db : ham_db_t :=
  mk_db 1 0 3 4096 16 HAM_SUCCESS (mk_cache 4096 1048576)
        (Some (run_ops [OpInsert (mk_cache 4096 1048576) true 4096 64
                          (replicate 64 x61);
                        OpInsert (mk_cache 4096 1048576) true 8192 3
                          [x61; x62; x63]]
                 fresh_cache))
        db_default_compare None.


Definition cached_state : state :=
  mk_state cached_db [] [] tail_store [].


Definition is_malloc (ev : event) : bool :=
  match ev with EvMalloc _ _ => true | _ => false end.

(** A database on disk with room in its page cache, whose file system fails
    the next call. *)
Definition failing_disk_state : state :=
  mk_state disk_db [] [HAM_INTERNAL_ERROR] tail_store [].


(** The same with write-through switched on. *)
Definition failing_write_through_state {X : externals} : state :=
  mk_state (mk_db 1 HAM_WRITE_THROUGH 3 4096 16 HAM_SUCCESS
              (mk_cache 4096 1048576) (Some fresh_cache)
              db_default_compare None)
           [] [HAM_INTERNAL_ERROR] tail_store [].


(** ** db.c: fetching a page *)

Definition page_set_self (page : ham_page_t) (address : Z) : ham_page_t :=
  mk_page address (page_get_type page) (page_is_dirty page)
          (page_get_pers page) (page_get_npers_flags page)
          (page_get_cache_cntr page) (page_get_inuse page)
          (page_get_owner page).

(** What [db_fetch_page] and [my_read_page] take from modules that are not
    among the verified sources: the flag [DB_ONLY_FROM_CACHE], the
    transactions with their page lookup and [txn_add_page] (called with a
    null transaction too), the lookup of the page cache, and the bytes the
    file holds at an address. *)
Class fetch_externals : Type := mk_fetch_externals {
  DB_ONLY_FROM_CACHE : Z;
  ham_txn_t : Type;
  txn_get_page : ham_txn_t -> Z -> option ham_page_t;
  txn_add_page : option ham_txn_t -> ham_page_t -> ham_status_t;
  cache_get : ham_cache_t -> Z -> option ham_page_t;
  file_bytes : Z -> Z -> list byte
}.

Section Fetch.

Context {X : externals} {F : fetch_externals}.

(** [os_mmap(fd, address, len, &buffer)]: the next status of the file
    system and, on success, a buffer with the bytes of the file.  Reading
    changes nothing in the file and leaves no event. *)
Definition os_mmap (fd address len : Z)
  : M (ham_status_t * option (list byte)) :=
  st <- next_os ;;
  ret (st, if status_is_error st then None
           else Some (file_bytes address len)).

(** [os_pread(fd, address, buffer, len)]: on success the buffer holds the
    bytes of the file; a failed read leaves it as it was. *)
Definition os_pread (fd address : Z) (buffer : option (list byte)) (len : Z)
  : M (ham_status_t * option (list byte)) :=
  st <- next_os ;;
  ret (st, if status_is_error st then buffer
           else option_map (fun _ => file_bytes address len) buffer).

Definition my_read_page (address : Z) (page : ham_page_t)
  : M (ham_status_t * ham_page_t) :=
  db <- get_db ;;
  if flag_set (db_get_flags db) DB_USE_MMAP then
    r <- os_mmap (db_get_fd db) address (db_get_pagesize db) ;;
    if status_is_error (fst r) then
      (db_set_error HAM_IO_ERROR ;;; ret (HAM_IO_ERROR, page))
    else ret (HAM_SUCCESS, page_set_pers page (snd r))
  else
    r <- os_pread (db_get_fd db) address (page_get_pers page)
                  (db_get_pagesize db) ;;
    if status_is_error (fst r) then
      e <- db_set_error HAM_IO_ERROR ;;
      ret (e, page)
    else ret (HAM_SUCCESS, page_set_pers page (snd r)).

Definition db_write_page_to_device (page : ham_page_t)
  : M (ham_status_t * ham_page_t) :=
  my_write_page page.

Definition db_fetch_page_from_device (page : ham_page_t) (address : Z)
  : M (ham_status_t * ham_page_t) :=
  my_read_page address (page_set_self page address).

(** [db_fetch_page].  The database record always has a page cache, so the
    test [if (db_get_cache(db))] holds. *)
Definition db_fetch_page (txn : option ham_txn_t) (address flags : Z)
  : M (option ham_page_t) :=
  match (match txn with
         | Some t => txn_get_page t address
         | None => None
         end) with
  | Some page => ret (Some page)
  | None =>
      db <- get_db ;;
      match cache_get (db_get_cache db) address with
      | Some page =>
          let st := txn_add_page txn page in
          if status_is_error st then (db_set_error st ;;; ret None)
          else ret (Some page)
      | None =>
          if flag_set flags DB_ONLY_FROM_CACHE then ret None
          else if negb (cache_can_add_page (db_get_cache db)) then
            (db_set_error HAM_CACHE_FULL ;;; ret None)
          else
            p <- my_alloc_page ;;
            match p with
            | None => ret None
            | Some page =>
                r <- my_read_page address page ;;
                let (st, page) := r in
                if status_is_error st then
                  (db_set_error st ;;;
                   db_free_page_struct page ;;;
                   ret None)
                else
                  let page := page_set_self page address in
                  let st :=
                    match txn with
                    | Some _ => txn_add_page txn page
                    | None => HAM_SUCCESS
                    end in
                  if status_is_error st then
                    (db_set_error st ;;;
                     db_free_page_struct page ;;;
                     ret None)
                  else
                    let st := cache_put (db_get_cache db) page in
                    if status_is_error st then
                      (db_set_error st ;;; ret None)
                    else ret (Some page)
            end
      end
  end.

End Fetch.

(** Values for running [db_fetch_page]: no transaction holds a page, the
    page cache holds none, and the file is filled with bytes [f]. *)
Definition sample_fetch_externals : fetch_externals :=
  {| DB_ONLY_FROM_CACHE := 4;
     ham_txn_t := unit;
     txn_get_page := fun _ _ => None;
     txn_add_page := fun _ _ => HAM_SUCCESS;
     cache_get := fun _ _ => None;
     file_bytes := fun _ len => replicate (Z.to_nat len) x66 |}.


(** A run that adds events but no positional write. *)
Definition writes_nothing (s s' : state) : Prop :=
  exists evs, extends s s' evs /\ filter is_pwrite evs = [].


(** [disk_db] with a file system and a heap that answer every call with
    success. *)
Definition disk_state : state := mk_state disk_db [] [] tail_store [].


(** ** cursor.h *)

(** *** The coupling flag of a cursor *)

Definition _CURSOR_COUPLED_TO_TXN : Z := 0x1000000.

(** [~_CURSOR_COUPLED_TO_TXN], converted to the [ham_u32_t] of the cursor
    flags it is combined with. *)
Definition not_CURSOR_COUPLED_TO_TXN : Z :=
  Z.lnot _CURSOR_COUPLED_TO_TXN mod 2 ^ 32.

(** The macros on the value of [cursor_get_flags(c)]; the two [couple]
    macros give the value [cursor_set_flags] stores. *)
Definition cursor_is_coupled_to_btree (flags : Z) : bool :=
  negb (flag_set flags _CURSOR_COUPLED_TO_TXN).

Definition cursor_is_coupled_to_txnop (flags : Z) : bool :=
  flag_set flags _CURSOR_COUPLED_TO_TXN.

Definition cursor_couple_to_btree (flags : Z) : Z :=
  Z.land flags not_CURSOR_COUPLED_TO_TXN.

Definition cursor_couple_to_txnop (flags : Z) : Z :=
  Z.lor flags _CURSOR_COUPLED_TO_TXN.

(** *** The cache of duplicates *)

(** A line of the cache; the pointer [m_op] to a [txn_op_t] is [None] when
    null and otherwise the address it holds. *)
Record DupeCacheLine : Type := mk_DupeCacheLine {
  m_use_btree : bool;
  m_btree_dupeidx : Z;
  m_op : option Z
}.

(** The two constructors; each asserts the value of [use_btree] it is meant
    for. *)
Definition DupeCacheLine_btree (use_btree : bool) (btree_dupeidx : Z)
  : DupeCacheLine :=
  mk_DupeCacheLine use_btree btree_dupeidx None.

Definition DupeCacheLine_txn (use_btree : bool) (op : option Z)
  : DupeCacheLine :=
  mk_DupeCacheLine use_btree 0 op.

Definition set_btree_dupe_idx (line : DupeCacheLine) (idx : Z)
  : DupeCacheLine :=
  mk_DupeCacheLine true idx None.

Definition set_txn_op (line : DupeCacheLine) (op : option Z)
  : DupeCacheLine :=
  mk_DupeCacheLine false 0 op.

(** [DupeCache]: the vector [m_elements]. *)
Record DupeCache : Type := mk_DupeCache {
  m_elements : list DupeCacheLine
}.

(** [get_count]: the size of the vector, returned as a [ham_size_t]. *)
Definition get_count (cache : DupeCache) : Z :=
  ham_size_wrap (Z.of_nat (length (m_elements cache))).

(** [get_element(idx)]: the line at [idx]; there is none past the end. *)
Definition get_element (cache : DupeCache) (idx : nat)
  : option DupeCacheLine :=
  m_elements cache !! idx.

Definition get_first_element (cache : DupeCache) : option DupeCacheLine :=
  m_elements cache !! 0%nat.

(** [clone(other)]: the value [other] has afterwards. *)
Definition DupeCache_clone (cache : DupeCache) : DupeCache :=
  mk_DupeCache (m_elements cache).

(** [insert(position, dcl)]: [std::vector::insert] before
    [begin() + position], defined up to [position = size]. *)
Definition DupeCache_insert (cache : DupeCache) (position : nat)
    (dcl : DupeCacheLine) : DupeCache :=
  mk_DupeCache (take position (m_elements cache)
                ++ dcl :: drop position (m_elements cache)).

Definition DupeCache_append (cache : DupeCache) (dcl : DupeCacheLine)
  : DupeCache :=
  mk_DupeCache (m_elements cache ++ [dcl]).

(** [erase(position)]: [std::vector::erase] of the element at
    [begin() + position], defined for [position < size]. *)
Definition DupeCache_erase (cache : DupeCache) (position : nat)
  : DupeCache :=
  mk_DupeCache (take position (m_elements cache)
                ++ drop (S position) (m_elements cache)).

Definition DupeCache_clear (cache : DupeCache) : DupeCache :=
  mk_DupeCache [].


(** ** unittests/cppapi.cpp: the comparison callbacks of the test *)

Definition my_compare_func : ham_compare_func_t :=
  fun lhs lhs_length rhs rhs_length => 0.

(** The callback does not touch the database, so the error slot is left at
    success. *)
Definition my_prefix_compare_func : ham_prefix_compare_func_t :=
  fun lhs lhs_length lhs_real_length rhs rhs_length rhs_real_length =>
    (0, HAM_SUCCESS).

(** A database on disk with the callbacks of [compareTest] and a blob store
    that fails every read. *)
Definition callback_state : state :=
  mk_state (mk_db 1 0 3 4096 16 HAM_INTERNAL_ERROR (mk_cache 4096 1048576)
              None my_compare_func (Some my_prefix_compare_func))
           [] [] failing_store [].

(** The entries a series of [extkey_cache_remove] calls unlinks from a
    cache, in the order of the calls. *)
Fixpoint removed_entries (ids : list Z) (c : extkey_cache_t)
  : list extkey_t :=
  match ids with
  | [] => []
  | blobid :: rest =>
      let later := removed_entries rest (snd (extkey_cache_remove c blobid)) in
      match chain_find blobid
              (extkey_cache_get_bucket c (my_calc_hash c blobid)) with
      | Some e => e :: later
      | None => later
      end
  end.

(** * Properties *)

(** ** Arithmetic on [ham_size_t] *)

Lemma ham_size_wrap_small (z : Z) :
  0 <= z <= ham_size_max -> ham_size_wrap z = z.
Proof.
  unfold ham_size_wrap, ham_size_max, ham_size_modulus, ham_size_bits.
  intros Hz. apply Z.mod_small. lia.
Qed.


Lemma ham_size_wrap_add_l (a b : Z) :
  ham_size_wrap (ham_size_wrap a + b) = ham_size_wrap (a + b).
Proof.
  unfold ham_size_wrap. apply Zplus_mod_idemp_l.
Qed.

Lemma ham_size_wrap_sub_l (a b : Z) :
  ham_size_wrap (ham_size_wrap a - b) = ham_size_wrap (a - b).
Proof.
  unfold ham_size_wrap. apply Zminus_mod_idemp_l.
Qed.


(** A mask bounds what it lets through. *)
Lemma land_mask_range (a m : Z) : 0 <= m -> 0 <= Z.land a m <= m.
Proof.
  intros Hm. split.
  - apply Z.land_nonneg. now right.
  - assert (Hs : Z.land a m + Z.ldiff m a = m).
    { rewrite Z.add_nocarry_lor.
      - rewrite (Z.land_comm a m), Z.lor_comm. apply Z.lor_ldiff_and.
      - apply Z.bits_inj'. intros n Hn.
        rewrite Z.land_spec, Z.land_spec, Z.ldiff_spec, Z.bits_0.
        destruct (Z.testbit a n), (Z.testbit m n); reflexivity. }
    assert (0 <= Z.ldiff m a) by (apply Z.ldiff_nonneg; now left).
    lia.
Qed.

(** ** extkeys.c: bucket selection and chains *)

Lemma my_calc_hash_mask (cache : extkey_cache_t) (blobid : Z) :
  well_formed cache ->
  my_calc_hash cache blobid
  = Z.land blobid (extkey_cache_get_bucketsize cache - 1).
Proof.
  intros [[Hpos Hmax] _]. unfold my_calc_hash.
  destruct (Z.eqb_spec (extkey_cache_get_bucketsize cache) 0) as [E|_];
    [lia|].
  apply ham_size_wrap_small.
  pose proof (land_mask_range blobid (extkey_cache_get_bucketsize cache - 1)
                ltac:(lia)).
  lia.
Qed.

Lemma my_calc_hash_in_range (cache : extkey_cache_t) (blobid : Z) :
  well_formed cache ->
  (Z.to_nat (my_calc_hash cache blobid)
   < length (extkey_cache_buckets cache))%nat.
Proof.
  intros Hwf. rewrite my_calc_hash_mask by assumption.
  destruct Hwf as [[Hpos Hmax] Hlen].
  pose proof (land_mask_range blobid (extkey_cache_get_bucketsize cache - 1)
                ltac:(lia)).
  lia.
Qed.


Lemma chain_find_unlink_other (blobid other : Z) (chain : list extkey_t) :
  other <> blobid ->
  chain_find blobid (chain_unlink other chain) = chain_find blobid chain.
Proof.
  intros Hne. induction chain as [|e rest IH]; simpl; [reflexivity|].
  destruct (Z.eqb_spec (extkey_get_blobid e) other) as [Eo|No].
  - destruct (Z.eqb_spec (extkey_get_blobid e) blobid) as [Eb|Nb];
      [congruence | reflexivity].
  - simpl. rewrite IH. reflexivity.
Qed.

Lemma chain_find_absent (blobid : Z) (chain : list extkey_t) :
  (forall e, In e chain -> extkey_get_blobid e <> blobid) ->
  chain_find blobid chain = None.
Proof.
  induction chain as [|e rest IH]; simpl; intros Hall; [reflexivity|].
  destruct (Z.eqb_spec (extkey_get_blobid e) blobid) as [E|N].
  - exfalso. apply (Hall e); auto.
  - apply IH. intros e' He'. apply Hall. auto.
Qed.

Lemma bucket_entries (cache : extkey_cache_t) (h : Z) (e : extkey_t) :
  In e (extkey_cache_get_bucket cache h) -> In e (entries cache).
Proof.
  unfold extkey_cache_get_bucket, entries.
  destruct (extkey_cache_buckets cache !! Z.to_nat h) as [chain|] eqn:E;
    simpl; [|tauto].
  intros He. apply in_concat. exists chain. split; [|assumption].
  apply list_elem_of_In. eapply list_elem_of_lookup_2. exact E.
Qed.


Lemma my_calc_hash_bucketsize (c1 c2 : extkey_cache_t) (blobid : Z) :
  extkey_cache_get_bucketsize c1 = extkey_cache_get_bucketsize c2 ->
  my_calc_hash c1 blobid = my_calc_hash c2 blobid.
Proof. intros E. unfold my_calc_hash. now rewrite E. Qed.

(** *** What the three operations return *)

Lemma extkey_cache_insert_full (db_cache : ham_cache_t) (mem : bool)
    (cache : extkey_cache_t) (blobid size : Z) (data : list byte) :
  no_capacity db_cache cache size = true ->
  extkey_cache_insert db_cache mem cache blobid size data
  = (HAM_CACHE_FULL, cache).
Proof. intros H. unfold extkey_cache_insert. now rewrite H. Qed.

Lemma extkey_cache_insert_no_memory (db_cache : ham_cache_t)
    (cache : extkey_cache_t) (blobid size : Z) (data : list byte) :
  no_capacity db_cache cache size = false ->
  extkey_cache_insert db_cache false cache blobid size data
  = (HAM_OUT_OF_MEMORY, cache).
Proof. intros H. unfold extkey_cache_insert. now rewrite H. Qed.

Lemma extkey_cache_insert_done (db_cache : ham_cache_t)
    (cache : extkey_cache_t) (blobid size : Z) (data : list byte) :
  no_capacity db_cache cache size = false ->
  extkey_cache_insert db_cache true cache blobid size data
  = (HAM_SUCCESS,
     mk_extkey_cache
       (ham_size_wrap (extkey_cache_get_usedsize cache + size))
       (extkey_cache_get_bucketsize cache)
       (<[Z.to_nat (my_calc_hash cache blobid) :=
            mk_extkey blobid size (memcpy_read data size)
            :: extkey_cache_get_bucket cache (my_calc_hash cache blobid)]>
          (extkey_cache_buckets cache))).
Proof. intros H. unfold extkey_cache_insert. now rewrite H. Qed.

(** The three ways [extkey_cache_insert] ends. *)
Lemma extkey_cache_insert_cases (db_cache : ham_cache_t) (mem : bool)
    (cache : extkey_cache_t) (blobid size : Z) (data : list byte) :
  (no_capacity db_cache cache size = true /\
   extkey_cache_insert db_cache mem cache blobid size data
   = (HAM_CACHE_FULL, cache)) \/
  (no_capacity db_cache cache size = false /\ mem = false /\
   extkey_cache_insert db_cache mem cache blobid size data
   = (HAM_OUT_OF_MEMORY, cache)) \/
  (no_capacity db_cache cache size = false /\ mem = true /\
   fst (extkey_cache_insert db_cache mem cache blobid size data)
   = HAM_SUCCESS).
Proof.
  destruct (no_capacity db_cache cache size) eqn:Hcap.
  - left. split; [reflexivity|]. now apply extkey_cache_insert_full.
  - right. destruct mem.
    + right. repeat split. now rewrite extkey_cache_insert_done.
    + left. repeat split. now apply extkey_cache_insert_no_memory.
Qed.

Lemma run_op_bucketsize (cache : extkey_cache_t) (op : extkey_op) :
  extkey_cache_get_bucketsize (run_op cache op)
  = extkey_cache_get_bucketsize cache.
Proof.
  destruct op as [db_cache mem blobid size data | blobid]; simpl.
  - unfold extkey_cache_insert.
    destruct (no_capacity db_cache cache size); [reflexivity|].
    destruct mem; reflexivity.
  - unfold extkey_cache_remove.
    destruct (chain_find blobid _); reflexivity.
Qed.

Lemma run_op_length (cache : extkey_cache_t) (op : extkey_op) :
  length (extkey_cache_buckets (run_op cache op))
  = length (extkey_cache_buckets cache).
Proof.
  destruct op as [db_cache mem blobid size data | blobid]; simpl.
  - unfold extkey_cache_insert.
    destruct (no_capacity db_cache cache size); [reflexivity|].
    destruct mem; simpl; [|reflexivity]. apply length_insert.
  - unfold extkey_cache_remove.
    destruct (chain_find blobid _); simpl; [|reflexivity].
    apply length_insert.
Qed.

Lemma run_op_well_formed (cache : extkey_cache_t) (op : extkey_op) :
  well_formed cache -> well_formed (run_op cache op).
Proof.
  unfold well_formed. now rewrite run_op_bucketsize, run_op_length.
Qed.

Lemma run_ops_well_formed (ops : list extkey_op) (cache : extkey_cache_t) :
  well_formed cache -> well_formed (run_ops ops cache).
Proof.
  revert cache. induction ops as [|op ops IH]; intros cache Hwf;
    [exact Hwf|].
  cbn [run_ops fold_left]. now apply IH, run_op_well_formed.
Qed.

Lemma fresh_cache_well_formed : well_formed fresh_cache.
Proof.
  split; [|reflexivity].
  unfold fresh_cache, ham_size_max, ham_size_modulus, ham_size_bits,
    EXTKEY_CACHE_BUCKETSIZE.
  simpl. lia.
Qed.

(** An operation on another blob id leaves the entry a search for [blobid]
    stops at in place. *)
Lemma run_op_other_keeps (cache : extkey_cache_t) (op : extkey_op)
    (blobid : Z) :
  well_formed cache ->
  op_blobid op <> blobid ->
  chain_find blobid
    (extkey_cache_get_bucket (run_op cache op)
       (my_calc_hash (run_op cache op) blobid))
  = chain_find blobid
      (extkey_cache_get_bucket cache (my_calc_hash cache blobid)).
Proof.
  intros Hwf Hne.
  rewrite (my_calc_hash_bucketsize (run_op cache op) cache)
    by apply run_op_bucketsize.
  set (h := my_calc_hash cache blobid).
  destruct op as [db_cache mem other size data | other]; simpl in *.
  - destruct (extkey_cache_insert_cases db_cache mem cache other size data)
      as [[_ E] | [[_ [_ E]] | [Hcap [-> _]]]]; try (now rewrite E).
    rewrite extkey_cache_insert_done by assumption. simpl.
    destruct (decide (Z.to_nat (my_calc_hash cache other) = Z.to_nat h))
      as [Eh | Nh].
    + unfold extkey_cache_get_bucket at 1. simpl.
      rewrite Eh, list_lookup_insert_eq
        by (apply my_calc_hash_in_range; assumption).
      simpl. destruct (Z.eqb_spec other blobid) as [|_]; [contradiction|].
      unfold extkey_cache_get_bucket. now rewrite Eh.
    + unfold extkey_cache_get_bucket. simpl.
      now rewrite list_lookup_insert_ne.
  - unfold extkey_cache_remove.
    destruct (chain_find other _) as [e|] eqn:Ef; simpl; [|reflexivity].
    destruct (decide (Z.to_nat (my_calc_hash cache other) = Z.to_nat h))
      as [Eh | Nh].
    + unfold extkey_cache_get_bucket at 1. simpl.
      rewrite Eh, list_lookup_insert_eq
        by (apply my_calc_hash_in_range; assumption).
      simpl. rewrite chain_find_unlink_other by assumption.
      unfold extkey_cache_get_bucket. now rewrite Eh.
    + unfold extkey_cache_get_bucket. simpl.
      now rewrite list_lookup_insert_ne.
Qed.

Lemma run_ops_other_keep (ops : list extkey_op) (cache : extkey_cache_t)
    (blobid : Z) :
  well_formed cache ->
  Forall (fun op => op_blobid op <> blobid) ops ->
  well_formed (run_ops ops cache) /\
  extkey_cache_get_bucketsize (run_ops ops cache)
  = extkey_cache_get_bucketsize cache /\
  chain_find blobid
    (extkey_cache_get_bucket (run_ops ops cache)
       (my_calc_hash (run_ops ops cache) blobid))
  = chain_find blobid
      (extkey_cache_get_bucket cache (my_calc_hash cache blobid)).
Proof.
  revert cache. induction ops as [|op ops IH]; intros cache Hwf Hall.
  - simpl. auto.
  - inversion Hall as [|? ? Hop Hrest]; subst. simpl.
    destruct (IH (run_op cache op) (run_op_well_formed _ _ Hwf) Hrest)
      as [Hwf' [Hbs Hfind]].
    split; [assumption|]. split.
    + rewrite Hbs. apply run_op_bucketsize.
    + rewrite Hfind. now apply run_op_other_keeps.
Qed.

(** *** Stored sizes *)

Lemma buckets_size_insert (buckets : list (list extkey_t)) (i : nat)
    (chain : list extkey_t) :
  (i < length buckets)%nat ->
  buckets_size (<[i := chain]> buckets)
  = buckets_size buckets - chain_size (default [] (buckets !! i))
    + chain_size chain.
Proof.
  revert i. induction buckets as [|c0 rest IH]; intros i Hi; simpl in Hi.
  - lia.
  - destruct i as [|i]; simpl.
    + lia.
    + rewrite IH by lia. lia.
Qed.

Lemma chain_size_cons (e : extkey_t) (chain : list extkey_t) :
  chain_size (e :: chain) = extkey_get_size e + chain_size chain.
Proof. reflexivity. Qed.

Lemma chain_size_unlink (blobid : Z) (chain : list extkey_t) (e : extkey_t) :
  chain_find blobid chain = Some e ->
  chain_size (chain_unlink blobid chain) = chain_size chain - extkey_get_size e.
Proof.
  induction chain as [|e0 rest IH]; simpl; [discriminate|].
  destruct (extkey_get_blobid e0 =? blobid).
  - intros [= <-]. lia.
  - intros Hf. simpl. rewrite IH by assumption. lia.
Qed.

Lemma stored_size_insert_done (db_cache : ham_cache_t)
    (cache : extkey_cache_t) (blobid size : Z) (data : list byte) :
  well_formed cache ->
  no_capacity db_cache cache size = false ->
  let cache' := snd (extkey_cache_insert db_cache true cache blobid size data) in
  stored_size cache' = stored_size cache + size /\
  extkey_cache_get_usedsize cache'
  = ham_size_wrap (extkey_cache_get_usedsize cache + size).
Proof.
  intros Hwf Hcap. rewrite extkey_cache_insert_done by assumption.
  cbn [snd extkey_cache_get_usedsize]. split; [|reflexivity].
  unfold stored_size. cbn [extkey_cache_buckets].
  rewrite buckets_size_insert by (apply my_calc_hash_in_range; assumption).
  unfold extkey_cache_get_bucket. rewrite chain_size_cons.
  cbn [extkey_get_size]. lia.
Qed.

Lemma run_op_usedsize (cache : extkey_cache_t) (op : extkey_op) :
  well_formed cache ->
  extkey_cache_get_usedsize cache = ham_size_wrap (stored_size cache) ->
  extkey_cache_get_usedsize (run_op cache op)
  = ham_size_wrap (stored_size (run_op cache op)).
Proof.
  intros Hwf Hinv.
  destruct op as [db_cache mem blobid size data | blobid]; simpl.
  - destruct (extkey_cache_insert_cases db_cache mem cache blobid size data)
      as [[_ E] | [[_ [_ E]] | [Hcap [-> _]]]]; try (now rewrite E).
    destruct (stored_size_insert_done db_cache cache blobid size data Hwf Hcap)
      as [Hs Hu].
    rewrite Hs, Hu, Hinv. apply ham_size_wrap_add_l.
  - unfold extkey_cache_remove.
    destruct (chain_find blobid _) as [e|] eqn:Ef; [|assumption].
    unfold stored_size at 1.
    cbn [snd extkey_cache_set_usedsize extkey_cache_set_bucket
         extkey_cache_get_usedsize extkey_cache_buckets].
    rewrite buckets_size_insert by (apply my_calc_hash_in_range; assumption).
    fold (extkey_cache_get_bucket cache (my_calc_hash cache blobid)).
    rewrite (chain_size_unlink _ _ _ Ef), Hinv, ham_size_wrap_sub_l.
    unfold stored_size. f_equal. lia.
Qed.

Lemma run_ops_usedsize (ops : list extkey_op) (cache : extkey_cache_t) :
  well_formed cache ->
  extkey_cache_get_usedsize cache = ham_size_wrap (stored_size cache) ->
  extkey_cache_get_usedsize (run_ops ops cache)
  = ham_size_wrap (stored_size (run_ops ops cache)).
Proof.
  revert cache. induction ops as [|op ops IH]; intros cache Hwf Hinv.
  - exact Hinv.
  - simpl. apply IH.
    + now apply run_op_well_formed.
    + now apply run_op_usedsize.
Qed.

(** ** config.h: the default cache size *)

(** C9, as the code has it: the default cache size is 1024 * 256 = 262144
    bytes, which is 256 KiB, or 64 pages of 4 KiB. *)
Theorem default_cachesize_value :
  HAM_DEFAULT_CACHESIZE = 262144 /\
  HAM_DEFAULT_CACHESIZE = 256 * 1024 /\
  HAM_DEFAULT_CACHESIZE = 64 * 4096.
Proof. repeat split. Qed.

(** C9, as stated, fails: the constant is not 256 pages of 4 KiB. *)
Lemma default_cachesize_not_256_pages :
  HAM_DEFAULT_CACHESIZE <> 256 * 4096 /\ HAM_DEFAULT_CACHESIZE <> 1048576.
Proof. split; discriminate. Qed.

(** ** extkeys.c: the capacity test *)

(** C4: the capacity test of [extkey_cache_insert] adds the two used sizes
    and [size] on [ham_size_t], where the sum is reduced modulo 2^32;
    [HAM_CACHE_FULL] is the answer exactly when the reduced sum exceeds the
    cache size.  As long as the three numbers add up to a [ham_size_t]
    value this is the comparison of their sum, and a call whose sum is
    within the cache size is never answered with [HAM_CACHE_FULL].  When
    they add up to more, their sum exceeds every cache size, and yet a call
    whose reduced sum is within the cache size is not answered with
    [HAM_CACHE_FULL]: with memory at hand the key is accepted. *)
Theorem extkey_cache_insert_cache_full :
  forall (db_cache : ham_cache_t) (mem : bool) (cache : extkey_cache_t)
         (blobid size : Z) (data : list byte),
    let pu := cache_get_usedsize db_cache in
    let eu := extkey_cache_get_usedsize cache in
    let cs := cache_get_cachesize db_cache in
    let st := fst (extkey_cache_insert db_cache mem cache blobid size data) in
    (st = HAM_CACHE_FULL <->
     ham_size_wrap (ham_size_wrap (pu + eu) + size) > cs) /\
    (0 <= pu /\ 0 <= eu /\ 0 <= size /\ pu + eu + size <= ham_size_max ->
     (st = HAM_CACHE_FULL <-> pu + eu + size > cs)) /\
    (0 <= pu /\ 0 <= eu /\ 0 <= size /\ cs <= ham_size_max ->
     pu + eu + size <= cs -> st <> HAM_CACHE_FULL) /\
    (0 <= pu /\ 0 <= eu /\ 0 <= size /\ cs <= ham_size_max ->
     pu + eu + size > ham_size_max ->
     pu + eu + size > cs /\
     (ham_size_wrap (pu + eu + size) <= cs ->
      st <> HAM_CACHE_FULL /\ (mem = true -> st = HAM_SUCCESS))).
Proof.
  intros db_cache mem cache blobid size data pu eu cs st.
  assert (Hiff : st = HAM_CACHE_FULL <->
                 ham_size_wrap (ham_size_wrap (pu + eu) + size) > cs).
  { subst st.
    destruct (extkey_cache_insert_cases db_cache mem cache blobid size data)
      as [[Hcap E] | [[Hcap [_ E]] | [Hcap [_ E]]]]; rewrite E;
      unfold no_capacity in Hcap; fold pu eu cs in Hcap; simpl.
    - split; [intros _|reflexivity]. apply Z.gtb_gt. exact Hcap.
    - split; [discriminate|]. intros H. apply Z.gtb_gt in H. congruence.
    - split; [discriminate|]. intros H. apply Z.gtb_gt in H. congruence. }
  assert (Hexact : 0 <= pu /\ 0 <= eu /\ 0 <= size /\
                   pu + eu + size <= ham_size_max ->
                   ham_size_wrap (ham_size_wrap (pu + eu) + size)
                   = pu + eu + size).
  { intros (Hp & He & Hs & Hsum).
    rewrite (ham_size_wrap_small (pu + eu)) by lia.
    apply ham_size_wrap_small. lia. }
  split; [exact Hiff|]. split; [|split].
  - intros Hr. rewrite Hiff, (Hexact Hr). reflexivity.
  - intros (Hp & He & Hs & Hcs) Hsum.
    rewrite Hiff, Hexact by lia. lia.
  - intros (Hp & He & Hs & Hcs) Hover. split; [lia|]. intros Hwrap.
    assert (Hn : st <> HAM_CACHE_FULL)
      by (rewrite Hiff, ham_size_wrap_add_l; lia).
    split; [exact Hn|]. intros Hmem. subst st.
    destruct (extkey_cache_insert_cases db_cache mem cache blobid size data)
      as [[_ E] | [[_ [D _]] | [_ [_ E]]]].
    + rewrite E in Hn. now contradiction Hn.
    + congruence.
    + exact E.
Qed.

Lemma extkey_cache_insert_cache_full_witness :
  fst (extkey_cache_insert (mk_cache 8192 16384) true fresh_cache 5 4096
         (replicate 4096 x00)) <> HAM_CACHE_FULL /\
  fst (extkey_cache_insert (mk_cache 16384 16384) true fresh_cache 5 4096
         (replicate 4096 x00)) = HAM_CACHE_FULL /\
  (4294963200 + 0 + 4096 > 4294963200 /\
   fst (extkey_cache_insert (mk_cache 4294963200 4294963200) true
          fresh_cache 1 4096 (replicate 4096 x00)) = HAM_SUCCESS).
Proof.
  split; [|split].
  - apply (proj1 (proj2 (proj2 (extkey_cache_insert_cache_full
             (mk_cache 8192 16384) true fresh_cache 5 4096
             (replicate 4096 x00))))).
    + vm_compute. repeat split; discriminate.
    + vm_compute. discriminate.
  - apply (proj1 (proj2 (extkey_cache_insert_cache_full
             (mk_cache 16384 16384) true fresh_cache 5 4096
             (replicate 4096 x00)))).
    + vm_compute. repeat split; discriminate.
    + vm_compute. reflexivity.
  - destruct (proj2 (proj2 (proj2 (extkey_cache_insert_cache_full
                (mk_cache 4294963200 4294963200) true fresh_cache 1 4096
                (replicate 4096 x00))))) as [Hsum Haccepted].
    + vm_compute. repeat split; discriminate.
    + vm_compute. reflexivity.
    + split; [exact Hsum|].
      apply Haccepted; [vm_compute; discriminate | reflexivity].
Defined.

(** ** extkeys.c: failed operations change nothing *)

(** C10: removing a blob id that has no entry answers [HAM_KEY_NOT_FOUND]
    and leaves the cache as it was (and so does every removal that answers
    [HAM_KEY_NOT_FOUND]); an insertion that does not succeed answers
    [HAM_CACHE_FULL] or [HAM_OUT_OF_MEMORY] and leaves the cache as it
    was. *)
Theorem extkey_cache_failure_changes_nothing :
  forall (db_cache : ham_cache_t) (mem : bool) (cache : extkey_cache_t)
         (blobid size : Z) (data : list byte),
    ((forall e, In e (entries cache) -> extkey_get_blobid e <> blobid) ->
     extkey_cache_remove cache blobid = (HAM_KEY_NOT_FOUND, cache)) /\
    (fst (extkey_cache_remove cache blobid) = HAM_KEY_NOT_FOUND ->
     snd (extkey_cache_remove cache blobid) = cache) /\
    (fst (extkey_cache_insert db_cache mem cache blobid size data)
     <> HAM_SUCCESS ->
     (fst (extkey_cache_insert db_cache mem cache blobid size data)
      = HAM_CACHE_FULL \/
      fst (extkey_cache_insert db_cache mem cache blobid size data)
      = HAM_OUT_OF_MEMORY) /\
     snd (extkey_cache_insert db_cache mem cache blobid size data) = cache) /\
    (fst (extkey_cache_insert db_cache mem cache blobid size data)
     = HAM_CACHE_FULL <-> no_capacity db_cache cache size = true) /\
    (fst (extkey_cache_insert db_cache mem cache blobid size data)
     = HAM_OUT_OF_MEMORY <->
     no_capacity db_cache cache size = false /\ mem = false).
Proof.
  intros db_cache mem cache blobid size data.
  split; [|split; [|split; [|split]]].
  - intros Habsent. unfold extkey_cache_remove.
    rewrite chain_find_absent; [reflexivity|].
    intros e He. apply Habsent. eapply bucket_entries. exact He.
  - unfold extkey_cache_remove.
    destruct (chain_find blobid _); simpl; [discriminate|reflexivity].
  - destruct (extkey_cache_insert_cases db_cache mem cache blobid size data)
      as [[_ E] | [[_ [_ E]] | [_ [_ E]]]]; rewrite ?E; simpl; auto.
    intros H. contradiction.
  - destruct (extkey_cache_insert_cases db_cache mem cache blobid size data)
      as [[Hcap E] | [[Hcap [_ E]] | [Hcap [_ E]]]]; rewrite E, Hcap; simpl;
      split; (reflexivity || discriminate).
  - destruct (extkey_cache_insert_cases db_cache mem cache blobid size data)
      as [[Hcap E] | [[Hcap [Hm E]] | [Hcap [Hm E]]]]; rewrite E, Hcap, ?Hm;
      simpl; split; try discriminate; try (intros [? ?]; discriminate); auto.
Qed.

Lemma extkey_cache_failure_changes_nothing_witness :
  extkey_cache_remove fresh_cache 9 = (HAM_KEY_NOT_FOUND, fresh_cache) /\
  snd (extkey_cache_insert (mk_cache 4096 4096) true fresh_cache 9 16
         (replicate 16 x00)) = fresh_cache /\
  snd (extkey_cache_insert (mk_cache 0 4096) false fresh_cache 9 16
         (replicate 16 x00)) = fresh_cache.
Proof.
  split; [|split].
  - apply (proj1 (extkey_cache_failure_changes_nothing (mk_cache 0 0) true
             fresh_cache 9 0 [])).
    intros e He. vm_compute in He. contradiction.
  - apply (proj1 (proj2 (proj2 (extkey_cache_failure_changes_nothing
             (mk_cache 4096 4096) true fresh_cache 9 16 (replicate 16 x00))))).
    vm_compute. discriminate.
  - apply (proj1 (proj2 (proj2 (extkey_cache_failure_changes_nothing
             (mk_cache 0 4096) false fresh_cache 9 16 (replicate 16 x00))))).
    vm_compute. discriminate.
Defined.

(** ** extkeys.c: fetching what was inserted *)

Lemma extkey_cache_fetch_absent (cache : extkey_cache_t) (blobid : Z) :
  (forall e, In e (entries cache) -> extkey_get_blobid e <> blobid) ->
  extkey_cache_fetch cache blobid = (HAM_KEY_NOT_FOUND, None).
Proof.
  intros Habsent. unfold extkey_cache_fetch.
  rewrite chain_find_absent; [reflexivity|].
  intros e He. apply Habsent. eapply bucket_entries. exact He.
Qed.

Lemma extkey_cache_fetch_inserted (db_cache : ham_cache_t) (mem : bool)
    (cache cache' : extkey_cache_t) (blobid size : Z) (data : list byte)
    (ops : list extkey_op) :
  well_formed cache ->
  extkey_cache_insert db_cache mem cache blobid size data
  = (HAM_SUCCESS, cache') ->
  Forall (fun op => op_blobid op <> blobid) ops ->
  my_calc_hash (run_ops ops cache') blobid = my_calc_hash cache blobid /\
  extkey_cache_fetch (run_ops ops cache') blobid
  = (HAM_SUCCESS, Some (size, take (Z.to_nat size) data)).
Proof.
  intros Hwf Hins Hops.
  assert (Hcache' : cache' = run_op cache
                               (OpInsert db_cache mem blobid size data))
    by (simpl; now rewrite Hins).
  assert (Hwf' : well_formed cache')
    by (rewrite Hcache'; now apply run_op_well_formed).
  assert (Hbs' : extkey_cache_get_bucketsize cache'
                 = extkey_cache_get_bucketsize cache)
    by (rewrite Hcache'; apply run_op_bucketsize).
  destruct (run_ops_other_keep ops cache' blobid Hwf' Hops)
    as [_ [Hbs Hfind]].
  split; [apply my_calc_hash_bucketsize; congruence|].
  unfold extkey_cache_fetch. rewrite Hfind.
  rewrite (my_calc_hash_bucketsize cache' cache blobid Hbs').
  destruct (extkey_cache_insert_cases db_cache mem cache blobid size data)
    as [[_ E] | [[_ [_ E]] | [Hcap [Hm _]]]];
    try (rewrite E in Hins; discriminate).
  subst mem. rewrite extkey_cache_insert_done in Hins by assumption.
  injection Hins as <-.
  unfold extkey_cache_get_bucket. cbn [extkey_cache_buckets].
  rewrite list_lookup_insert_eq
    by (apply my_calc_hash_in_range; assumption).
  simpl. rewrite Z.eqb_refl. reflexivity.
Qed.

(** While [blobid] has an entry, the assertion keeps it from being inserted
    again: a sequence whose assertions hold and that does not remove
    [blobid] works on other blob ids only. *)
Lemma asserts_hold_other_ids (ops : list extkey_op) (cache : extkey_cache_t)
    (blobid : Z) (e : extkey_t) :
  well_formed cache ->
  chain_find blobid
    (extkey_cache_get_bucket cache (my_calc_hash cache blobid)) = Some e ->
  asserts_hold cache ops ->
  Forall (fun op => op <> OpRemove blobid) ops ->
  Forall (fun op => op_blobid op <> blobid) ops.
Proof.
  revert cache. induction ops as [|op ops IH]; intros cache Hwf He Ha Hr.
  - constructor.
  - destruct Ha as [Hop Ha]. inversion Hr as [|? ? Hne Hr']; subst.
    assert (Hid : op_blobid op <> blobid).
    { destruct op as [db_cache mem b size data | b]; simpl.
      - intros ->. unfold blobid_is_new in Hop. rewrite He in Hop.
        discriminate.
      - intros ->. now apply Hne. }
    constructor; [exact Hid|].
    apply (IH (run_op cache op)); try assumption.
    + now apply run_op_well_formed.
    + rewrite run_op_other_keeps by assumption. exact He.
Qed.

(** C5: after [extkey_cache_insert] has succeeded for [blobid], and after
    any further insertions (each meeting the assertion that its blob id is
    new) and removals of other blob ids, a fetch of [blobid] succeeds with
    the inserted size and the [size] bytes that were copied (the whole byte
    string when it has [size] bytes): insertion and fetch search the same
    chain, number [blobid & (bucketsize - 1)].  A fetch of a blob id
    [absent] that no entry of a cache [other] carries answers
    [HAM_KEY_NOT_FOUND]. *)
Theorem extkey_cache_fetch_after_insert :
  forall (db_cache : ham_cache_t) (mem : bool) (cache cache' : extkey_cache_t)
         (blobid size : Z) (data : list byte) (ops : list extkey_op)
         (other : extkey_cache_t) (absent : Z),
    well_formed cache ->
    extkey_cache_insert db_cache mem cache blobid size data
    = (HAM_SUCCESS, cache') ->
    asserts_hold cache' ops ->
    Forall (fun op => op <> OpRemove blobid) ops ->
    my_calc_hash cache blobid
    = Z.land blobid (extkey_cache_get_bucketsize cache - 1) /\
    my_calc_hash (run_ops ops cache') blobid = my_calc_hash cache blobid /\
    extkey_cache_fetch (run_ops ops cache') blobid
    = (HAM_SUCCESS, Some (size, take (Z.to_nat size) data)) /\
    (Z.of_nat (length data) = size ->
     extkey_cache_fetch (run_ops ops cache') blobid
     = (HAM_SUCCESS, Some (size, data))) /\
    ((forall e, In e (entries other) -> extkey_get_blobid e <> absent) ->
     extkey_cache_fetch other absent = (HAM_KEY_NOT_FOUND, None)).
Proof.
  intros db_cache mem cache cache' blobid size data ops other absent
         Hwf Hins Hasserts Hremove.
  assert (Hops : Forall (fun op => op_blobid op <> blobid) ops).
  { destruct (extkey_cache_fetch_inserted db_cache mem cache cache' blobid
                size data [] Hwf Hins ltac:(constructor)) as [_ Hnow].
    unfold extkey_cache_fetch in Hnow. simpl in Hnow.
    destruct (chain_find blobid
                (extkey_cache_get_bucket cache' (my_calc_hash cache' blobid)))
      as [e|] eqn:He; [|discriminate Hnow].
    apply (asserts_hold_other_ids ops cache' blobid e); try assumption.
    replace cache' with (run_op cache (OpInsert db_cache mem blobid size data))
      by (simpl; now rewrite Hins).
    now apply run_op_well_formed. }
  destruct (extkey_cache_fetch_inserted db_cache mem cache cache' blobid size
              data ops Hwf Hins Hops) as [Hhash Hfetch].
  split; [now apply my_calc_hash_mask|].
  split; [exact Hhash|]. split; [exact Hfetch|]. split.
  - intros Hlen. rewrite Hfetch. do 3 f_equal.
    apply firstn_all2. lia.
  - apply extkey_cache_fetch_absent.
Qed.

Lemma extkey_cache_fetch_after_insert_witness :
  let db_cache := mk_cache 4096 1048576 in
  let data := [x68; x61; x6d; x73; x74; x65; x72] in
  let cache' := snd (extkey_cache_insert db_cache true fresh_cache 4099 7 data) in
  let ops := [OpInsert db_cache true 3 2 [x61; x62]; OpRemove 131;
              OpInsert db_cache true 131 1 [x7a]; OpRemove 3] in
  extkey_cache_fetch (run_ops ops cache') 4099
  = (HAM_SUCCESS, Some (7, data)) /\
  extkey_cache_fetch (run_ops ops cache') 3 = (HAM_KEY_NOT_FOUND, None).
Proof.
  intros db_cache data cache' ops.
  pose proof (extkey_cache_fetch_after_insert db_cache true fresh_cache cache'
                4099 7 data ops (run_ops ops cache') 3
                fresh_cache_well_formed eq_refl) as H.
  assert (Hasserts : asserts_hold cache' ops)
    by (vm_compute; repeat split).
  assert (Hremove : Forall (fun op => op <> OpRemove 4099) ops)
    by (repeat constructor; discriminate).
  destruct (H Hasserts Hremove) as (_ & _ & _ & Hdata & Habsent).
  split.
  - apply Hdata. reflexivity.
  - apply Habsent. intros e He. vm_compute in He.
    destruct He as [<- | [<- | []]]; discriminate.
Defined.

(** ** extkeys.c: the used size *)

(** C6: after any sequence of insertions and removals on a fresh cache, the
    used size is the sum of the stored entries' sizes reduced modulo 2^32,
    the width of [ham_size_t]; the two are equal as long as the sum is a
    [ham_size_t] value.  One more insertion that takes the sum beyond that,
    and so beyond every cache size, is still accepted whenever the reduced
    sum of the capacity test is within the cache size; the entry is stored
    and the used size is then less than the sum of the stored sizes. *)
Theorem extkey_cache_usedsize_is_stored_size :
  forall ops : list extkey_op,
    let cache := run_ops ops fresh_cache in
    extkey_cache_get_usedsize cache = ham_size_wrap (stored_size cache) /\
    (0 <= stored_size cache <= ham_size_max ->
     extkey_cache_get_usedsize cache = stored_size cache) /\
    (forall (db_cache : ham_cache_t) (blobid size : Z) (data : list byte),
        let pu := cache_get_usedsize db_cache in
        let cs := cache_get_cachesize db_cache in
        let cache' := run_op cache (OpInsert db_cache true blobid size data) in
        0 <= stored_size cache <= ham_size_max ->
        0 <= pu /\ 0 <= size /\ cs <= ham_size_max ->
        stored_size cache + size > ham_size_max ->
        ham_size_wrap (pu + stored_size cache + size) <= cs ->
        pu + stored_size cache + size > cs /\
        fst (extkey_cache_insert db_cache true cache blobid size data)
        = HAM_SUCCESS /\
        stored_size cache' = stored_size cache + size /\
        extkey_cache_get_usedsize cache'
        = ham_size_wrap (stored_size cache + size) /\
        extkey_cache_get_usedsize cache' < stored_size cache').
Proof.
  intros ops cache.
  assert (H : extkey_cache_get_usedsize cache
              = ham_size_wrap (stored_size cache)).
  { apply run_ops_usedsize; [apply fresh_cache_well_formed|reflexivity]. }
  assert (Hsmall : 0 <= stored_size cache <= ham_size_max ->
                   extkey_cache_get_usedsize cache = stored_size cache).
  { intros Hr. rewrite H. now apply ham_size_wrap_small. }
  split; [exact H|]. split; [exact Hsmall|].
  intros db_cache blobid size data pu cs cache' Hr (Hpu & Hsize & Hcs)
    Hover Hwrap.
  assert (Hwf : well_formed cache)
    by apply run_ops_well_formed, fresh_cache_well_formed.
  assert (Hcap : no_capacity db_cache cache size = false).
  { unfold no_capacity. fold pu cs.
    rewrite (Hsmall Hr), ham_size_wrap_add_l, Z.gtb_ltb.
    apply Z.ltb_ge. exact Hwrap. }
  destruct (stored_size_insert_done db_cache cache blobid size data Hwf Hcap)
    as [Hstored Hused].
  fold (run_op cache (OpInsert db_cache true blobid size data))
    in Hstored, Hused.
  fold cache' in Hstored, Hused.
  rewrite (Hsmall Hr) in Hused.
  split; [lia|]. split.
  { now rewrite extkey_cache_insert_done. }
  split; [exact Hstored|]. split; [exact Hused|].
  rewrite Hused, Hstored.
  pose proof (Z.mod_pos_bound (stored_size cache + size) ham_size_modulus
                eq_refl) as Hbound.
  unfold ham_size_wrap. unfold ham_size_max in Hover. lia.
Qed.

Lemma extkey_cache_usedsize_is_stored_size_witness :
  (let db_cache := mk_cache 4096 1048576 in
   let cache :=
     run_ops [OpInsert db_cache true 3 2 [x61; x62];
              OpInsert db_cache true 131 1 [x7a];
              OpRemove 3;
              OpInsert db_cache true 7 3 [x61; x62; x63]] fresh_cache in
   extkey_cache_get_usedsize cache = stored_size cache /\
   stored_size cache = 4) /\
  (let db_cache := mk_cache 0 4294967295 in
   let key := replicate (Z.to_nat 2147483648) x00 in
   let first := OpInsert db_cache true 1 2147483648 key in
   let second := OpInsert db_cache true 2 2147483648 key in
   fst (extkey_cache_insert db_cache true (run_ops [first] fresh_cache)
          2 2147483648 key) = HAM_SUCCESS /\
   stored_size (run_ops [first; second] fresh_cache) = 4294967296 /\
   extkey_cache_get_usedsize (run_ops [first; second] fresh_cache) = 0).
Proof.
  split.
  - intros db_cache cache. split; [|reflexivity].
    apply (proj1 (proj2 (extkey_cache_usedsize_is_stored_size
                    [OpInsert db_cache true 3 2 [x61; x62];
                     OpInsert db_cache true 131 1 [x7a];
                     OpRemove 3;
                     OpInsert db_cache true 7 3 [x61; x62; x63]]))).
    vm_compute. split; discriminate.
  - intros db_cache key first second.
    assert (Hfirst : stored_size (run_ops [first] fresh_cache) = 2147483648)
      by (apply (stored_size_insert_done db_cache fresh_cache 1 2147483648
                   key fresh_cache_well_formed eq_refl)).
    destruct (proj2 (proj2 (extkey_cache_usedsize_is_stored_size [first]))
                db_cache 2 2147483648 key)
      as (_ & Haccepted & Hstored & Hused & _).
    + rewrite Hfirst. vm_compute. split; discriminate.
    + vm_compute. repeat split; discriminate.
    + rewrite Hfirst. reflexivity.
    + rewrite Hfirst. vm_compute. discriminate.
    + fold second in Hstored, Hused. rewrite Hfirst in Hstored, Hused.
      change (run_ops [first; second] fresh_cache)
        with (run_op (run_ops [first] fresh_cache) second).
      split; [exact Haccepted|]. split; [exact Hstored | exact Hused].
Defined.

(** ** db.c: the default comparison *)

Lemma byte_value_inj (a b : byte) : byte_value a = byte_value b -> a = b.
Proof.
  unfold byte_value. intros H. apply N2Z.inj in H.
  pose proof (Byte.of_to_N a) as Ha. pose proof (Byte.of_to_N b) as Hb.
  rewrite H in Ha. congruence.
Qed.

Lemma memcmp_common_prefix (p l r : list byte) (n : nat) :
  (n <= length p)%nat -> memcmp (p ++ l) (p ++ r) n = 0.
Proof.
  revert n. induction p as [|x p IH]; intros n Hn; simpl in Hn.
  - replace n with 0%nat by lia. reflexivity.
  - destruct n as [|n]; [reflexivity|]. simpl.
    rewrite Z.eqb_refl. apply IH. lia.
Qed.

Lemma memcmp_prefix_l (l t : list byte) (n : nat) :
  (n <= length l)%nat -> memcmp l (l ++ t) n = 0.
Proof.
  intros Hn. pose proof (memcmp_common_prefix l [] t n Hn) as H.
  now rewrite app_nil_r in H.
Qed.

Lemma memcmp_prefix_r (r t : list byte) (n : nat) :
  (n <= length r)%nat -> memcmp (r ++ t) r n = 0.
Proof.
  intros Hn. pose proof (memcmp_common_prefix r t [] n Hn) as H.
  now rewrite app_nil_r in H.
Qed.

Lemma memcmp_self (l : list byte) (n : nat) :
  (n <= length l)%nat -> memcmp l l n = 0.
Proof.
  intros Hn. pose proof (memcmp_prefix_l l [] n Hn) as H.
  now rewrite app_nil_r in H.
Qed.

Lemma memcmp_first_difference (p l r : list byte) (a b : byte) (n : nat) :
  a <> b -> (length p < n)%nat ->
  memcmp (p ++ a :: l) (p ++ b :: r) n = byte_value a - byte_value b.
Proof.
  intros Hab. revert n. induction p as [|x p IH]; intros n Hn; simpl in Hn.
  - destruct n as [|n]; [lia|]. simpl.
    destruct (Z.eqb_spec (byte_value a) (byte_value b)) as [E|_];
      [|reflexivity].
    exfalso. apply Hab. now apply byte_value_inj.
  - destruct n as [|n]; [lia|]. simpl.
    rewrite Z.eqb_refl. apply IH. lia.
Qed.

(** Two byte strings are equal, or one is a proper prefix of the other, or
    they have a first position at which they differ. *)
Lemma byte_strings_compare (l r : list byte) :
  l = r \/
  (exists t, t <> [] /\ r = l ++ t) \/
  (exists t, t <> [] /\ l = r ++ t) \/
  (exists p a b l' r', a <> b /\ l = p ++ a :: l' /\ r = p ++ b :: r').
Proof.
  revert r. induction l as [|x l IH]; intros r.
  - destruct r as [|y r]; [now left|].
    right; left. exists (y :: r). split; [discriminate|reflexivity].
  - destruct r as [|y r].
    + right; right; left. exists (x :: l). split; [discriminate|reflexivity].
    + destruct (Z.eq_dec (byte_value x) (byte_value y)) as [E|Hxy];
        [apply byte_value_inj in E; subst y
        |assert (x <> y) by (intros ->; now apply Hxy)].
      * destruct (IH r) as [-> | [(t & Ht & ->) | [(t & Ht & ->) |
          (p & a & b & l' & r' & Hab & -> & ->)]]].
        -- now left.
        -- right; left. exists t. auto.
        -- right; right; left. exists t. auto.
        -- right; right; right. exists (x :: p), a, b, l', r'. auto.
      * right; right; right. exists [], x, y, l, r. auto.
Qed.

Lemma db_default_compare_equal (l : list byte) :
  db_default_compare l (Z.of_nat (length l)) l (Z.of_nat (length l)) = 0.
Proof.
  unfold db_default_compare. rewrite Z.ltb_irrefl, Nat2Z.id.
  rewrite memcmp_self by lia. reflexivity.
Qed.

Lemma db_default_compare_shorter_lhs (l t : list byte) :
  t <> [] ->
  db_default_compare l (Z.of_nat (length l))
                     (l ++ t) (Z.of_nat (length (l ++ t))) = -1.
Proof.
  intros Ht. unfold db_default_compare.
  assert (Hlen : (length l < length (l ++ t))%nat).
  { rewrite length_app. destruct t; [contradiction|simpl; lia]. }
  destruct (Z.ltb_spec (Z.of_nat (length l)) (Z.of_nat (length (l ++ t))));
    [|lia].
  rewrite Nat2Z.id, memcmp_prefix_l by lia. reflexivity.
Qed.

Lemma db_default_compare_shorter_rhs (r t : list byte) :
  t <> [] ->
  db_default_compare (r ++ t) (Z.of_nat (length (r ++ t)))
                     r (Z.of_nat (length r)) = 1.
Proof.
  intros Ht. unfold db_default_compare.
  assert (Hlen : (length r < length (r ++ t))%nat).
  { rewrite length_app. destruct t; [contradiction|simpl; lia]. }
  destruct (Z.ltb_spec (Z.of_nat (length (r ++ t))) (Z.of_nat (length r)));
    [lia|].
  destruct (Z.ltb_spec (Z.of_nat (length r)) (Z.of_nat (length (r ++ t))));
    [|lia].
  rewrite Nat2Z.id, memcmp_prefix_r by lia. reflexivity.
Qed.

Lemma db_default_compare_difference (p l' r' : list byte) (a b : byte) :
  a <> b ->
  db_default_compare (p ++ a :: l') (Z.of_nat (length (p ++ a :: l')))
                     (p ++ b :: r') (Z.of_nat (length (p ++ b :: r')))
  = Z.sgn (byte_value a - byte_value b).
Proof.
  intros Hab. unfold db_default_compare.
  assert (Hl : (length p < length (p ++ a :: l'))%nat)
    by (rewrite length_app; simpl; lia).
  assert (Hr : (length p < length (p ++ b :: r'))%nat)
    by (rewrite length_app; simpl; lia).
  assert (Hne : byte_value a - byte_value b <> 0).
  { intros E. apply Hab, byte_value_inj. lia. }
  rewrite !Nat2Z.id.
  rewrite !memcmp_first_difference by assumption.
  destruct (Z.ltb_spec (byte_value a - byte_value b) 0);
    destruct (Z.gtb_spec (byte_value a - byte_value b) 0);
    destruct (_ <? _); try destruct (_ <? _); lia.
Qed.

(** C7: on two byte strings, each passed with its length, the default
    comparison answers -1, 0 or +1; it answers 0 exactly when the strings
    are equal; a proper prefix compares as lesser than the longer string;
    and strings that differ at some first position compare as the bytes at
    that position do, taken as unsigned numbers. *)
Theorem db_default_compare_lexicographic :
  forall lhs rhs : list byte,
    let cmp := db_default_compare lhs (Z.of_nat (length lhs))
                                  rhs (Z.of_nat (length rhs)) in
    (cmp = -1 \/ cmp = 0 \/ cmp = 1) /\
    (cmp = 0 <-> lhs = rhs) /\
    (forall t, t <> [] -> rhs = lhs ++ t -> cmp = -1) /\
    (forall t, t <> [] -> lhs = rhs ++ t -> cmp = 1) /\
    (forall p a b l' r',
        a <> b -> lhs = p ++ a :: l' -> rhs = p ++ b :: r' ->
        cmp = Z.sgn (byte_value a - byte_value b) /\
        (byte_value a < byte_value b -> cmp = -1) /\
        (byte_value b < byte_value a -> cmp = 1)).
Proof.
  intros lhs rhs cmp.
  assert (Hdiff : forall p a b l' r',
             a <> b -> lhs = p ++ a :: l' -> rhs = p ++ b :: r' ->
             cmp = Z.sgn (byte_value a - byte_value b) /\
             byte_value a - byte_value b <> 0).
  { intros p a b l' r' Hab -> ->. split.
    - now apply db_default_compare_difference.
    - intros E. apply Hab, byte_value_inj. lia. }
  assert (Hpre_l : forall t, t <> [] -> rhs = lhs ++ t -> cmp = -1).
  { intros t Ht ->. now apply db_default_compare_shorter_lhs. }
  assert (Hpre_r : forall t, t <> [] -> lhs = rhs ++ t -> cmp = 1).
  { intros t Ht ->. now apply db_default_compare_shorter_rhs. }
  assert (Heq : lhs = rhs -> cmp = 0).
  { intros ->. apply db_default_compare_equal. }
  split; [|split; [|split; [|split]]].
  - destruct (byte_strings_compare lhs rhs) as
      [E | [(t & Ht & E) | [(t & Ht & E) | (p & a & b & l' & r' & Hab & El & Er)]]].
    + right; left. auto.
    + left. eauto.
    + right; right. eauto.
    + destruct (Hdiff p a b l' r' Hab El Er) as [-> Hne]. lia.
  - split; [|exact Heq].
    intros Hz.
    destruct (byte_strings_compare lhs rhs) as
      [E | [(t & Ht & E) | [(t & Ht & E) | (p & a & b & l' & r' & Hab & El & Er)]]].
    + exact E.
    + rewrite (Hpre_l t Ht E) in Hz. discriminate.
    + rewrite (Hpre_r t Ht E) in Hz. discriminate.
    + destruct (Hdiff p a b l' r' Hab El Er) as [E Hne]. lia.
  - exact Hpre_l.
  - exact Hpre_r.
  - intros p a b l' r' Hab El Er.
    destruct (Hdiff p a b l' r' Hab El Er) as [E Hne].
    split; [exact E|]. split; intros; lia.
Qed.

Lemma db_default_compare_lexicographic_witness :
  db_default_compare [x61; x62] 2 [x61; x62; x63] 3 = -1 /\
  db_default_compare [x61; xff] 2 [x61; x62; x63] 3 = 1 /\
  (db_default_compare [x61; x62] 2 [x61; x62] 2 = 0 <->
   [x61; x62] = [x61; x62]).
Proof.
  split; [|split].
  - apply (proj1 (proj2 (proj2 (db_default_compare_lexicographic
             [x61; x62] [x61; x62; x63]))) [x63]);
      [discriminate|reflexivity].
  - apply (proj2 (proj2 (proj2 (proj2 (db_default_compare_lexicographic
             [x61; xff] [x61; x62; x63]))))
             [x61] xff x62 [] [x63]);
      [discriminate|reflexivity|reflexivity|vm_compute; reflexivity].
  - apply (proj1 (proj2 (db_default_compare_lexicographic
             [x61; x62] [x61; x62]))).
Defined.

(** ** db.c: replacing a page of a full cache *)

Lemma status_is_error_false (st : ham_status_t) :
  status_is_error st = false -> st = HAM_SUCCESS.
Proof. destruct st; (reflexivity || discriminate). Qed.

(** Runs a function whose result is stated in [H] through its cases: the
    next answer of the file system and of the heap, and the tests on a
    status. *)
Ltac run_cases H :=
  cbn in H;
  repeat (match type of H with
          | context [match ?l with [] => _ | _ :: _ => _ end] =>
              is_var l; destruct l
          | context [match ?o with Some _ => _ | None => _ end] =>
              is_var o; destruct o
          | context [option_map _ ?o] => is_var o; destruct o
          | context [status_is_error ?st] =>
              is_var st;
              let E := fresh "Est" in
              destruct (status_is_error st) eqn:E;
              [|apply status_is_error_false in E; subst st]
          | context [flag_set ?a ?b] =>
              let E := fresh "Eflag" in
              destruct (flag_set a b) eqn:E
          | context [page_is_dirty ?p] =>
              is_var p;
              let E := fresh "Edirty" in
              destruct (page_is_dirty p) eqn:E
          end; cbn in H).

Section PageProperties.

Context {X : externals}.

Lemma new_events_app (s s' : state) (evs : list event) :
  st_trace s' = st_trace s ++ evs -> new_events s s' = evs.
Proof. intros H. unfold new_events. rewrite H. apply drop_app_length. Qed.

(** With a cache that cannot take another page, [my_alloc_page] fails
    with [HAM_CACHE_FULL] and does nothing else when the cache offers no
    victim.  When it offers one: a dirty victim of a database that is not
    in-memory is first written to the file, at its offset; any release of a
    buffer is the release of the victim's buffer by its mode ([ham_mem_free]
    for a heap buffer, [os_munmap] otherwise) and follows the successful
    write; and a page that is returned has had its buffer released and is
    the zeroed structure with the owner set (in read/write mode with its new
    heap buffer). *)
Lemma my_alloc_page_victim_releases :
  forall s : state,
    let db := st_db s in
    let res := my_alloc_page s in
    let evs := new_events s (snd res) in
    cache_can_add_page (db_get_cache db) = false ->
    match cache_get_unused (db_get_cache db) with
    | None =>
        fst res = None /\
        db_get_error (st_db (snd res)) = HAM_CACHE_FULL /\
        evs = []
    | Some victim =>
        let must_write :=
          page_is_dirty victim
          && negb (flag_set (db_get_flags db) HAM_IN_MEMORY_DB) in
        let heap_backed :=
          flag_set (page_get_npers_flags victim) PAGE_NPERS_MALLOC in
        (must_write = true ->
         exists st,
           evs !! 0%nat
           = Some (EvPwrite (db_get_fd db) (page_get_self victim)
                     (page_get_pers victim) (db_get_pagesize db) st)) /\
        (must_write = false ->
         forall ev, In ev evs -> is_pwrite ev = false) /\
        (forall (i : nat) (ev : event),
            evs !! i = Some ev -> is_release ev = true ->
            (if heap_backed
             then ev = EvFree (page_get_pers victim)
             else exists st,
                 ev = EvMunmap (page_get_pers victim) (db_get_pagesize db) st)
            /\
            (if must_write
             then i = 1%nat /\
                  evs !! 0%nat
                  = Some (EvPwrite (db_get_fd db) (page_get_self victim)
                            (page_get_pers victim) (db_get_pagesize db)
                            HAM_SUCCESS)
             else i = 0%nat)) /\
        (forall page : ham_page_t,
            fst res = Some page ->
            (exists (i : nat) (ev : event),
                evs !! i = Some ev /\ is_release ev = true) /\
            reinitialized db page /\
            (if flag_set (db_get_flags db) DB_USE_MMAP
             then page_get_pers page = None /\ page_get_npers_flags page = 0
             else exists block,
                 page_get_pers page = Some block /\
                 length block = Z.to_nat (db_get_pagesize db) /\
                 page_get_npers_flags page = Z.lor 0 PAGE_NPERS_MALLOC))
    end.
Proof.
  intros [db mem os blobs trace] db0 res evs Hfull.
  assert (Hres : res = my_alloc_page (mk_state db mem os blobs trace))
    by reflexivity.
  clearbody res. subst db0. cbn [st_db] in *.
  unfold my_alloc_page, my_write_page, os_pwrite, os_munmap, ham_mem_free,
    ham_mem_alloc, db_set_error, next_os, next_mem, emit, put_db, get_db,
    bind, ret in Hres.
  cbn [st_db st_mem st_os st_trace st_blob_read] in Hres.
  rewrite Hfull in Hres.
  destruct (cache_get_unused (db_get_cache db)) as [victim|].
  2:{ subst res evs. cbn. repeat split. unfold new_events. cbn.
      apply drop_all. }
  cbv zeta. run_cases Hres.
  all: subst res evs; cbn [fst snd].
  all: match goal with
       | |- context [new_events ?s ?s'] =>
           erewrite (new_events_app s s');
             [|cbn [st_trace]; rewrite <- ?app_assoc; reflexivity]
       end.
  all: cbn [app andb negb].
  all: split; [|split; [|split]].
  all: try (intros Hw; discriminate Hw).
  all: try (intros _; eexists; reflexivity).
  all: try (intros _ ev Hin; cbn in Hin;
            repeat (destruct Hin as [<- | Hin]; [reflexivity|]);
            contradiction).
  all: try (intros i ev Hi Hrel;
            destruct i as [|[|[|i]]]; cbn in Hi; simplify_eq;
            try discriminate Hrel; split; eauto; fail).
  all: intros page Hp; simplify_eq.
  all: split; [first [ exists 0%nat; eexists; split; reflexivity
                     | exists 1%nat; eexists; split; reflexivity ]|].
  all: split; [repeat split|].
  all: try (split; reflexivity).
  all: eexists; split; [reflexivity|]; split; [|reflexivity].
  all: now rewrite length_map, length_seq.
Qed.

(** The run of [my_alloc_page] on a victim, step by step: the write, when
    one is due; the release of the victim's buffer; the victim's structure
    zeroed and given its owner; and, unless the file is memory-mapped, a new
    heap buffer for it.  A failing write ends the run with [HAM_IO_ERROR], a
    failing [os_munmap] with its status, a failing allocation with
    [HAM_OUT_OF_MEMORY]; the result is null then. *)
Lemma my_alloc_page_victim_run :
  forall (s : state) (victim : ham_page_t),
    let db := st_db s in
    let res := my_alloc_page s in
    let evs := new_events s (snd res) in
    cache_can_add_page (db_get_cache db) = false ->
    cache_get_unused (db_get_cache db) = Some victim ->
    let must_write :=
      page_is_dirty victim
      && negb (flag_set (db_get_flags db) HAM_IN_MEMORY_DB) in
    let heap_backed :=
      flag_set (page_get_npers_flags victim) PAGE_NPERS_MALLOC in
    let write_st := hd HAM_SUCCESS (st_os s) in
    let written :=
      if must_write
      then [EvPwrite (db_get_fd db) (page_get_self victim)
              (page_get_pers victim) (db_get_pagesize db) write_st]
      else [] in
    let unmap_st :=
      hd HAM_SUCCESS (if must_write then tl (st_os s) else st_os s) in
    let release :=
      if heap_backed then EvFree (page_get_pers victim)
      else EvMunmap (page_get_pers victim) (db_get_pagesize db) unmap_st in
    let fresh := page_set_owner zero_page (db_handle db) in
    let block :=
      option_map (fun f => map f (seq 0 (Z.to_nat (db_get_pagesize db))))
        (hd (Some (fun _ => x00)) (st_mem s)) in
    if must_write && status_is_error write_st then
      fst res = None /\
      db_get_error (st_db (snd res)) = HAM_IO_ERROR /\
      evs = written
    else if negb heap_backed && status_is_error unmap_st then
      fst res = None /\
      db_get_error (st_db (snd res)) = unmap_st /\
      evs = written ++ [release]
    else if flag_set (db_get_flags db) DB_USE_MMAP then
      fst res = Some fresh /\
      db_get_error (st_db (snd res)) = db_get_error db /\
      evs = written ++ [release]
    else
      evs = written ++ [release; EvMalloc (db_get_pagesize db) block] /\
      match block with
      | Some _ =>
          fst res
          = Some (page_set_npers_flags (page_set_pers fresh block)
                    (Z.lor 0 PAGE_NPERS_MALLOC)) /\
          db_get_error (st_db (snd res)) = db_get_error db
      | None =>
          fst res = None /\
          db_get_error (st_db (snd res)) = HAM_OUT_OF_MEMORY
      end.
Proof.
  intros [db mem os blobs trace] victim db0 res evs Hfull Hvictim.
  assert (Hres : res = my_alloc_page (mk_state db mem os blobs trace))
    by reflexivity.
  clearbody res. subst db0. cbn [st_db st_mem st_os] in *.
  unfold my_alloc_page, my_write_page, os_pwrite, os_munmap, ham_mem_free,
    ham_mem_alloc, db_set_error, next_os, next_mem, emit, put_db, get_db,
    bind, ret in Hres.
  cbn [st_db st_mem st_os st_trace st_blob_read] in Hres.
  rewrite Hfull, Hvictim in Hres.
  cbv zeta. run_cases Hres.
  all: subst res evs; cbn [fst snd].
  all: match goal with
       | |- context [new_events ?s ?s'] =>
           erewrite (new_events_app s s');
             [|cbn [st_trace]; rewrite <- ?app_assoc; reflexivity]
       end.
  all: cbn.
  all: rewrite ?Est, ?Est0.
  all: cbn.
  all: repeat split.
Qed.

(** C3: with a cache that cannot take another page, [my_alloc_page] fails
    with [HAM_CACHE_FULL] and does nothing else when the cache offers no
    victim.  When it offers one: a dirty victim of a database that is not
    in-memory is first written to the file, at its offset; any release of a
    buffer is the release of the victim's buffer by its mode ([ham_mem_free]
    for a heap buffer, [os_munmap] otherwise) and follows the successful
    write; and a page that is returned has had its buffer released and is
    the zeroed structure with the owner set (in read/write mode with its new
    heap buffer).  The run itself is: the write when one is due, ending the
    run with [HAM_IO_ERROR] and a null result when it fails; then the
    release of the victim's buffer, ending the run with the status of a
    failing [os_munmap]; then the victim's structure, zeroed and with the
    owner set, is the result when the file is memory-mapped; otherwise one
    buffer of one page size is allocated for it, and the result is the
    structure with that buffer and the heap flag, or null with
    [HAM_OUT_OF_MEMORY] when the allocation fails.  There are no other
    events. *)
Theorem my_alloc_page_replaces_victim :
  forall s : state,
    let db := st_db s in
    let res := my_alloc_page s in
    let evs := new_events s (snd res) in
    cache_can_add_page (db_get_cache db) = false ->
    match cache_get_unused (db_get_cache db) with
    | None =>
        fst res = None /\
        db_get_error (st_db (snd res)) = HAM_CACHE_FULL /\
        evs = []
    | Some victim =>
        let must_write :=
          page_is_dirty victim
          && negb (flag_set (db_get_flags db) HAM_IN_MEMORY_DB) in
        let heap_backed :=
          flag_set (page_get_npers_flags victim) PAGE_NPERS_MALLOC in
        (must_write = true ->
         exists st,
           evs !! 0%nat
           = Some (EvPwrite (db_get_fd db) (page_get_self victim)
                     (page_get_pers victim) (db_get_pagesize db) st)) /\
        (must_write = false ->
         forall ev, In ev evs -> is_pwrite ev = false) /\
        (forall (i : nat) (ev : event),
            evs !! i = Some ev -> is_release ev = true ->
            (if heap_backed
             then ev = EvFree (page_get_pers victim)
             else exists st,
                 ev = EvMunmap (page_get_pers victim) (db_get_pagesize db) st)
            /\
            (if must_write
             then i = 1%nat /\
                  evs !! 0%nat
                  = Some (EvPwrite (db_get_fd db) (page_get_self victim)
                            (page_get_pers victim) (db_get_pagesize db)
                            HAM_SUCCESS)
             else i = 0%nat)) /\
        (forall page : ham_page_t,
            fst res = Some page ->
            (exists (i : nat) (ev : event),
                evs !! i = Some ev /\ is_release ev = true) /\
            reinitialized db page /\
            (if flag_set (db_get_flags db) DB_USE_MMAP
             then page_get_pers page = None /\ page_get_npers_flags page = 0
             else exists block,
                 page_get_pers page = Some block /\
                 length block = Z.to_nat (db_get_pagesize db) /\
                 page_get_npers_flags page = Z.lor 0 PAGE_NPERS_MALLOC)) /\
        (let write_st := hd HAM_SUCCESS (st_os s) in
         let written :=
           if must_write
           then [EvPwrite (db_get_fd db) (page_get_self victim)
                   (page_get_pers victim) (db_get_pagesize db) write_st]
           else [] in
         let unmap_st :=
           hd HAM_SUCCESS (if must_write then tl (st_os s) else st_os s) in
         let release :=
           if heap_backed then EvFree (page_get_pers victim)
           else EvMunmap (page_get_pers victim) (db_get_pagesize db)
                  unmap_st in
         let fresh := page_set_owner zero_page (db_handle db) in
         let block :=
           option_map
             (fun f => map f (seq 0 (Z.to_nat (db_get_pagesize db))))
             (hd (Some (fun _ => x00)) (st_mem s)) in
         if must_write && status_is_error write_st then
           fst res = None /\
           db_get_error (st_db (snd res)) = HAM_IO_ERROR /\
           evs = written
         else if negb heap_backed && status_is_error unmap_st then
           fst res = None /\
           db_get_error (st_db (snd res)) = unmap_st /\
           evs = written ++ [release]
         else if flag_set (db_get_flags db) DB_USE_MMAP then
           fst res = Some fresh /\
           db_get_error (st_db (snd res)) = db_get_error db /\
           evs = written ++ [release]
         else
           evs = written ++ [release; EvMalloc (db_get_pagesize db) block] /\
           match block with
           | Some _ =>
               fst res
               = Some (page_set_npers_flags (page_set_pers fresh block)
                         (Z.lor 0 PAGE_NPERS_MALLOC)) /\
               db_get_error (st_db (snd res)) = db_get_error db
           | None =>
               fst res = None /\
               db_get_error (st_db (snd res)) = HAM_OUT_OF_MEMORY
           end)
    end.
Proof.
  intros s db res evs Hfull.
  generalize (my_alloc_page_victim_releases s Hfull).
  generalize (fun victim => my_alloc_page_victim_run s victim Hfull).
  fold db res evs.
  destruct (cache_get_unused (db_get_cache db)) as [victim|];
    [|intros _ H; exact H].
  cbv zeta. intros Hrun (Hwrite & Hquiet & Hrelease & Hpage).
  refine (conj Hwrite (conj Hquiet (conj Hrelease (conj Hpage _)))).
  exact (Hrun victim eq_refl).
Qed.

(** *** Positional writes and the delete-pending flag *)

Lemma extends_trans (s s1 s2 : state) (e1 e2 : list event) :
  extends s s1 e1 -> extends s1 s2 e2 -> extends s s2 (e1 ++ e2).
Proof.
  unfold extends. intros H1 H2. rewrite H2, H1. now rewrite app_assoc.
Qed.

Lemma scrub_extkeys_extends (keys : list key_t) (s : state) :
  exists evs,
    extends s (snd (scrub_extkeys keys s)) evs /\
    filter is_pwrite evs = [] /\
    st_os (snd (scrub_extkeys keys s)) = st_os s.
Proof.
  revert s. induction keys as [|bte rest IH]; intros s.
  - exists []. unfold extends. cbn. now rewrite app_nil_r.
  - cbn [scrub_extkeys]. unfold bind, get_db.
    set (step := if flag_set (key_get_flags bte) KEY_IS_EXTENDED then _
                 else _).
    assert (Hstep : exists e1, extends s (snd (step s)) e1 /\
                               filter is_pwrite e1 = [] /\
                               st_os (snd (step s)) = st_os s).
    { subst step.
      destruct (flag_set (key_get_flags bte) KEY_IS_EXTENDED);
        [destruct (flag_set (db_get_flags (st_db s)) HAM_IN_MEMORY_DB);
          [|destruct (db_get_extkey_cache (st_db s)) as [c|];
            [unfold run_extkey_cache_remove, bind, get_db, put_db;
             destruct (chain_find _ _)|]]|].
      - eexists [_]. unfold extends. cbn. auto.
      - eexists [_]. unfold extends. cbn. auto.
      - exists []. unfold extends. cbn. now rewrite app_nil_r.
      - exists []. unfold extends. cbn. now rewrite app_nil_r.
      - exists []. unfold extends. cbn. now rewrite app_nil_r. }
    destruct Hstep as (e1 & He1 & Hf1 & Hos1).
    destruct (step s) as [[] s1]. cbn [snd] in *.
    destruct (IH s1) as (e2 & He2 & Hf2 & Hos2).
    exists (e1 ++ e2). split; [eapply extends_trans; eassumption|].
    split; [now rewrite filter_app, Hf1, Hf2|congruence].
Qed.

Lemma extends_pwrites (s s' : state) (evs : list event) :
  extends s s' evs -> pwrites s s' = filter is_pwrite evs.
Proof.
  intros H. unfold pwrites. now rewrite (new_events_app s s' evs H).
Qed.

Lemma scrub_page_extends (page : ham_page_t) (s : state) :
  exists evs,
    extends s (snd (scrub_page page s)) evs /\
    filter is_pwrite evs = [] /\
    st_os (snd (scrub_page page s)) = st_os s.
Proof.
  unfold scrub_page.
  destruct ((page_get_type page =? PAGE_TYPE_B_ROOT)
            || (page_get_type page =? PAGE_TYPE_B_INDEX));
    [destruct (btree_node_is_leaf (ham_page_get_btree_node page))|].
  - apply scrub_extkeys_extends.
  - exists []. unfold extends. cbn. now rewrite app_nil_r.
  - exists []. unfold extends. cbn. now rewrite app_nil_r.
Qed.

Lemma db_free_page_struct_extends (page : ham_page_t) (s : state) :
  exists evs,
    extends s (snd (db_free_page_struct page s)) evs /\
    filter is_pwrite evs = [].
Proof.
  unfold db_free_page_struct, bind, get_db.
  set (scrub := if negb (flag_set (page_get_npers_flags page)
                           PAGE_NPERS_DELETE_PENDING)
                then scrub_page page else ret tt).
  cbn [emit fst snd].
  set (s0 := mk_state _ _ _ _ (st_trace s ++ [_])).
  assert (H0 : extends s s0 [EvCacheRemovePage (page_get_self page)])
    by reflexivity.
  assert (Hscrub : exists e1, extends s0 (snd (scrub s0)) e1 /\
                              filter is_pwrite e1 = []).
  { subst scrub.
    destruct (negb (flag_set (page_get_npers_flags page)
                      PAGE_NPERS_DELETE_PENDING)).
    - destruct (scrub_page_extends page s0) as (e & He & Hf & _). eauto.
    - exists []. unfold extends. cbn. now rewrite app_nil_r. }
  destruct Hscrub as (e1 & He1 & Hf1).
  destruct (scrub s0) as [[] s1]. cbn [snd] in *.
  pose proof (extends_trans _ _ _ _ _ H0 He1) as H1.
  destruct (page_get_pers page) as [buf|];
    [destruct (flag_set (page_get_npers_flags page) PAGE_NPERS_MALLOC)|].
  - eexists. split.
    + eapply extends_trans; [exact H1|]. unfold extends. cbn.
      rewrite <- app_assoc. reflexivity.
    + rewrite !filter_app, Hf1. reflexivity.
  - unfold os_munmap, next_os, bind, emit, ret.
    destruct (st_os s1) as [|st os']; cbn.
    + eexists. split.
      * eapply extends_trans; [exact H1|]. unfold extends. cbn.
        rewrite <- app_assoc. reflexivity.
      * rewrite !filter_app, Hf1. reflexivity.
    + eexists. split.
      * eapply extends_trans; [exact H1|]. unfold extends. cbn.
        rewrite <- app_assoc. reflexivity.
      * rewrite !filter_app, Hf1. reflexivity.
  - eexists. split.
    + eapply extends_trans; [exact H1|]. unfold extends. cbn. reflexivity.
    + rewrite !filter_app, Hf1. reflexivity.
Qed.

Lemma extends_refl (s : state) : extends s s [].
Proof. unfold extends. now rewrite app_nil_r. Qed.

Lemma my_write_page_extends (page : ham_page_t) (s : state) :
  extends s (snd (my_write_page page s))
    [EvPwrite (db_get_fd (st_db s)) (page_get_self page)
       (page_get_pers page) (db_get_pagesize (st_db s))
       (hd HAM_SUCCESS (st_os s))] /\
  (fst (fst (my_write_page page s)) = HAM_SUCCESS \/
   fst (fst (my_write_page page s)) = HAM_IO_ERROR).
Proof.
  unfold my_write_page, os_pwrite, next_os, db_set_error, put_db, get_db,
    emit, bind, ret.
  destruct (st_os s) as [|st os']; cbn.
  - split; [reflexivity|now left].
  - destruct (status_is_error st); cbn; split; (reflexivity || auto).
Qed.

(** C1, as the code has it: [db_free_page] succeeds, sets the delete-pending
    flag, leaves the dirty bit as it is and writes nothing;
    [db_write_page_and_delete], [db_flush_page] and the replacement of a
    victim in [my_alloc_page] do not look at the delete-pending flag: each
    issues one positional write of the page when the page is dirty and the
    database is not in-memory (for [db_flush_page]: when the page is dirty
    and the database is write-through), and none otherwise. *)
Theorem page_writes_ignore_delete_pending :
  forall (s : state) (page : ham_page_t) (flags : Z),
    let db := st_db s in
    let on_disk := negb (flag_set (db_get_flags db) HAM_IN_MEMORY_DB) in
    let write :=
      EvPwrite (db_get_fd db) (page_get_self page) (page_get_pers page)
               (db_get_pagesize db) (hd HAM_SUCCESS (st_os s)) in
    (fst (fst (db_free_page page s)) = HAM_SUCCESS /\
     page_get_npers_flags (snd (fst (db_free_page page s)))
     = Z.lor (page_get_npers_flags page) PAGE_NPERS_DELETE_PENDING /\
     page_is_dirty (snd (fst (db_free_page page s))) = page_is_dirty page /\
     pwrites s (snd (db_free_page page s)) = []) /\
    pwrites s (snd (db_write_page_and_delete page flags s))
    = (if page_is_dirty page && on_disk then [write] else []) /\
    pwrites s (snd (db_flush_page page flags s))
    = (if flag_set (db_get_flags db) HAM_WRITE_THROUGH && page_is_dirty page
       then [write] else []) /\
    (cache_can_add_page (db_get_cache db) = false ->
     cache_get_unused (db_get_cache db) = Some page ->
     pwrites s (snd (my_alloc_page s))
     = (if page_is_dirty page && on_disk then [write] else [])).
Proof.
  intros s page flags db on_disk write.
  split; [|split; [|split]].
  - unfold db_free_page, bind, ret.
    destruct (scrub_page_extends page s) as (evs & Hext & Hf & _).
    destruct (scrub_page page s) as [[] s1]. cbn [fst snd] in *.
    repeat split. now rewrite (extends_pwrites _ _ _ Hext).
  - unfold db_write_page_and_delete, bind, get_db, ret. fold db.
    fold on_disk.
    set (w := if page_is_dirty page && on_disk then my_write_page page
              else (fun s0 => ((HAM_SUCCESS, page), s0))).
    assert (Hw : extends s (snd (w s))
                   (if page_is_dirty page && on_disk then [write] else [])).
    { subst w. destruct (page_is_dirty page && on_disk).
      - apply my_write_page_extends.
      - apply extends_refl. }
    destruct (w s) as [[st page1] s1]. cbn [fst snd] in *.
    destruct (negb (flag_set flags DB_FLUSH_NODELETE)).
    + destruct (db_free_page_struct_extends page1 s1) as (e2 & He2 & Hf2).
      destruct (db_free_page_struct page1 s1) as [[] s2]. cbn [snd] in *.
      rewrite (extends_pwrites _ _ _ (extends_trans _ _ _ _ _ Hw He2)).
      rewrite filter_app, Hf2, app_nil_r.
      destruct (page_is_dirty page && on_disk); reflexivity.
    + cbn [snd]. rewrite (extends_pwrites _ _ _ Hw).
      destruct (page_is_dirty page && on_disk); reflexivity.
  - unfold db_flush_page, bind, get_db, ret. fold db.
    destruct (flag_set (db_get_flags db) HAM_WRITE_THROUGH
              && page_is_dirty page).
    + destruct (my_write_page_extends page s) as [Hext _].
      destruct (my_write_page page s) as [[st page1] s1]. cbn [fst snd] in *.
      destruct (status_is_error st); cbn [snd];
        now rewrite (extends_pwrites _ _ _ Hext).
    + cbn [snd]. now rewrite (extends_pwrites _ _ _ (extends_refl s)).
  - intros Hfull Hvictim. subst db on_disk write.
    destruct s as [db mem os blobs trace]. cbn [st_db st_os] in *.
    remember (my_alloc_page (mk_state db mem os blobs trace)) as res
      eqn:Hres.
    unfold my_alloc_page, my_write_page, os_pwrite, os_munmap, ham_mem_free,
      ham_mem_alloc, db_set_error, next_os, next_mem, emit, put_db, get_db,
      bind, ret in Hres.
    cbn [st_db st_mem st_os st_trace st_blob_read] in Hres.
    rewrite Hfull, Hvictim in Hres.
    run_cases Hres.
    all: subst res; cbn [fst snd hd andb negb].
    all: erewrite extends_pwrites;
      [|unfold extends; cbn [st_trace]; rewrite <- ?app_assoc; reflexivity].
    all: reflexivity.
Qed.

End PageProperties.

(** *** Runs on a concrete database *)

Lemma my_alloc_page_replaces_victim_witness :
  let X := sample_externals (Some dirty_page) no_node in
  let res := my_alloc_page (X := X) full_state in
  new_events full_state (snd res)
  = [EvPwrite 3 8192 (Some (replicate 4096 x00)) 4096 HAM_SUCCESS;
     EvFree (Some (replicate 4096 x00));
     EvMalloc 4096 (Some (replicate 4096 x00))] /\
  fst res
  = Some (mk_page 0 0 false (Some (replicate 4096 x00)) 2 0 0 (Some 1)) /\
  db_get_error (st_db (snd res)) = HAM_SUCCESS.
Proof.
  intros X res.
  pose proof (my_alloc_page_replaces_victim (X := X) full_state eq_refl)
    as H.
  cbn [cache_get_unused X sample_externals] in H.
  destruct H as (_ & _ & _ & _ & Hrun).
  exact Hrun.
Defined.

(** C1, as stated, fails: a dirty page of a database on disk is freed with
    [db_free_page], which sets its delete-pending flag, and then goes
    through [db_write_page_and_delete]: its bytes are written at its
    offset. *)
Lemma delete_pending_page_is_written :
  let X := sample_externals None no_node in
  let freed := db_free_page (X := X) dirty_page full_state in
  let page := snd (fst freed) in
  let s' := snd (db_write_page_and_delete (X := X) page 0 (snd freed)) in
  flag_set (page_get_npers_flags page) PAGE_NPERS_DELETE_PENDING = true /\
  fst (fst freed) = HAM_SUCCESS /\
  new_events (snd freed) s' !! 0%nat
  = Some (EvPwrite 3 8192 (Some (replicate 4096 x00)) 4096 HAM_SUCCESS).
Proof. repeat split. Qed.

Lemma page_writes_ignore_delete_pending_witness :
  let X := sample_externals (Some dirty_page) no_node in
  pwrites full_state (snd (my_alloc_page (X := X) full_state))
  = [EvPwrite 3 8192 (Some (replicate 4096 x00)) 4096 HAM_SUCCESS].
Proof.
  intros X.
  exact (proj2 (proj2 (proj2 (page_writes_ignore_delete_pending (X := X)
           full_state dirty_page 0))) eq_refl eq_refl).
Defined.

(** ** db.c: the assembly of an extended key *)

Lemma memcpy_length (n : nat) (dst : list byte) (off : nat)
    (src : list byte) :
  length (memcpy dst off src n) = length dst.
Proof.
  revert dst off src. induction n as [|n IH]; intros dst off src.
  - reflexivity.
  - destruct src as [|b src]; simpl; [reflexivity|].
    now rewrite IH, length_insert.
Qed.

Lemma memcpy_spec (n : nat) (dst : list byte) (off : nat) (src : list byte) :
  (off + n <= length dst)%nat -> (n <= length src)%nat ->
  memcpy dst off src n = take off dst ++ take n src ++ drop (off + n) dst.
Proof.
  revert dst off src. induction n as [|n IH]; intros dst off src Hd Hs.
  - simpl. rewrite Nat.add_0_r. symmetry. apply take_drop.
  - destruct src as [|b src]; simpl in Hs; [lia|]. simpl.
    rewrite IH by (rewrite ?length_insert; lia).
    rewrite (take_S_r _ off b)
      by (apply list_lookup_insert_eq; lia).
    rewrite take_insert. destruct (decide (off < off)%nat); [lia|].
    rewrite drop_insert_lt by lia.
    rewrite <- app_assoc. simpl.
    replace (S (off + n))%nat with (off + S n)%nat by lia. reflexivity.
Qed.

(** Splits the run stated in [H] at every test it makes. *)
Ltac split_run H :=
  repeat (match type of H with
          | context [match ?x with _ => _ end] =>
              lazymatch x with
              | context [match _ with _ => _ end] => fail
              | _ => destruct x eqn:?
              end
          end;
          cbn -[key_blobid flag_set status_is_error no_capacity
                extkey_cache_fetch extkey_cache_insert] in H).

Ltac solve_quiet :=
  split; [reflexivity|]; split; [reflexivity|];
  first [ exists []; split;
          [unfold extends; cbn; now rewrite app_nil_r|constructor]
        | eexists; split;
          [unfold extends; cbn; rewrite <- ?app_assoc; reflexivity
          |repeat constructor] ].

Section CompareProperties.

Context {X : externals}.

(** The block the loading step allocates: its size, and what it holds when
    the key slot holds its prefix and the record its [record.size] bytes. *)
Lemma load_key_assembly_buffer :
  forall (s s' : state) (flags : Z) (key : list byte) (key_length : Z)
         (block : list byte),
    load_key flags key key_length s = (KeyAllocated block, s') ->
    let db := st_db s in
    let record := snd (st_blob_read s (key_blobid db key)) in
    let prefix := db_get_keysize db - sizeof_ham_offset_t in
    length block
    = Z.to_nat (ham_size_wrap (record_size record + db_get_keysize db)) /\
    (0 <= prefix <= Z.of_nat (length key) ->
     Z.of_nat (length (record_data record)) = record_size record ->
     record_size record + db_get_keysize db <= ham_size_max ->
     take (Z.to_nat (prefix + record_size record)) block
     = take (Z.to_nat prefix) key ++ record_data record /\
     Z.of_nat (length block)
     = prefix + record_size record + sizeof_ham_offset_t).
Proof.
  intros s s' flags key key_length block Hload db record prefix.
  unfold load_key, bind, get_db in Hload. fold db in Hload.
  destruct (flag_set flags KEY_IS_EXTENDED); [|discriminate Hload].
  set (blobid := key_blobid db key) in *.
  set (fetched := if negb (flag_set (db_get_flags db) HAM_IN_MEMORY_DB)
                  then _ else _) in Hload.
  assert (Hmiss :
    exists s1,
      (let (rst, rec) := st_blob_read s blobid in
       if status_is_error rst
       then fun s0 => let (_, s2) := db_set_error rst s0 in ret KeyBail s2
       else fun s0 =>
         let (p, s2) := ham_mem_alloc
                          (ham_size_wrap (record_size rec
                                          + db_get_keysize db)) s0 in
         match p with
         | None => fun s3 =>
             let (_, s4) := db_set_error HAM_OUT_OF_MEMORY s3 in
             ret KeyBail s4
         | Some block0 => fun s3 =>
             let (_, s4) :=
               (if negb (flag_set (db_get_flags db) HAM_IN_MEMORY_DB)
                then run_extkey_cache_insert blobid key_length
                       (memcpy (memcpy block0 0 key
                                  (Z.to_nat (db_get_keysize db
                                             - sizeof_ham_offset_t)))
                          (Z.to_nat (db_get_keysize db - sizeof_ham_offset_t))
                          (record_data rec) (Z.to_nat (record_size rec)))
                else ret tt) s3 in
             ret (KeyAllocated
                    (memcpy (memcpy block0 0 key
                               (Z.to_nat (db_get_keysize db
                                          - sizeof_ham_offset_t)))
                       (Z.to_nat (db_get_keysize db - sizeof_ham_offset_t))
                       (record_data rec) (Z.to_nat (record_size rec)))) s4
         end s2) s1 = (KeyAllocated block, s')).
  { destruct fetched as [[] [[? ?]|]]; cbn in Hload;
      try discriminate Hload;
      try (unfold db_set_error, bind, get_db, put_db, ret in Hload;
           cbn in Hload; discriminate Hload);
      unfold blob_read in Hload; eexists; exact Hload. }
  clear Hload. destruct Hmiss as (s1 & Hload).
  subst record. destruct (st_blob_read s blobid) as [rst rec].
  cbn [snd].
  destruct (status_is_error rst).
  { unfold db_set_error, bind, get_db, put_db, ret in Hload.
    cbn in Hload. discriminate Hload. }
  unfold ham_mem_alloc, next_mem, emit, bind, ret in Hload.
  assert (Hblock :
    exists f, block =
      memcpy (memcpy (map f (seq 0 (Z.to_nat
                (ham_size_wrap (record_size rec + db_get_keysize db)))))
                0 key (Z.to_nat prefix))
             (Z.to_nat prefix) (record_data rec)
             (Z.to_nat (record_size rec))).
  { destruct (st_mem s1) as [|[f|] mem']; cbn in Hload.
    - destruct (if negb _ then _ else _) as [[] ?] in Hload.
      injection Hload as <- _. eexists. reflexivity.
    - destruct (if negb _ then _ else _) as [[] ?] in Hload.
      injection Hload as <- _. eexists. reflexivity.
    - unfold db_set_error, bind, get_db, put_db, ret in Hload.
      cbn in Hload. discriminate Hload. }
  clear Hload. destruct Hblock as (f & ->).
  split.
  - now rewrite !memcpy_length, length_map, length_seq.
  - intros Hprefix Hdata Hfit.
    assert (Hwrap : ham_size_wrap (record_size rec + db_get_keysize db)
                    = record_size rec + db_get_keysize db).
    { apply ham_size_wrap_small.
      unfold prefix, sizeof_ham_offset_t in Hprefix. lia. }
    set (block0 := map f _).
    assert (Hlen0 : length block0
                    = Z.to_nat (record_size rec + db_get_keysize db))
      by (subst block0; now rewrite length_map, length_seq, Hwrap).
    unfold prefix, sizeof_ham_offset_t in *.
    split.
    + rewrite (memcpy_spec _ (memcpy _ _ _ _))
        by (rewrite ?memcpy_length; lia).
      rewrite memcpy_spec by lia.
      rewrite take_0. cbn [app].
      rewrite (take_app_length' (take _ key))
        by (rewrite length_take_le; lia).
      rewrite (firstn_all2 (record_data rec)) by lia.
      rewrite app_assoc.
      rewrite take_app_length'; [reflexivity|].
      rewrite length_app, length_take_le by lia. lia.
    + rewrite !memcpy_length, Hlen0. lia.
Qed.

Lemma quiet_refl (s : state) : quiet s s.
Proof.
  repeat split. exists []. split; [|constructor].
  unfold extends. now rewrite app_nil_r.
Qed.

Lemma quiet_trans (s s1 s2 : state) : quiet s s1 -> quiet s1 s2 -> quiet s s2.
Proof.
  intros (Hb1 & Hk1 & e1 & He1 & Hf1) (Hb2 & Hk2 & e2 & He2 & Hf2).
  split; [congruence|]. split; [congruence|].
  exists (e1 ++ e2). split; [eapply extends_trans; eassumption|].
  apply Forall_app. auto.
Qed.

Lemma quiet_run_ret {A : Type} (a : A) : quiet_run (ret a).
Proof. intros s. apply quiet_refl. Qed.

Lemma quiet_run_get_db : quiet_run get_db.
Proof. intros s. apply quiet_refl. Qed.

Lemma quiet_run_bind {A B : Type} (m : M A) (k : A -> M B) :
  quiet_run m -> (forall a, quiet_run (k a)) -> quiet_run (bind m k).
Proof.
  intros Hm Hk s. unfold bind. specialize (Hm s).
  destruct (m s) as [a s1]. cbn [snd] in Hm.
  eapply quiet_trans; [exact Hm|apply Hk].
Qed.

Lemma quiet_run_db_set_error (st : ham_status_t) :
  quiet_run (db_set_error st).
Proof. intros [db mem os blobs trace]. cbn. solve_quiet. Qed.

Lemma quiet_run_set_extkey_cache {A : Type} (c : option extkey_cache_t)
    (a : A) :
  quiet_run (db3 <- get_db ;; put_db (db_with_extkey_cache db3 c) ;;; ret a).
Proof. intros [db mem os blobs trace]. cbn. solve_quiet. Qed.

Lemma load_key_quiet (flags : Z) (key : list byte) (key_length : Z) :
  quiet_run (load_key flags key key_length).
Proof.
  intros [db mem os blobs trace].
  remember (load_key flags key key_length (mk_state db mem os blobs trace))
    as r eqn:Hr.
  unfold load_key, run_extkey_cache_insert, blob_read, ham_mem_alloc,
    next_mem, emit, db_set_error, put_db, get_db, bind, ret in Hr.
  cbn -[key_blobid flag_set status_is_error no_capacity
        extkey_cache_fetch extkey_cache_insert] in Hr.
  split_run Hr.
  all: subst r; cbn [snd].
  all: solve_quiet.
Qed.

Lemma run_extkey_cache_new_quiet : quiet_run run_extkey_cache_new.
Proof.
  intros [db mem os blobs trace].
  unfold run_extkey_cache_new, ham_mem_alloc, next_mem, emit, db_set_error,
    put_db, get_db, bind, ret.
  destruct mem as [|[f|] mem']; cbn; solve_quiet.
Qed.

Lemma key_blobid_keysize (db db' : ham_db_t) (key : list byte) :
  db_get_keysize db' = db_get_keysize db ->
  key_blobid db' key = key_blobid db key.
Proof. intros H. unfold key_blobid. now rewrite H. Qed.

Lemma quiet_no_free (s s' : state) (block : option (list byte)) :
  quiet s s' -> ~ In (EvFree block) (new_events s s').
Proof.
  intros (_ & _ & evs & Hext & Hall) Hin.
  rewrite (new_events_app _ _ _ Hext) in Hin.
  rewrite Forall_forall in Hall.
  apply list_elem_of_In in Hin. specialize (Hall _ Hin). discriminate.
Qed.

Lemma quiet_then_frees (s s1 s2 : state) (frees : list event)
    (block : option (list byte)) :
  quiet s s1 -> extends s1 s2 frees ->
  In (EvFree block) (new_events s s2) -> In (EvFree block) frees.
Proof.
  intros (_ & _ & evs & Hext & Hall) Hfrees Hin.
  rewrite (new_events_app _ _ _ (extends_trans _ _ _ _ _ Hext Hfrees)) in Hin.
  apply in_app_or in Hin. destruct Hin as [Hin|Hin]; [|exact Hin].
  rewrite Forall_forall in Hall.
  apply list_elem_of_In in Hin. specialize (Hall _ Hin). discriminate.
Qed.

Lemma load_key_assembled (s0 s s' : state) (flags : Z) (key : list byte)
    (key_length : Z) (block : list byte) :
  quiet s0 s ->
  load_key flags key key_length s = (KeyAllocated block, s') ->
  assembled s0 key block.
Proof.
  intros (Hb & Hk & _) Hload.
  pose proof (load_key_assembly_buffer s s' flags key key_length block Hload)
    as H.
  unfold assembled. cbv zeta in H.
  rewrite Hb, Hk, (key_blobid_keysize _ _ key Hk) in H. exact H.
Qed.

Lemma frees_assembled_quiet {A : Type} (s0 : state) (lhs rhs : list byte)
    (m : M A) :
  quiet_run m -> frees_assembled s0 lhs rhs m.
Proof.
  intros Hm s block Hq Hin. exfalso.
  apply (quiet_no_free s0 (snd (m s)) (Some block)); [|exact Hin].
  eapply quiet_trans; [exact Hq|apply Hm].
Qed.

Lemma frees_assembled_bind {A B : Type} (s0 : state) (lhs rhs : list byte)
    (m : M A) (k : A -> M B) :
  quiet_run m ->
  (forall s a s' block,
      quiet s0 s -> m s = (a, s') ->
      In (EvFree (Some block)) (new_events s0 (snd (k a s'))) ->
      assembled s0 lhs block \/ assembled s0 rhs block) ->
  frees_assembled s0 lhs rhs (bind m k).
Proof.
  intros Hm Hk s block Hq Hin. unfold bind in Hin.
  destruct (m s) as [a s1] eqn:E. eapply Hk; eassumption.
Qed.

Lemma frees_assembled_seq {A B : Type} (s0 : state) (lhs rhs : list byte)
    (m : M A) (k : A -> M B) :
  quiet_run m ->
  (forall a, frees_assembled s0 lhs rhs (k a)) ->
  frees_assembled s0 lhs rhs (bind m k).
Proof.
  intros Hm Hk. apply frees_assembled_bind; [exact Hm|].
  intros s a s' block Hq E Hin.
  apply (Hk a s' block); [|exact Hin].
  eapply quiet_trans; [exact Hq|].
  pose proof (Hm s) as H. now rewrite E in H.
Qed.

(** C8, as the code has it: the blocks [db_compare_keys] frees are the
    blocks it allocated to assemble [lhs] or [rhs] after a cache miss.  Such
    a block has [record.size + keysize] bytes (reduced to a [ham_size_t]),
    the size of the tail read from the blob plus the whole key slot,
    whatever the length the key is passed with; for a key slot that holds
    its prefix and a record that holds [record.size] bytes, the first
    [keysize - 8 + record.size] bytes of the block are the inline prefix
    followed by the tail, and the block is eight bytes longer. *)
Theorem db_compare_keys_assembly_buffer :
  forall (s : state) (lhs_flags : Z) (lhs : list byte) (lhs_length : Z)
         (rhs_flags : Z) (rhs : list byte) (rhs_length : Z)
         (block : list byte),
    let res := db_compare_keys lhs_flags lhs lhs_length
                               rhs_flags rhs rhs_length s in
    In (EvFree (Some block)) (new_events s (snd res)) ->
    assembled s lhs block \/ assembled s rhs block.
Proof.
  intros s lhs_flags lhs lhs_length rhs_flags rhs rhs_length block res.
  subst res.
  enough (H : frees_assembled s lhs rhs
                (db_compare_keys lhs_flags lhs lhs_length
                                 rhs_flags rhs rhs_length))
    by (apply H, quiet_refl).
  clear block. unfold db_compare_keys.
  apply frees_assembled_seq; [apply quiet_run_db_set_error|intros _].
  apply frees_assembled_seq; [apply quiet_run_get_db|intros db].
  destruct (negb (flag_set lhs_flags KEY_IS_EXTENDED)
            && negb (flag_set rhs_flags KEY_IS_EXTENDED));
    [apply frees_assembled_quiet, quiet_run_ret|].
  apply frees_assembled_seq.
  { destruct (db_get_prefix_compare_func db) as [prefoo|];
      [|apply quiet_run_ret].
    match goal with
    | |- context [prefoo ?a ?b ?c ?d ?e ?f] =>
        destruct (prefoo a b c d e f) as [c0 err]
    end.
    apply quiet_run_bind.
    - destruct (status_is_error err); [|apply quiet_run_ret].
      apply quiet_run_bind; [apply quiet_run_db_set_error|].
      intros _. apply quiet_run_ret.
    - intros _. apply quiet_run_bind; [apply quiet_run_get_db|].
      intros db1. apply quiet_run_ret. }
  intros [cmp leave].
  destruct leave; [apply frees_assembled_quiet, quiet_run_ret|].
  destruct (cmp =? HAM_PREFIX_REQUEST_FULLKEY);
    [|apply frees_assembled_quiet, quiet_run_ret].
  apply frees_assembled_seq.
  { destruct (negb (flag_set (db_get_flags db) HAM_IN_MEMORY_DB));
      [|apply quiet_run_ret].
    apply quiet_run_bind; [apply quiet_run_get_db|intros db2].
    destruct (db_get_extkey_cache db2); [apply quiet_run_ret|].
    apply quiet_run_bind; [apply run_extkey_cache_new_quiet|intros c].
    apply quiet_run_set_extkey_cache. }
  intros have_cache.
  destruct (negb have_cache).
  { apply frees_assembled_quiet, quiet_run_bind;
      [apply quiet_run_get_db|intros; apply quiet_run_ret]. }
  apply frees_assembled_bind; [apply load_key_quiet|].
  intros s2 plhs s3 block Hq2 Hload1 Hin.
  assert (Hq3 : quiet s s3).
  { eapply quiet_trans; [exact Hq2|].
    pose proof (load_key_quiet lhs_flags lhs lhs_length s2) as H.
    now rewrite Hload1 in H. }
  assert (Hlhs : forall b, plhs = KeyAllocated b -> assembled s lhs b).
  { intros b ->.
    exact (load_key_assembled s s2 s3 lhs_flags lhs lhs_length b Hq2 Hload1). }
  destruct (load_key rhs_flags rhs rhs_length s3) as [prhs s4] eqn:Hload2.
  assert (Hq4 : quiet s s4).
  { eapply quiet_trans; [exact Hq3|].
    pose proof (load_key_quiet rhs_flags rhs rhs_length s3) as H.
    now rewrite Hload2 in H. }
  assert (Hrhs : forall b, prhs = KeyAllocated b -> assembled s rhs b).
  { intros b ->.
    exact (load_key_assembled s s3 s4 rhs_flags rhs rhs_length b Hq3 Hload2). }
  destruct plhs as [|d1|b1|st1|]; cbn [snd] in Hin;
    try (exfalso; apply (quiet_no_free _ _ _ Hq3 Hin)).
  all: unfold bind in Hin; rewrite Hload2 in Hin.
  all: destruct prhs as [|d2|b2|st2|];
    unfold free_loaded, ham_mem_free, emit, bind, ret in Hin;
    cbn [snd fst] in Hin;
    try (exfalso; apply (quiet_no_free _ _ _ Hq4 Hin)).
  all: match type of Hin with
       | In _ (new_events ?s0 ?s5) =>
           eapply (quiet_then_frees s0 s4 s5) in Hin;
             [|exact Hq4
              |unfold extends; cbn [st_trace];
               rewrite <- ?app_assoc; reflexivity]
       end.
  all: cbn in Hin.
  all: repeat match type of Hin with
              | _ \/ _ => destruct Hin as [Hin|Hin]
              | False => contradiction
              | EvFree _ = EvFree _ => injection Hin as <-
              end.
  all: first [ left; apply Hlhs; reflexivity
             | right; apply Hrhs; reflexivity ].
Qed.

(** *** Failures inside [db_compare_keys] *)

Lemma status_is_error_true (st : ham_status_t) :
  st <> HAM_SUCCESS -> status_is_error st = true.
Proof. destruct st; (reflexivity || contradiction). Qed.

(** Runs [db_compare_keys] on the database [db] up to the next test that the
    hypotheses rewritten by [rw] decide; blob ids of [key] are read with the
    key size of [db], which no step of the run changes. *)
Ltac compare_run db key rw :=
  repeat (progress
            (cbn -[key_blobid flag_set status_is_error];
             repeat match goal with
                    | |- context [key_blobid ?d key] =>
                        lazymatch d with
                        | db => fail
                        | _ => change (key_blobid d key)
                                 with (key_blobid db key)
                        end
                    end;
             rw;
             rewrite ?Z.eqb_refl,
               ?(bool_decide_eq_true_2
                   (HAM_KEY_NOT_FOUND = HAM_KEY_NOT_FOUND) eq_refl))).

(** C2 at a failing blob read: without a prefix comparison, with an extended
    left key that the cache does not hold (or an in-memory database),
    and a blob store that answers the read of the key's tail with an error
    [st], [db_compare_keys] stores [st] in the error slot and returns the
    sentinel [HAM_PREFIX_REQUEST_FULLKEY] its result variable was
    initialized with, which is not 0. *)
Theorem db_compare_keys_blob_read_failure :
  forall (s : state) (lhs_flags : Z) (lhs : list byte) (lhs_length : Z)
         (rhs_flags : Z) (rhs : list byte) (rhs_length : Z)
         (st : ham_status_t) (record : ham_record_t),
    let db := st_db s in
    db_get_prefix_compare_func db = None ->
    flag_set lhs_flags KEY_IS_EXTENDED = true ->
    (flag_set (db_get_flags db) HAM_IN_MEMORY_DB = true \/
     exists c,
       db_get_extkey_cache db = Some c /\
       extkey_cache_fetch c (key_blobid db lhs) = (HAM_KEY_NOT_FOUND, None)) ->
    st_blob_read s (key_blobid db lhs) = (st, record) ->
    st <> HAM_SUCCESS ->
    let res := db_compare_keys lhs_flags lhs lhs_length
                               rhs_flags rhs rhs_length s in
    fst res = HAM_PREFIX_REQUEST_FULLKEY /\
    db_get_error (st_db (snd res)) = st /\
    (externals_ok X -> fst res <> 0).
Proof.
  intros [db mem os blobs trace] lhs_flags lhs lhs_length rhs_flags rhs
         rhs_length st record db0 Hpre Hext Hcache Hread Herr res.
  subst db0. cbn [st_db st_blob_read] in *.
  assert (Hres : fst res = HAM_PREFIX_REQUEST_FULLKEY /\
                 db_get_error (st_db (snd res)) = st).
  { subst res.
    pose proof (status_is_error_true st Herr) as Hst.
    unfold db_compare_keys, load_key, blob_read, db_set_error, put_db,
      get_db, bind, ret.
    destruct Hcache as [Hmem | (c & Hc & Hfetch)].
    - compare_run db lhs
        ltac:(rewrite ?Hext, ?Hpre, ?Hmem, ?Hread, ?Hst).
      split; reflexivity.
    - destruct (flag_set (db_get_flags db) HAM_IN_MEMORY_DB) eqn:Hmem;
        compare_run db lhs
          ltac:(rewrite ?Hext, ?Hpre, ?Hmem, ?Hc, ?Hfetch, ?Hread, ?Hst);
        split; reflexivity. }
  destruct Hres as [Hfst Herror]. split; [exact Hfst|]. split; [exact Herror|].
  intros Hok. rewrite Hfst. apply (sentinel_not_result X Hok).
Qed.

(** The same exit when the block for the assembled key cannot be
    allocated. *)
Lemma db_compare_keys_out_of_memory (s : state) (lhs_flags : Z)
    (lhs : list byte) (lhs_length : Z) (rhs_flags : Z) (rhs : list byte)
    (rhs_length : Z) (record : ham_record_t)
    (mem : list (option (nat -> byte))) :
  db_get_prefix_compare_func (st_db s) = None ->
  flag_set lhs_flags KEY_IS_EXTENDED = true ->
  flag_set (db_get_flags (st_db s)) HAM_IN_MEMORY_DB = true ->
  st_blob_read s (key_blobid (st_db s) lhs) = (HAM_SUCCESS, record) ->
  st_mem s = None :: mem ->
  let res := db_compare_keys lhs_flags lhs lhs_length
                             rhs_flags rhs rhs_length s in
  fst res = HAM_PREFIX_REQUEST_FULLKEY /\
  db_get_error (st_db (snd res)) = HAM_OUT_OF_MEMORY.
Proof.
  destruct s as [db mem0 os blobs trace]. cbn [st_db st_blob_read st_mem].
  intros Hpre Hext Hmem Hread ->. cbv zeta.
  unfold db_compare_keys, load_key, blob_read, ham_mem_alloc, next_mem, emit,
    db_set_error, put_db, get_db, bind, ret.
  compare_run db lhs ltac:(rewrite ?Hext, ?Hpre, ?Hmem, ?Hread).
  split; reflexivity.
Qed.

(** The exit the claim describes: an error left by the prefix comparison
    makes [db_compare_keys] return 0, with that error in the slot. *)
Lemma db_compare_keys_prefix_error (s : state) (lhs_flags : Z)
    (lhs : list byte) (lhs_length : Z) (rhs_flags : Z) (rhs : list byte)
    (rhs_length : Z) (prefoo : ham_prefix_compare_func_t) (err : ham_status_t) :
  db_get_prefix_compare_func (st_db s) = Some prefoo ->
  flag_set lhs_flags KEY_IS_EXTENDED = true ->
  (forall l ll lr r rl rr, snd (prefoo l ll lr r rl rr) = err) ->
  err <> HAM_SUCCESS ->
  let res := db_compare_keys lhs_flags lhs lhs_length
                             rhs_flags rhs rhs_length s in
  fst res = 0 /\ db_get_error (st_db (snd res)) = err.
Proof.
  destruct s as [db mem os blobs trace]. cbn [st_db].
  intros Hpre Hext Hfoo Herr. cbv zeta.
  pose proof (status_is_error_true err Herr) as Hst.
  unfold db_compare_keys, db_set_error, put_db, get_db, bind, ret.
  cbn -[flag_set status_is_error]. rewrite Hext, Hpre.
  cbn -[flag_set status_is_error].
  match goal with
  | |- context [prefoo ?a ?b ?c ?d ?e ?f] =>
      pose proof (Hfoo a b c d e f) as Hsnd;
      destruct (prefoo a b c d e f) as [c0 e0]
  end.
  cbn [snd] in Hsnd. subst e0. rewrite Hst.
  cbn -[flag_set status_is_error]. rewrite Hst. split; reflexivity.
Qed.

End CompareProperties.

(** *** Comparisons on a concrete database *)

Lemma sample_externals_ok (unused : option ham_page_t) (node : btree_node_t) :
  externals_ok (sample_externals unused node).
Proof.
  constructor; cbn; try discriminate.
  - reflexivity.
  - intros st Hst. destruct st; (contradiction || discriminate).
  - repeat split; discriminate.
Qed.

Lemma load_key_long_key :
  let X := sample_externals None no_node in
  let s := mk_state disk_db [] [] tail_store [] in
  exists block s',
    load_key (X := X) 8 long_key_slot 64 s = (KeyAllocated block, s') /\
    length block = 72%nat /\
    take 64 block = replicate 64 x61.
Proof.
  intros X s.
  destruct (load_key (X := X) 8 long_key_slot 64 s) as [l s'] eqn:E.
  assert (Hl : exists block, l = KeyAllocated block).
  { apply (f_equal fst) in E. vm_compute in E. subst l. eexists.
    reflexivity. }
  destruct Hl as [block ->]. exists block, s'. split; [reflexivity|].
  destruct (load_key_assembly_buffer (X := X) s s' 8 long_key_slot 64 block E)
    as [Hlen Hcontent].
  split; [exact Hlen|].
  destruct Hcontent as [Htake _].
  - vm_compute. split; discriminate.
  - reflexivity.
  - vm_compute. discriminate.
  - exact Htake.
Qed.

Lemma db_compare_keys_assembly_buffer_witness :
  let X := sample_externals None no_node in
  let s := mk_state disk_db [] [] tail_store [] in
  let block := replicate 64 x61 ++ replicate 8 x00 in
  assembled (X := X) s long_key_slot block \/
  assembled (X := X) s [x61; x62] block.
Proof.
  intros X s block.
  apply (db_compare_keys_assembly_buffer (X := X) s 8 long_key_slot 64
           0 [x61; x62] 2 block).
  vm_compute. auto 10.
Defined.

(** C8, as stated, fails: for the key of 64 bytes the block that
    [db_compare_keys] allocates, fills and frees has 72 bytes. *)
Lemma assembly_buffer_longer_than_key :
  let X := sample_externals None no_node in
  let s := mk_state disk_db [] [] tail_store [] in
  let key_length := 64 in
  let res := db_compare_keys (X := X) 8 long_key_slot key_length
                             0 [x61; x62] 2 s in
  exists block,
    last (st_trace (snd res)) = Some (EvFree (Some block)) /\
    In (EvMalloc 72 (Some (replicate 72 x00))) (st_trace (snd res)) /\
    take 64 block = replicate 64 x61 /\
    Z.of_nat (length block) = 72 /\
    Z.of_nat (length block) <> key_length.
Proof.
  intros X s key_length res. eexists. split; [vm_compute; reflexivity|].
  split; [vm_compute; auto|]. split; [reflexivity|].
  split; [reflexivity|discriminate].
Qed.

Lemma db_compare_keys_blob_read_failure_witness :
  let X := sample_externals None no_node in
  let s := mk_state disk_db [] [] failing_store [] in
  let res := db_compare_keys (X := X) 8 long_key_slot 64 0 [x61; x62] 2 s in
  fst res = -2 /\ db_get_error (st_db (snd res)) = HAM_IO_ERROR /\
  fst res <> 0.
Proof.
  intros X s res.
  destruct (db_compare_keys_blob_read_failure (X := X) s 8 long_key_slot 64
              0 [x61; x62] 2 HAM_IO_ERROR (mk_record 0 []))
    as (Hfst & Herr & Hne).
  - reflexivity.
  - reflexivity.
  - right. exists fresh_cache. split; reflexivity.
  - reflexivity.
  - discriminate.
  - split; [exact Hfst|]. split; [exact Herr|].
    apply Hne, sample_externals_ok.
Defined.

(** * Further properties *)

(** ** extkeys.c: round trips and the uniqueness of blob ids *)

(** Removing the blob id just inserted undoes the insertion: the buckets
    and, for a used size that is a [ham_size_t] value, the whole cache are as
    before. *)
Theorem extkey_cache_insert_remove :
  forall (db_cache : ham_cache_t) (mem : bool) (cache cache' : extkey_cache_t)
         (blobid size : Z) (data : list byte),
    well_formed cache ->
    0 <= extkey_cache_get_usedsize cache <= ham_size_max ->
    extkey_cache_insert db_cache mem cache blobid size data
    = (HAM_SUCCESS, cache') ->
    extkey_cache_remove cache' blobid = (HAM_SUCCESS, cache).
Proof.
  intros db_cache mem cache cache' blobid size data Hwf Hused Hins.
  destruct (extkey_cache_insert_cases db_cache mem cache blobid size data)
    as [[_ E] | [[_ [_ E]] | [Hcap [-> _]]]];
    try (rewrite E in Hins; discriminate).
  rewrite extkey_cache_insert_done in Hins by assumption.
  injection Hins as <-.
  pose proof (my_calc_hash_in_range cache blobid Hwf) as Hh.
  destruct (extkey_cache_buckets cache !! Z.to_nat (my_calc_hash cache blobid))
    as [old|] eqn:Hold; [|apply lookup_ge_None in Hold; lia].
  match goal with
  | |- extkey_cache_remove ?c _ = _ =>
      pose proof (my_calc_hash_bucketsize c cache blobid eq_refl) as Hhash
  end.
  unfold extkey_cache_remove. rewrite Hhash.
  unfold extkey_cache_set_usedsize, extkey_cache_set_bucket,
    extkey_cache_get_bucket.
  cbn [extkey_cache_get_usedsize extkey_cache_get_bucketsize
       extkey_cache_buckets extkey_get_size].
  rewrite list_lookup_insert_eq by assumption.
  rewrite Hold.
  cbn [default from_option id chain_find chain_unlink extkey_get_blobid].
  rewrite Z.eqb_refl. cbn [extkey_get_size].
  rewrite list_insert_insert_eq, (list_insert_id _ _ _ Hold).
  rewrite ham_size_wrap_sub_l.
  replace (extkey_cache_get_usedsize cache + size - size)
    with (extkey_cache_get_usedsize cache) by lia.
  rewrite ham_size_wrap_small by assumption.
  destruct cache; reflexivity.
Qed.

Lemma extkey_cache_insert_remove_witness :
  let db_cache := mk_cache 4096 1048576 in
  let cache := run_ops [OpInsert db_cache true 3 2 [x61; x62]] fresh_cache in
  extkey_cache_remove
    (snd (extkey_cache_insert db_cache true cache 131 1 [x7a])) 131
  = (HAM_SUCCESS, cache).
Proof.
  intros db_cache cache.
  apply (extkey_cache_insert_remove db_cache true cache _ 131 1 [x7a]).
  - apply run_op_well_formed, fresh_cache_well_formed.
  - vm_compute. split; discriminate.
  - reflexivity.
Defined.

(** An operation on one blob id does not change what a fetch of another
    blob id answers. *)
Theorem extkey_cache_fetch_frame :
  forall (cache : extkey_cache_t) (ops : list extkey_op) (blobid : Z),
    well_formed cache ->
    Forall (fun op => op_blobid op <> blobid) ops ->
    extkey_cache_fetch (run_ops ops cache) blobid
    = extkey_cache_fetch cache blobid.
Proof.
  intros cache ops blobid Hwf Hops.
  destruct (run_ops_other_keep ops cache blobid Hwf Hops) as (_ & _ & Hfind).
  unfold extkey_cache_fetch. now rewrite Hfind.
Qed.

Lemma extkey_cache_fetch_frame_witness :
  let db_cache := mk_cache 4096 1048576 in
  let cache := run_ops [OpInsert db_cache true 3 2 [x61; x62]] fresh_cache in
  extkey_cache_fetch
    (run_ops [OpInsert db_cache true 131 1 [x7a]; OpRemove 259] cache) 3
  = (HAM_SUCCESS, Some (2, [x61; x62])).
Proof.
  intros db_cache cache.
  rewrite (extkey_cache_fetch_frame cache
             [OpInsert db_cache true 131 1 [x7a]; OpRemove 259] 3).
  - reflexivity.
  - apply run_op_well_formed, fresh_cache_well_formed.
  - repeat constructor; discriminate.
Defined.

(** *** No blob id is cached twice *)

Lemma chain_find_none (blobid : Z) (chain : list extkey_t) :
  chain_find blobid chain = None ->
  blobid ∉ extkey_get_blobid <$> chain.
Proof.
  induction chain as [|e rest IH]; cbn [chain_find]; intros H.
  - apply not_elem_of_nil.
  - rewrite fmap_cons.
    destruct (Z.eqb_spec (extkey_get_blobid e) blobid) as [E|N];
      [discriminate|].
    apply not_elem_of_cons. split; [congruence | auto].
Qed.

Lemma chain_unlink_ids (blobid x : Z) (chain : list extkey_t) :
  x ∈ extkey_get_blobid <$> chain_unlink blobid chain ->
  x ∈ extkey_get_blobid <$> chain.
Proof.
  induction chain as [|e rest IH]; cbn [chain_unlink]; [tauto|].
  rewrite fmap_cons.
  destruct (extkey_get_blobid e =? blobid).
  - apply list_elem_of_further.
  - rewrite fmap_cons, !elem_of_cons. tauto.
Qed.

Lemma chain_unlink_NoDup (blobid : Z) (chain : list extkey_t) :
  NoDup (extkey_get_blobid <$> chain) ->
  NoDup (extkey_get_blobid <$> chain_unlink blobid chain).
Proof.
  induction chain as [|e rest IH]; cbn [chain_unlink]; [tauto|].
  rewrite fmap_cons, NoDup_cons. intros [Hnot Hrest].
  destruct (extkey_get_blobid e =? blobid); [assumption|].
  rewrite fmap_cons. apply NoDup_cons. split; [|auto].
  intros Hin. apply Hnot. eapply chain_unlink_ids. exact Hin.
Qed.

Lemma chain_unlink_Forall (P : extkey_t -> Prop) (blobid : Z)
    (chain : list extkey_t) :
  Forall P chain -> Forall P (chain_unlink blobid chain).
Proof.
  induction 1 as [|e rest He Hrest IH]; cbn [chain_unlink]; [constructor|].
  destruct (extkey_get_blobid e =? blobid); [assumption|].
  constructor; assumption.
Qed.

(** Once the first entry for [blobid] is unlinked from a chain without
    duplicates, the chain has no entry for [blobid]. *)
Lemma chain_find_unlink_same (blobid : Z) (chain : list extkey_t) :
  NoDup (extkey_get_blobid <$> chain) ->
  chain_find blobid (chain_unlink blobid chain) = None.
Proof.
  induction chain as [|e rest IH]; cbn [chain_unlink]; [reflexivity|].
  rewrite fmap_cons, NoDup_cons. intros [Hnot Hrest].
  destruct (Z.eqb_spec (extkey_get_blobid e) blobid) as [E|N].
  - apply chain_find_absent. intros e' He' E'. apply Hnot.
    rewrite E, <- E'. apply list_elem_of_fmap_2, list_elem_of_In, He'.
  - cbn [chain_find].
    destruct (Z.eqb_spec (extkey_get_blobid e) blobid); [contradiction|].
    auto.
Qed.

Lemma unique_ids_fresh : unique_ids fresh_cache.
Proof.
  split; [apply fresh_cache_well_formed|].
  intros i chain Hi. unfold fresh_cache in Hi.
  cbn [extkey_cache_buckets] in Hi.
  apply lookup_replicate in Hi as [-> _]. split; constructor.
Qed.

(** The shape the uniqueness invariant takes when only the chains change. *)
Lemma unique_ids_buckets (cache cache' : extkey_cache_t) :
  unique_ids cache ->
  extkey_cache_get_bucketsize cache' = extkey_cache_get_bucketsize cache ->
  length (extkey_cache_buckets cache') = length (extkey_cache_buckets cache) ->
  (forall (i : nat) (chain : list extkey_t),
     extkey_cache_buckets cache' !! i = Some chain ->
     NoDup (extkey_get_blobid <$> chain) /\
     Forall (fun e => Z.to_nat (my_calc_hash cache (extkey_get_blobid e)) = i)
            chain) ->
  unique_ids cache'.
Proof.
  intros [[Hbs Hlen] _] Ebs Elen Hchains. split.
  - split; [rewrite Ebs; exact Hbs | rewrite Ebs, Elen; exact Hlen].
  - intros i chain Hi. destruct (Hchains i chain Hi) as [Hnd Hall].
    split; [exact Hnd|].
    eapply Forall_impl; [exact Hall|]. intros e He. cbv beta in *.
    rewrite (my_calc_hash_bucketsize cache' cache _ Ebs). exact He.
Qed.

Lemma run_op_unique_ids (cache : extkey_cache_t) (op : extkey_op) :
  unique_ids cache ->
  match op with
  | OpInsert _ _ blobid _ _ => blobid_is_new cache blobid = true
  | OpRemove _ => True
  end ->
  unique_ids (run_op cache op).
Proof.
  intros Hu Hop. pose proof Hu as [Hwf Hchains].
  pose proof (my_calc_hash_in_range cache (op_blobid op) Hwf) as Hh.
  destruct (extkey_cache_buckets cache !! Z.to_nat
              (my_calc_hash cache (op_blobid op)))
    as [old|] eqn:Hold; [|apply lookup_ge_None in Hold; lia].
  destruct (Hchains _ _ Hold) as [Hnd Hall].
  apply (unique_ids_buckets cache); [exact Hu | apply run_op_bucketsize
                                    | apply run_op_length |].
  destruct op as [db_cache mem blobid size data | blobid];
    cbn [run_op op_blobid] in *.
  - destruct (extkey_cache_insert_cases db_cache mem cache blobid size data)
      as [[_ E] | [[_ [_ E]] | [Hcap [-> _]]]];
      try (rewrite E; exact Hchains).
    rewrite extkey_cache_insert_done by assumption.
    cbn [snd extkey_cache_buckets]. intros i chain Hi.
    apply list_lookup_insert_Some in Hi as [(<- & <- & _) | [_ Hi]];
      [|exact (Hchains i chain Hi)].
    unfold extkey_cache_get_bucket. rewrite Hold. cbn [default from_option id].
    unfold blobid_is_new, extkey_cache_get_bucket in Hop.
    rewrite Hold in Hop. cbn [default from_option id] in Hop.
    destruct (chain_find blobid old) eqn:Hfind; [discriminate|].
    split.
    + rewrite fmap_cons. apply NoDup_cons. split; [|exact Hnd].
      now apply chain_find_none.
    + constructor; [reflexivity | exact Hall].
  - unfold extkey_cache_remove, extkey_cache_get_bucket. rewrite Hold.
    cbn [default from_option id].
    destruct (chain_find blobid old) as [e|]; [|exact Hchains].
    cbn [snd extkey_cache_set_usedsize extkey_cache_set_bucket
         extkey_cache_buckets].
    intros i chain Hi.
    apply list_lookup_insert_Some in Hi as [(<- & <- & _) | [_ Hi]];
      [|exact (Hchains i chain Hi)].
    split; [now apply chain_unlink_NoDup | now apply chain_unlink_Forall].
Qed.

Lemma run_ops_unique_ids (ops : list extkey_op) (cache : extkey_cache_t) :
  unique_ids cache ->
  asserts_hold cache ops ->
  unique_ids (run_ops ops cache).
Proof.
  revert cache. induction ops as [|op ops IH]; intros cache Hu Ha;
    [exact Hu|].
  destruct Ha as [Hop Ha]. cbn [run_ops fold_left]. apply IH; [|exact Ha].
  apply run_op_unique_ids; [exact Hu|].
  destruct op; [exact Hop | exact I].
Qed.

Lemma placed_chains_NoDup (f : Z -> nat) (buckets : list (list extkey_t))
    (k : nat) :
  (forall (i : nat) (chain : list extkey_t),
     buckets !! i = Some chain ->
     NoDup (extkey_get_blobid <$> chain) /\
     Forall (fun e => f (extkey_get_blobid e) = (k + i)%nat) chain) ->
  NoDup (extkey_get_blobid <$> concat buckets).
Proof.
  revert k. induction buckets as [|chain rest IH]; intros k H.
  - constructor.
  - cbn [concat]. rewrite fmap_app. apply NoDup_app.
    destruct (H 0%nat chain eq_refl) as [Hnd Ha].
    split; [exact Hnd|split].
    + intros x Hx Hx'.
      apply list_elem_of_fmap in Hx as (e & -> & He).
      apply list_elem_of_fmap in Hx' as (e' & E & He').
      apply list_elem_of_In, in_concat in He' as (chain' & Hc' & He').
      apply list_elem_of_In, list_elem_of_lookup in Hc' as [j Hj].
      apply list_elem_of_In in He'.
      destruct (H (S j) chain' Hj) as [_ Hb].
      rewrite Forall_forall in Ha, Hb.
      specialize (Ha e He). specialize (Hb e' He'). cbv beta in *.
      rewrite E in Ha. lia.
    + apply (IH (S k)). intros i c Hi.
      destruct (H (S i) c Hi) as [Hn Hf]. split; [exact Hn|].
      eapply Forall_impl; [exact Hf|]. intros e He. cbv beta in *. lia.
Qed.

Lemma chain_find_NoDup (e : extkey_t) (chain : list extkey_t) :
  NoDup (extkey_get_blobid <$> chain) ->
  e ∈ chain ->
  chain_find (extkey_get_blobid e) chain = Some e.
Proof.
  induction chain as [|a rest IH]; [intros _ H; inversion H|].
  rewrite fmap_cons, NoDup_cons, elem_of_cons. intros [Hnot Hrest] He.
  cbn [chain_find].
  destruct (Z.eqb_spec (extkey_get_blobid a) (extkey_get_blobid e)) as [E|N].
  - destruct He as [->|He]; [reflexivity|].
    exfalso. apply Hnot. rewrite E. now apply list_elem_of_fmap_2.
  - destruct He as [->|He]; [contradiction|]. auto.
Qed.

(** Under the uniqueness invariant, an entry is in the chain that a lookup
    of its blob id searches. *)
Lemma unique_ids_entry_chain (cache : extkey_cache_t) (e : extkey_t) :
  unique_ids cache ->
  e ∈ entries cache ->
  e ∈ extkey_cache_get_bucket cache
        (my_calc_hash cache (extkey_get_blobid e)) /\
  NoDup (extkey_get_blobid
           <$> extkey_cache_get_bucket cache
                 (my_calc_hash cache (extkey_get_blobid e))).
Proof.
  intros [_ Hchains] He.
  apply list_elem_of_In, in_concat in He as (chain & Hc & He).
  apply list_elem_of_In, list_elem_of_lookup in Hc as [i Hi].
  apply list_elem_of_In in He.
  destruct (Hchains i chain Hi) as [Hnd Hall].
  rewrite Forall_forall in Hall. specialize (Hall e He). cbv beta in Hall.
  unfold extkey_cache_get_bucket. rewrite Hall, Hi.
  cbn [default from_option id]. split; assumption.
Qed.

(** In every cache built from a fresh one by insertions and removals whose
    debug assertions hold, no two entries carry the same blob id. *)
Theorem extkey_cache_blobids_unique :
  forall ops : list extkey_op,
    asserts_hold fresh_cache ops ->
    NoDup (extkey_get_blobid <$> entries (run_ops ops fresh_cache)).
Proof.
  intros ops Ha.
  destruct (run_ops_unique_ids ops fresh_cache unique_ids_fresh Ha)
    as [_ Hchains].
  unfold entries.
  apply (placed_chains_NoDup
           (fun o => Z.to_nat (my_calc_hash (run_ops ops fresh_cache) o))
           _ 0%nat).
  exact Hchains.
Qed.

Lemma extkey_cache_blobids_unique_witness :
  let db_cache := mk_cache 4096 1048576 in
  NoDup (extkey_get_blobid
           <$> entries (run_ops [OpInsert db_cache true 3 2 [x61; x62];
                                 OpInsert db_cache true 131 1 [x7a];
                                 OpRemove 3;
                                 OpInsert db_cache true 3 1 [x62]]
                          fresh_cache)).
Proof.
  intros db_cache. apply extkey_cache_blobids_unique.
  vm_compute. repeat split.
Defined.

(** Every entry of such a cache is the one a fetch of its blob id finds:
    the fetch succeeds with that entry's size and bytes. *)
Theorem extkey_cache_fetch_every_entry :
  forall (ops : list extkey_op) (e : extkey_t),
    asserts_hold fresh_cache ops ->
    e ∈ entries (run_ops ops fresh_cache) ->
    extkey_cache_fetch (run_ops ops fresh_cache) (extkey_get_blobid e)
    = (HAM_SUCCESS, Some (extkey_get_size e, extkey_get_data e)).
Proof.
  intros ops e Ha He.
  pose proof (run_ops_unique_ids ops fresh_cache unique_ids_fresh Ha) as Hu.
  destruct (unique_ids_entry_chain _ e Hu He) as [Hin Hnd].
  unfold extkey_cache_fetch. now rewrite (chain_find_NoDup e _ Hnd Hin).
Qed.

Lemma extkey_cache_fetch_every_entry_witness :
  let db_cache := mk_cache 4096 1048576 in
  extkey_cache_fetch
    (run_ops [OpInsert db_cache true 3 2 [x61; x62];
              OpInsert db_cache true 131 1 [x7a]] fresh_cache) 3
  = (HAM_SUCCESS, Some (2, [x61; x62])).
Proof.
  intros db_cache.
  apply (extkey_cache_fetch_every_entry
           [OpInsert db_cache true 3 2 [x61; x62];
            OpInsert db_cache true 131 1 [x7a]]
           (mk_extkey 3 2 [x61; x62])).
  - vm_compute. repeat split.
  - apply list_elem_of_In. vm_compute. right. left. reflexivity.
Defined.

(** Under the uniqueness invariant a lookup that finds nothing means that no
    entry of the cache carries the blob id. *)
Lemma unique_ids_not_found (cache : extkey_cache_t) (blobid : Z) :
  unique_ids cache ->
  chain_find blobid
    (extkey_cache_get_bucket cache (my_calc_hash cache blobid)) = None ->
  blobid ∉ extkey_get_blobid <$> entries cache.
Proof.
  intros Hu Hfind Hin.
  apply list_elem_of_fmap in Hin as (e & -> & He).
  destruct (unique_ids_entry_chain cache e Hu He) as [Hin _].
  apply (chain_find_none _ _ Hfind). now apply list_elem_of_fmap_2.
Qed.

(** Under the uniqueness invariant [extkey_cache_remove] leaves no entry
    for the blob id in the chain a lookup searches. *)
Lemma extkey_cache_remove_absent (cache : extkey_cache_t) (blobid : Z) :
  unique_ids cache ->
  let cache' := snd (extkey_cache_remove cache blobid) in
  chain_find blobid
    (extkey_cache_get_bucket cache' (my_calc_hash cache' blobid)) = None.
Proof.
  intros Hu cache'. pose proof Hu as [Hwf Hchains].
  pose proof (my_calc_hash_in_range _ blobid Hwf) as Hh.
  rewrite (my_calc_hash_bucketsize cache' cache)
    by apply (run_op_bucketsize _ (OpRemove blobid)).
  subst cache'.
  destruct (extkey_cache_buckets cache
              !! Z.to_nat (my_calc_hash cache blobid))
    as [old|] eqn:Hold; [|apply lookup_ge_None in Hold; lia].
  assert (Hb : extkey_cache_get_bucket cache (my_calc_hash cache blobid)
               = old)
    by (unfold extkey_cache_get_bucket; now rewrite Hold).
  unfold extkey_cache_remove. rewrite Hb.
  destruct (chain_find blobid old) as [e|] eqn:Hf;
    [|cbn [snd]; now rewrite Hb].
  unfold extkey_cache_get_bucket.
  cbn [snd extkey_cache_set_usedsize extkey_cache_set_bucket
       extkey_cache_buckets].
  rewrite list_lookup_insert_eq by assumption.
  cbn [default from_option id].
  apply chain_find_unlink_same, (Hchains _ _ Hold).
Qed.

(** After [extkey_cache_remove] of a blob id, whether it found an entry or
    not, no entry of the cache carries that blob id and a fetch of it
    answers [HAM_KEY_NOT_FOUND]. *)
Theorem extkey_cache_fetch_after_remove :
  forall (ops : list extkey_op) (blobid : Z),
    asserts_hold fresh_cache ops ->
    let cache' :=
      snd (extkey_cache_remove (run_ops ops fresh_cache) blobid) in
    extkey_cache_fetch cache' blobid = (HAM_KEY_NOT_FOUND, None) /\
    blobid ∉ extkey_get_blobid <$> entries cache'.
Proof.
  intros ops blobid Ha cache'.
  pose proof (run_ops_unique_ids ops fresh_cache unique_ids_fresh Ha) as Hu.
  assert (Hu' : unique_ids cache')
    by (apply (run_op_unique_ids _ (OpRemove blobid) Hu I)).
  pose proof (extkey_cache_remove_absent _ blobid Hu) as Hfind.
  cbv zeta in Hfind. fold cache' in Hfind.
  split; [|now apply unique_ids_not_found].
  unfold extkey_cache_fetch. now rewrite Hfind.
Qed.

Lemma extkey_cache_fetch_after_remove_witness :
  let db_cache := mk_cache 4096 1048576 in
  extkey_cache_fetch
    (snd (extkey_cache_remove
            (run_ops [OpInsert db_cache true 3 2 [x61; x62];
                      OpInsert db_cache true 131 1 [x7a]] fresh_cache) 3)) 3
  = (HAM_KEY_NOT_FOUND, None).
Proof.
  intros db_cache.
  apply (extkey_cache_fetch_after_remove
           [OpInsert db_cache true 3 2 [x61; x62];
            OpInsert db_cache true 131 1 [x7a]] 3).
  vm_compute. repeat split.
Defined.

(** *** The assertion of [extkey_cache_destroy] *)

Lemma extkey_cache_destroy_assert_chains (cache : extkey_cache_t) :
  well_formed cache ->
  extkey_cache_destroy_assert cache = true <->
  Forall (fun chain => chain = []) (extkey_cache_buckets cache).
Proof.
  intros [Hbs Hlen]. unfold extkey_cache_destroy_assert.
  rewrite forallb_forall, Forall_lookup. split.
  - intros H i chain Hi.
    assert (Hlt : (i < length (extkey_cache_buckets cache))%nat)
      by (eapply lookup_lt_Some; exact Hi).
    specialize (H i ltac:(apply in_seq; lia)).
    unfold extkey_cache_get_bucket in H.
    rewrite Nat2Z.id, Hi in H. cbn [default from_option id] in H.
    destruct chain; [reflexivity | discriminate].
  - intros H i Hi. apply in_seq in Hi.
    unfold extkey_cache_get_bucket. rewrite Nat2Z.id.
    destruct (extkey_cache_buckets cache !! i) as [chain|] eqn:E;
      [|reflexivity].
    rewrite (H i chain E). reflexivity.
Qed.

(** The loop of [extkey_cache_destroy] finds every bucket null exactly when
    the cache has no entry; a cache built from a fresh one that passes it
    has used size 0 and answers every fetch with [HAM_KEY_NOT_FOUND]. *)
Theorem extkey_cache_destroy_assert_empty :
  forall ops : list extkey_op,
    let cache := run_ops ops fresh_cache in
    (extkey_cache_destroy_assert cache = true <-> entries cache = []) /\
    (extkey_cache_destroy_assert cache = true ->
     extkey_cache_get_usedsize cache = 0 /\
     forall blobid : Z,
       extkey_cache_fetch cache blobid = (HAM_KEY_NOT_FOUND, None)).
Proof.
  intros ops cache.
  assert (Hwf : well_formed cache)
    by apply run_ops_well_formed, fresh_cache_well_formed.
  assert (Hiff : extkey_cache_destroy_assert cache = true
                 <-> entries cache = []).
  { rewrite (extkey_cache_destroy_assert_chains cache Hwf).
    unfold entries. symmetry. apply concat_nil_Forall. }
  split; [exact Hiff|].
  intros Hd. apply Hiff in Hd. split.
  - subst cache.
    rewrite run_ops_usedsize
      by (try apply fresh_cache_well_formed; reflexivity).
    unfold stored_size.
    fold (entries (run_ops ops fresh_cache)) in Hd.
    apply concat_nil_Forall in Hd.
    assert (Hz : forall bs : list (list extkey_t),
               Forall (fun chain => chain = []) bs -> buckets_size bs = 0).
    { induction 1 as [|chain bs -> _ IH]; [reflexivity|].
      unfold buckets_size in *. cbn [fold_right]. rewrite IH.
      reflexivity. }
    rewrite (Hz _ Hd). reflexivity.
  - intros blobid. apply extkey_cache_fetch_absent.
    rewrite Hd. intros e [].
Qed.

(** ** db.c: the default comparison is a total order *)

Lemma lexicographic_self (l : list byte) : lexicographic l l = 0.
Proof.
  induction l as [|a l IH]; cbn [lexicographic]; [reflexivity|].
  now rewrite Z.eqb_refl.
Qed.

Lemma lexicographic_prefix_l (l t : list byte) :
  t <> [] -> lexicographic l (l ++ t) = -1.
Proof.
  intros Ht. induction l as [|a l IH]; cbn [lexicographic app].
  - destruct t; [contradiction|reflexivity].
  - now rewrite Z.eqb_refl.
Qed.

Lemma lexicographic_prefix_r (r t : list byte) :
  t <> [] -> lexicographic (r ++ t) r = 1.
Proof.
  intros Ht. induction r as [|a r IH]; cbn [lexicographic app].
  - destruct t; [contradiction|reflexivity].
  - now rewrite Z.eqb_refl.
Qed.

Lemma lexicographic_difference (p l' r' : list byte) (a b : byte) :
  a <> b ->
  lexicographic (p ++ a :: l') (p ++ b :: r')
  = Z.sgn (byte_value a - byte_value b).
Proof.
  intros Hab. induction p as [|x p IH]; cbn [lexicographic app].
  - destruct (Z.eqb_spec (byte_value a) (byte_value b)) as [E|_];
      [|reflexivity].
    exfalso. now apply Hab, byte_value_inj.
  - now rewrite Z.eqb_refl.
Qed.

(** [db_default_compare] on two byte strings with their lengths computes the
    lexicographic order. *)
Lemma db_default_compare_is_lexicographic (l r : list byte) :
  db_default_compare l (Z.of_nat (length l)) r (Z.of_nat (length r))
  = lexicographic l r.
Proof.
  destruct (byte_strings_compare l r)
    as [-> | [(t & Ht & ->) | [(t & Ht & ->) |
         (p & a & b & l' & r' & Hab & -> & ->)]]].
  - now rewrite db_default_compare_equal, lexicographic_self.
  - now rewrite db_default_compare_shorter_lhs, lexicographic_prefix_l.
  - now rewrite db_default_compare_shorter_rhs, lexicographic_prefix_r.
  - now rewrite db_default_compare_difference, lexicographic_difference.
Qed.

Lemma lexicographic_antisymmetric (l r : list byte) :
  lexicographic r l = - lexicographic l r.
Proof.
  revert r. induction l as [|a l IH]; intros [|b r]; cbn [lexicographic];
    try reflexivity.
  rewrite (Z.eqb_sym (byte_value b)).
  destruct (byte_value a =? byte_value b); [apply IH|].
  rewrite <- Z.sgn_opp. f_equal. lia.
Qed.

Lemma lexicographic_range (l r : list byte) :
  lexicographic l r = -1 \/ lexicographic l r = 0 \/ lexicographic l r = 1.
Proof.
  revert r. induction l as [|a l IH]; intros [|b r]; cbn [lexicographic];
    auto.
  destruct (byte_value a =? byte_value b); [apply IH|].
  destruct (Z.sgn_spec (byte_value a - byte_value b))
    as [[_ ->] | [[_ ->] | [_ ->]]]; auto.
Qed.

Lemma lexicographic_transitive (a b c : list byte) :
  lexicographic a b <= 0 -> lexicographic b c <= 0 ->
  lexicographic a c <= 0 /\
  (lexicographic a c = 0 ->
   lexicographic a b = 0 /\ lexicographic b c = 0).
Proof.
  revert b c. induction a as [|x a IH]; intros [|y b] [|z c];
    cbn [lexicographic]; try lia.
  destruct (Z.eqb_spec (byte_value x) (byte_value y)) as [Exy|Nxy];
    destruct (Z.eqb_spec (byte_value y) (byte_value z)) as [Eyz|Nyz];
    destruct (Z.eqb_spec (byte_value x) (byte_value z)) as [Exz|Nxz];
    try lia; try apply IH; lia.
Qed.

(** Swapping the two keys negates the answer of [db_default_compare]. *)
Theorem db_default_compare_antisymmetric :
  forall lhs rhs : list byte,
    db_default_compare rhs (Z.of_nat (length rhs))
                       lhs (Z.of_nat (length lhs))
    = - db_default_compare lhs (Z.of_nat (length lhs))
                           rhs (Z.of_nat (length rhs)).
Proof.
  intros lhs rhs. rewrite !db_default_compare_is_lexicographic.
  apply lexicographic_antisymmetric.
Qed.

(** [db_default_compare] orders byte strings transitively: from "not
    greater" twice follows "not greater", and "lesser" as soon as one of the
    two steps is "lesser". *)
Theorem db_default_compare_transitive :
  forall a b c : list byte,
    let cmp := fun l r : list byte =>
      db_default_compare l (Z.of_nat (length l)) r (Z.of_nat (length r)) in
    cmp a b <= 0 -> cmp b c <= 0 ->
    cmp a c <= 0 /\ (cmp a b = -1 \/ cmp b c = -1 -> cmp a c = -1).
Proof.
  intros a b c cmp. subst cmp. cbv beta.
  rewrite !db_default_compare_is_lexicographic. intros Hab Hbc.
  destruct (lexicographic_transitive a b c Hab Hbc) as [Hle Hz].
  split; [exact Hle|].
  destruct (lexicographic_range a c) as [E | [E | E]]; [tauto | | lia].
  destruct (Hz E). lia.
Qed.

Lemma db_default_compare_transitive_witness :
  db_default_compare [x61] 1 [x61; x62; x63] 3 = -1.
Proof.
  apply (db_default_compare_transitive [x61] [x61; x62] [x61; x62; x63]).
  - vm_compute. discriminate.
  - vm_compute. discriminate.
  - left. reflexivity.
Defined.

(** ** db.c: what the default comparisons read *)

Lemma memcmp_take (l r : list byte) (n a b : nat) :
  (n <= a)%nat -> (n <= b)%nat ->
  memcmp (take a l) (take b r) n = memcmp l r n.
Proof.
  revert l r a b. induction n as [|n IH]; intros l r a b Ha Hb;
    [reflexivity|].
  destruct a as [|a]; [lia|]. destruct b as [|b]; [lia|].
  destruct l as [|x l]; [reflexivity|].
  destruct r as [|y r]; [reflexivity|].
  cbn [take memcmp]. rewrite IH by lia. reflexivity.
Qed.

(** [db_default_compare] reads no byte of a key beyond its stated length:
    the answer is the same on buffers cut off there. *)
Theorem db_default_compare_reads_lengths :
  forall (lhs rhs : list byte) (lhs_length rhs_length : Z),
    db_default_compare (take (Z.to_nat lhs_length) lhs) lhs_length
                       (take (Z.to_nat rhs_length) rhs) rhs_length
    = db_default_compare lhs lhs_length rhs rhs_length.
Proof.
  intros lhs rhs ll rl. unfold db_default_compare.
  destruct (Z.ltb_spec ll rl); [|destruct (Z.ltb_spec rl ll)];
    rewrite memcmp_take by lia; reflexivity.
Qed.

Lemma memcmp_zero_take (l r : list byte) (n : nat) :
  (n <= length l)%nat -> (n <= length r)%nat ->
  memcmp l r n = 0 <-> take n l = take n r.
Proof.
  revert l r. induction n as [|n IH]; intros l r Hl Hr.
  - rewrite !take_0. cbn [memcmp]. tauto.
  - destruct l as [|x l]; [cbn [length] in Hl; lia|].
    destruct r as [|y r]; [cbn [length] in Hr; lia|].
    cbn [length] in Hl, Hr. cbn [memcmp take].
    destruct (Z.eqb_spec (byte_value x) (byte_value y)) as [E|N].
    + apply byte_value_inj in E. subst y.
      rewrite IH by lia. split; [now intros -> | now intros [=]].
    + split; [lia|]. intros [= -> _]. contradiction.
Qed.

(** Once [memcmp] has found a difference, comparing more bytes finds the
    same one. *)
Lemma memcmp_decided (l r : list byte) (n n' : nat) :
  memcmp l r n <> 0 -> (n <= n')%nat -> memcmp l r n' = memcmp l r n.
Proof.
  revert l r n'. induction n as [|n IH]; intros l r n' Hne Hle;
    [now contradiction Hne|].
  destruct n' as [|n']; [lia|].
  destruct l as [|x l]; [now contradiction Hne|].
  destruct r as [|y r]; [now contradiction Hne|].
  cbn [memcmp] in *.
  destruct (byte_value x =? byte_value y); [apply IH; [exact Hne|lia]|].
  reflexivity.
Qed.

Section PrefixCompareProperties.

Context {X : externals}.

(** On the stored prefixes of two keys, [db_default_prefix_compare] asks for
    the full keys exactly when the prefixes agree on their common length;
    every other answer is the answer [db_default_compare] gives on the full
    keys. *)
Theorem db_default_prefix_compare_decides :
  forall (lhs rhs : list byte) (lhs_length rhs_length : Z),
    externals_ok X ->
    0 <= lhs_length <= Z.of_nat (length lhs) ->
    0 <= rhs_length <= Z.of_nat (length rhs) ->
    let n := Z.to_nat (Z.min lhs_length rhs_length) in
    let cmp :=
      db_default_prefix_compare
        (take (Z.to_nat lhs_length) lhs) lhs_length (Z.of_nat (length lhs))
        (take (Z.to_nat rhs_length) rhs) rhs_length (Z.of_nat (length rhs)) in
    (cmp = HAM_PREFIX_REQUEST_FULLKEY <-> take n lhs = take n rhs) /\
    (cmp <> HAM_PREFIX_REQUEST_FULLKEY ->
     cmp = db_default_compare lhs (Z.of_nat (length lhs))
                              rhs (Z.of_nat (length rhs))).
Proof.
  intros lhs rhs ll rl Hok Hl Hr n cmp.
  destruct (sentinel_not_result X Hok) as (S1 & S2 & S3).
  assert (Hcmp : cmp =
            let m := memcmp lhs rhs n in
            if m <? 0 then -1 else if m >? 0 then 1
            else HAM_PREFIX_REQUEST_FULLKEY).
  { subst cmp n. unfold db_default_prefix_compare.
    replace (if ll <? rl then ll else rl) with (Z.min ll rl)
      by (destruct (Z.ltb_spec ll rl); lia).
    rewrite memcmp_take by lia. reflexivity. }
  pose proof (memcmp_zero_take lhs rhs n ltac:(lia) ltac:(lia)) as Hz.
  cbv zeta in Hcmp. split.
  - rewrite <- Hz, Hcmp.
    destruct (Z.ltb_spec (memcmp lhs rhs n) 0);
      [|destruct (Z.gtb_spec (memcmp lhs rhs n) 0)]; split; intros; lia.
  - intros Hne.
    assert (Hm : memcmp lhs rhs n <> 0).
    { intros E. apply Hne. rewrite Hcmp, E. reflexivity. }
    unfold db_default_compare. rewrite !Nat2Z.id.
    rewrite (memcmp_decided lhs rhs n (length lhs)) by (assumption || lia).
    rewrite (memcmp_decided lhs rhs n (length rhs)) by (assumption || lia).
    rewrite Hcmp.
    destruct (Z.ltb_spec (memcmp lhs rhs n) 0);
      [|destruct (Z.gtb_spec (memcmp lhs rhs n) 0); [|lia]];
      repeat destruct (_ <? _); reflexivity.
Qed.

End PrefixCompareProperties.

Lemma db_default_prefix_compare_decides_witness :
  @db_default_prefix_compare (sample_externals None no_node)
    [x61; x62] 2 3 [x61; x63] 2 4
  = db_default_compare [x61; x62; x7a] 3 [x61; x63; x7a; x7a] 4.
Proof.
  refine (proj2 (@db_default_prefix_compare_decides
                   (sample_externals None no_node)
                   [x61; x62; x7a] [x61; x63; x7a; x7a] 2 2
                   (sample_externals_ok None no_node) _ _) _).
  - vm_compute. split; discriminate.
  - vm_compute. split; discriminate.
  - vm_compute. discriminate.
Defined.

(** ** db.c: comparing keys of an in-memory database *)

Lemma allocated_app (e1 e2 : list event) :
  allocated (e1 ++ e2) = allocated e1 ++ allocated e2.
Proof. apply omap_app. Qed.

Lemma freed_app (e1 e2 : list event) :
  freed (e1 ++ e2) = freed e1 ++ freed e2.
Proof. apply omap_app. Qed.

Section CompareInMemory.

Context {X : externals}.

(** In an in-memory database the loading step of a key reads the blob store
    and allocates at most one block; it frees nothing and never leaves by
    [return]. *)
Lemma load_key_in_memory (s : state) (flags : Z) (key : list byte)
    (key_length : Z) :
  flag_set (db_get_flags (st_db s)) HAM_IN_MEMORY_DB = true ->
  let r := load_key flags key key_length s in
  exists evs,
    extends s (snd r) evs /\ freed evs = [] /\
    db_get_flags (st_db (snd r)) = db_get_flags (st_db s) /\
    match fst r with
    | KeyInline => evs = []
    | KeyAllocated block => length <$> allocated evs = [length block]
    | KeyBail => allocated evs = []
    | _ => False
    end.
Proof.
  destruct s as [db mem os blobs trace]. cbn [st_db]. intros Hmem.
  cbv zeta. remember (load_key flags key key_length _) as res eqn:Hres.
  unfold load_key, run_extkey_cache_insert, blob_read, ham_mem_alloc,
    next_mem, emit, db_set_error, put_db, get_db, bind, ret in Hres.
  cbn -[key_blobid flag_set status_is_error] in Hres.
  rewrite Hmem in Hres.
  cbn -[key_blobid flag_set status_is_error] in Hres.
  rewrite (bool_decide_eq_true_2 (HAM_KEY_NOT_FOUND = HAM_KEY_NOT_FOUND)
             eq_refl) in Hres.
  cbn -[key_blobid flag_set status_is_error] in Hres.
  split_run Hres.
  all: subst res; cbn [fst snd st_db db_with_error db_get_flags].
  all: first [ exists []; unfold extends; cbn [st_trace];
               rewrite app_nil_r; repeat split; reflexivity
             | eexists; unfold extends; cbn [st_trace];
               split; [reflexivity|]; repeat split;
               cbn; now rewrite !memcpy_length ].
Qed.

Ltac split_compare H :=
  repeat (match type of H with
          | context [match ?x with _ => _ end] =>
              lazymatch x with
              | context [match _ with _ => _ end] => fail
              | _ => destruct x eqn:?
              end
          end;
          cbn -[load_key flag_set status_is_error] in H).

Ltac use_load Hmem :=
  match goal with
  | E : load_key ?f ?k ?l ?s = (?a, ?s') |- _ =>
      let H := fresh "Hload" in
      assert (H := load_key_in_memory s f k l);
      cbv zeta in H; rewrite E in H;
      cbn [fst snd st_db db_with_error db_get_flags] in H;
      specialize (H ltac:(first [exact Hmem | congruence]));
      destruct H as (? & ? & ? & ? & ?); clear E
  end.

Ltac trace_of_run :=
  cbn [st_trace];
  repeat match goal with
         | H : extends _ ?s _ |- context [st_trace ?s] =>
             rewrite H; cbn [st_trace]
         end;
  rewrite <- ?app_assoc.

(** In an in-memory database [db_compare_keys] gives back every block it
    was handed, on every path, failures included: the blocks freed match
    the blocks allocated in number, order and size. *)
Theorem db_compare_keys_in_memory_frees_blocks :
  forall (s : state) (lhs_flags : Z) (lhs : list byte) (lhs_length : Z)
         (rhs_flags : Z) (rhs : list byte) (rhs_length : Z),
    flag_set (db_get_flags (st_db s)) HAM_IN_MEMORY_DB = true ->
    let res := db_compare_keys lhs_flags lhs lhs_length
                               rhs_flags rhs rhs_length s in
    let evs := new_events s (snd res) in
    length <$> freed evs = length <$> allocated evs.
Proof.
  intros [db mem os blobs trace] lf lhs ll rf rhs rl Hmem.
  cbn [st_db] in Hmem. cbv zeta.
  remember (db_compare_keys lf lhs ll rf rhs rl _) as res eqn:Hres.
  unfold db_compare_keys, db_set_error, put_db, get_db, bind, ret in Hres.
  cbn -[load_key flag_set status_is_error free_loaded] in Hres.
  rewrite Hmem in Hres.
  cbn -[load_key flag_set status_is_error free_loaded] in Hres.
  split_compare Hres.
  all: subst res; cbn [snd].
  all: repeat use_load Hmem.
  all: try contradiction.
  all: first [ rewrite (new_events_app _ _ [])
                 by (trace_of_run; now rewrite app_nil_r)
             | erewrite new_events_app by (trace_of_run; reflexivity) ].
  all: rewrite ?freed_app, ?allocated_app, ?fmap_app.
  all: subst.
  all: repeat match goal with
              | H : freed _ = _ |- _ => rewrite H; clear H
              | H : allocated _ = _ |- _ => rewrite H; clear H
              | H : length <$> allocated _ = _ |- _ => rewrite H; clear H
              end.
  all: reflexivity.
Qed.

End CompareInMemory.

Lemma db_compare_keys_in_memory_frees_blocks_witness :
  let X := sample_externals None no_node in
  let res := db_compare_keys 8 long_key_slot 64 8 long_key_slot 64
               memory_state in
  length <$> freed (new_events memory_state (snd res))
  = length <$> allocated (new_events memory_state (snd res)).
Proof.
  intros X res.
  apply (@db_compare_keys_in_memory_frees_blocks X memory_state
           8 long_key_slot 64 8 long_key_slot 64).
  reflexivity.
Defined.

(** [db_default_compare] on buffers that agree on the stated lengths. *)
Lemma db_default_compare_cut (l l' r r' : list byte) (ll rl : Z) :
  take (Z.to_nat ll) l = take (Z.to_nat ll) l' ->
  take (Z.to_nat rl) r = take (Z.to_nat rl) r' ->
  db_default_compare l ll r rl = db_default_compare l' ll r' rl.
Proof.
  intros Hl Hr. unfold db_default_compare.
  assert (H : forall n, (n <= Z.to_nat ll)%nat -> (n <= Z.to_nat rl)%nat ->
                        memcmp l r n = memcmp l' r' n).
  { intros n H1 H2.
    rewrite <- (memcmp_take l r n _ _ H1 H2), Hl, Hr.
    now apply memcmp_take. }
  destruct (Z.ltb_spec ll rl); [|destruct (Z.ltb_spec rl ll)];
    rewrite H by lia; reflexivity.
Qed.

(** A difference within the stored prefixes decides the comparison of the
    full keys. *)
Lemma default_prefix_decides (l r full_l full_r : list byte)
    (pl pr ll rl : Z) :
  0 <= pl <= ll -> 0 <= pr <= rl ->
  take (Z.to_nat pl) l = take (Z.to_nat pl) full_l ->
  take (Z.to_nat pr) r = take (Z.to_nat pr) full_r ->
  let m := memcmp l r (Z.to_nat (if pl <? pr then pl else pr)) in
  m <> 0 ->
  db_default_compare full_l ll full_r rl = if m <? 0 then -1 else 1.
Proof.
  intros Hpl Hpr Hl Hr m Hm.
  set (n := Z.to_nat (if pl <? pr then pl else pr)) in *.
  assert (Hn : (n <= Z.to_nat pl)%nat /\ (n <= Z.to_nat pr)%nat)
    by (subst n; destruct (Z.ltb_spec pl pr); lia).
  assert (Em : m = memcmp full_l full_r n).
  { subst m. rewrite <- (memcmp_take l r n _ _ (proj1 Hn) (proj2 Hn)), Hl, Hr.
    now apply memcmp_take. }
  rewrite Em in Hm. unfold db_default_compare.
  rewrite (memcmp_decided full_l full_r n (Z.to_nat ll)) by (assumption || lia).
  rewrite (memcmp_decided full_l full_r n (Z.to_nat rl)) by (assumption || lia).
  rewrite <- Em in *.
  destruct (Z.ltb_spec m 0); [|destruct (Z.gtb_spec m 0); [|lia]];
    repeat destruct (_ <? _); reflexivity.
Qed.

Section CompareFullKeys.

Context {X : externals}.

(** The loading step in an in-memory database whose blob store has the
    key's record and whose heap does not run out: the database and the blob
    store stay as they are, and the key pointer then holds the full key on
    the key's length. *)
Lemma load_key_in_memory_full (s : state) (flags : Z) (key : list byte)
    (key_length : Z) :
  flag_set (db_get_flags (st_db s)) HAM_IN_MEMORY_DB = true ->
  sizeof_ham_offset_t <= db_get_keysize (st_db s) ->
  Forall is_Some (st_mem s) ->
  key_in_store s flags key key_length ->
  let r := load_key flags key key_length s in
  st_db (snd r) = st_db s /\
  st_blob_read (snd r) = st_blob_read s /\
  Forall is_Some (st_mem (snd r)) /\
  (fst r = KeyInline \/ exists block, fst r = KeyAllocated block) /\
  take (Z.to_nat key_length) (key_pointer (fst r) key)
  = take (Z.to_nat key_length) (full_key s flags key).
Proof.
  destruct s as [db mem os blobs trace].
  unfold key_in_store, full_key. cbn [st_db st_mem st_blob_read].
  intros Hmem Hks Halloc Hkey. cbv zeta.
  destruct (flag_set flags KEY_IS_EXTENDED) eqn:Hext.
  - destruct Hkey as (record & Hread & Hlen & Hpre & Hmax & Hkl).
    assert (Hrun : exists block s',
               load_key flags key key_length
                 (mk_state db mem os blobs trace)
               = (KeyAllocated block, s') /\ st_db s' = db /\
               st_blob_read s' = blobs /\ Forall is_Some (st_mem s')).
    { remember (load_key flags key key_length _) as r eqn:Hr.
      unfold load_key, blob_read, ham_mem_alloc, next_mem, emit,
        db_set_error, put_db, get_db, bind, ret in Hr.
      cbn -[key_blobid flag_set status_is_error] in Hr.
      rewrite Hext, Hmem in Hr.
      cbn -[key_blobid flag_set status_is_error] in Hr.
      rewrite (bool_decide_eq_true_2 (HAM_KEY_NOT_FOUND = HAM_KEY_NOT_FOUND)
                 eq_refl) in Hr.
      cbn -[key_blobid flag_set status_is_error] in Hr.
      rewrite Hread in Hr.
      cbn -[key_blobid flag_set] in Hr.
      destruct mem as [|a mem].
      - cbn -[key_blobid flag_set] in Hr. subst r.
        do 2 eexists. repeat split. constructor.
      - apply Forall_cons in Halloc as [[f ->] Hrest].
        cbn -[key_blobid flag_set] in Hr. subst r.
        do 2 eexists. repeat split. exact Hrest. }
    destruct Hrun as (block & s' & Hr & Hdb & Hblobs & Halloc').
    rewrite Hr. cbn [fst snd key_pointer]. repeat split; try assumption.
    + right. now exists block.
    + destruct (load_key_assembly_buffer _ _ _ _ _ _ Hr) as [_ Hasm].
      cbn [st_db st_blob_read] in Hasm. rewrite Hread in Hasm.
      cbn [snd] in Hasm.
      destruct (Hasm ltac:(lia) Hlen Hmax) as [Htake _].
      rewrite Hread. cbn [snd]. rewrite Hkl, Htake.
      symmetry. apply take_ge. rewrite length_app, length_take. lia.
  - unfold load_key, get_db, bind, ret.
    cbn -[flag_set]. rewrite Hext. cbn [fst snd key_pointer st_db st_mem
                                        st_blob_read].
    repeat split; try assumption. now left.
Qed.

Lemma key_in_store_same (s s' : state) (flags : Z) (key : list byte)
    (key_length : Z) :
  st_db s' = st_db s -> st_blob_read s' = st_blob_read s ->
  key_in_store s flags key key_length ->
  key_in_store s' flags key key_length.
Proof. unfold key_in_store. now intros -> ->. Qed.

Lemma full_key_same (s s' : state) (flags : Z) (key : list byte) :
  st_db s' = st_db s -> st_blob_read s' = st_blob_read s ->
  full_key s' flags key = full_key s flags key.
Proof. unfold full_key. now intros -> ->. Qed.

(** Both loading steps, one after the other. *)
Lemma load_both_keys (s : state) (lhs_flags : Z) (lhs : list byte)
    (lhs_length : Z) (rhs_flags : Z) (rhs : list byte) (rhs_length : Z) :
  flag_set (db_get_flags (st_db s)) HAM_IN_MEMORY_DB = true ->
  sizeof_ham_offset_t <= db_get_keysize (st_db s) ->
  Forall is_Some (st_mem s) ->
  key_in_store s lhs_flags lhs lhs_length ->
  key_in_store s rhs_flags rhs rhs_length ->
  exists plhs s1 prhs s2,
    load_key lhs_flags lhs lhs_length s = (plhs, s1) /\
    load_key rhs_flags rhs rhs_length s1 = (prhs, s2) /\
    st_db s2 = st_db s /\
    (plhs = KeyInline \/ exists block, plhs = KeyAllocated block) /\
    (prhs = KeyInline \/ exists block, prhs = KeyAllocated block) /\
    take (Z.to_nat lhs_length) (key_pointer plhs lhs)
    = take (Z.to_nat lhs_length) (full_key s lhs_flags lhs) /\
    take (Z.to_nat rhs_length) (key_pointer prhs rhs)
    = take (Z.to_nat rhs_length) (full_key s rhs_flags rhs).
Proof.
  intros Hmem Hks Halloc Hl Hr.
  destruct (load_key lhs_flags lhs lhs_length s) as [plhs s1] eqn:E1.
  pose proof (load_key_in_memory_full s lhs_flags lhs lhs_length
                Hmem Hks Halloc Hl) as H1.
  cbv zeta in H1. rewrite E1 in H1. cbn [fst snd] in H1.
  destruct H1 as (Hdb1 & Hblobs1 & Halloc1 & Hcase1 & Htake1).
  destruct (load_key rhs_flags rhs rhs_length s1) as [prhs s2] eqn:E2.
  pose proof (load_key_in_memory_full s1 rhs_flags rhs rhs_length) as H2.
  cbv zeta in H2. rewrite E2, Hdb1 in H2. cbn [fst snd] in H2.
  destruct (H2 Hmem Hks Halloc1
              (key_in_store_same s s1 _ _ _ Hdb1 Hblobs1 Hr))
    as (Hdb2 & Hblobs2 & _ & Hcase2 & Htake2).
  exists plhs, s1, prhs, s2. repeat split; try assumption.
  rewrite Htake2. f_equal. now apply full_key_same.
Qed.


(** The prefix a key slot shows is the beginning of the full key. *)
Lemma key_prefix_of_full_key (s : state) (flags : Z) (key : list byte)
    (key_length : Z) :
  sizeof_ham_offset_t <= db_get_keysize (st_db s) ->
  key_in_store s flags key key_length ->
  let pl := if flag_set flags KEY_IS_EXTENDED
            then db_get_keysize (st_db s) - sizeof_ham_offset_t
            else key_length in
  0 <= pl <= key_length /\
  take (Z.to_nat pl) key = take (Z.to_nat pl) (full_key s flags key).
Proof.
  unfold key_in_store, full_key. intros Hks Hkey. cbv zeta in *.
  destruct (flag_set flags KEY_IS_EXTENDED); [|split; [lia|reflexivity]].
  destruct Hkey as (record & _ & Hlen & Hpre & _ & ->).
  split; [lia|].
  rewrite take_app_le by (rewrite length_take; lia).
  now rewrite take_take, Nat.min_id.
Qed.

Ltac full_path Hres E1 E2 Hc1 Hc2 Ht1 Ht2 Hdb :=
  rewrite E1 in Hres;
  destruct Hc1 as [-> | [? ->]];
  cbn -[load_key flag_set db_default_prefix_compare full_key] in Hres;
  rewrite E2 in Hres;
  destruct Hc2 as [-> | [? ->]];
  cbn -[load_key flag_set db_default_prefix_compare full_key] in Hres;
  match type of Hres with ?r = _ => subst r end;
  cbn [fst snd st_db];
  (split;
   [apply db_default_compare_cut; [exact Ht1 | exact Ht2]
   |rewrite Hdb; reflexivity]).

(** In an in-memory database with the default comparison (and the default
    prefix comparison or none), a blob store that has the records of the
    extended keys and a heap that does not run out, [db_compare_keys]
    answers what [db_default_compare] answers on the two full keys, whether
    the prefixes decide or the keys are assembled, and leaves the error slot
    at [HAM_SUCCESS]. *)
Theorem db_compare_keys_in_memory_full_keys :
  forall (s : state) (lhs_flags : Z) (lhs : list byte) (lhs_length : Z)
         (rhs_flags : Z) (rhs : list byte) (rhs_length : Z),
    let db := st_db s in
    flag_set (db_get_flags db) HAM_IN_MEMORY_DB = true ->
    db_get_compare_func db = db_default_compare ->
    (db_get_prefix_compare_func db = None \/
     db_get_prefix_compare_func db = Some default_prefix_compare_func) ->
    sizeof_ham_offset_t <= db_get_keysize db <= ham_size_max ->
    Forall is_Some (st_mem s) ->
    key_in_store s lhs_flags lhs lhs_length ->
    key_in_store s rhs_flags rhs rhs_length ->
    let res := db_compare_keys lhs_flags lhs lhs_length
                               rhs_flags rhs rhs_length s in
    fst res = db_default_compare (full_key s lhs_flags lhs) lhs_length
                                 (full_key s rhs_flags rhs) rhs_length /\
    db_get_error (st_db (snd res)) = HAM_SUCCESS.
Proof.
  intros [db mem os blobs trace] lf lhs ll rf rhs rl db0. subst db0.
  cbn [st_db st_mem]. intros Hmem Hfoo Hpre Hks Halloc Hl Hr.
  set (s1 := mk_state (db_with_error db HAM_SUCCESS) mem os blobs trace).
  destruct (load_both_keys s1 lf lhs ll rf rhs rl Hmem (proj1 Hks) Halloc
              (key_in_store_same _ s1 _ _ _ eq_refl eq_refl Hl)
              (key_in_store_same _ s1 _ _ _ eq_refl eq_refl Hr))
    as (plhs & s2 & prhs & s3 & E1 & E2 & Hdb & Hc1 & Hc2 & Ht1 & Ht2).
  destruct (key_prefix_of_full_key (mk_state db mem os blobs trace)
              lf lhs ll (proj1 Hks) Hl) as [Hpl Htl].
  destruct (key_prefix_of_full_key (mk_state db mem os blobs trace)
              rf rhs rl (proj1 Hks) Hr) as [Hpr Htr].
  cbn [st_db] in Hpl, Htl, Hpr, Htr.
  remember (db_compare_keys lf lhs ll rf rhs rl _) as res eqn:Hres.
  unfold db_compare_keys, db_set_error, put_db, get_db, bind, ret in Hres.
  cbn -[load_key flag_set free_loaded db_default_prefix_compare full_key]
    in Hres.
  fold s1 in Hres. rewrite Hmem, Hfoo in Hres.
  cbn -[load_key flag_set free_loaded db_default_prefix_compare full_key]
    in Hres.
  destruct (negb (flag_set lf KEY_IS_EXTENDED)
            && negb (flag_set rf KEY_IS_EXTENDED)) eqn:Hboth.
  - apply andb_true_iff in Hboth as [H1 H2].
    apply negb_true_iff in H1, H2. subst res. cbn [fst snd st_db].
    unfold full_key. rewrite H1, H2. split; reflexivity.
  - destruct Hpre as [Hp|Hp]; rewrite Hp in Hres;
      cbn -[load_key flag_set free_loaded db_default_prefix_compare full_key]
        in Hres.
    + rewrite Z.eqb_refl in Hres.
      full_path Hres E1 E2 Hc1 Hc2 Ht1 Ht2 Hdb.
    + rewrite (ham_size_wrap_small
                 (db_get_keysize db - sizeof_ham_offset_t)) in Hres
        by (unfold sizeof_ham_offset_t in *; lia).
      set (pl := if flag_set lf KEY_IS_EXTENDED
                 then db_get_keysize db - sizeof_ham_offset_t else ll) in *.
      set (pr := if flag_set rf KEY_IS_EXTENDED
                 then db_get_keysize db - sizeof_ham_offset_t else rl) in *.
      destruct (db_default_prefix_compare lhs pl ll rhs pr rl
                =? HAM_PREFIX_REQUEST_FULLKEY) eqn:Hc.
      * full_path Hres E1 E2 Hc1 Hc2 Ht1 Ht2 Hdb.
      * subst res. cbn [fst snd st_db]. split; [|reflexivity].
        apply Z.eqb_neq in Hc. unfold db_default_prefix_compare in *.
        cbv zeta in *.
        set (m := memcmp lhs rhs (Z.to_nat (if pl <? pr then pl else pr)))
          in *.
        assert (Hm : m <> 0).
        { intros E. apply Hc. rewrite E. reflexivity. }
        rewrite (default_prefix_decides lhs rhs _ _ pl pr ll rl
                   Hpl Hpr Htl Htr Hm).
        fold m. destruct (Z.ltb_spec m 0); [reflexivity|].
        destruct (Z.gtb_spec m 0); [reflexivity|lia].
Qed.

End CompareFullKeys.

Lemma db_compare_keys_in_memory_full_keys_witness :
  let X := sample_externals None no_node in
  fst (db_compare_keys 8 long_key_slot 64 0 (replicate 9 x61) 9 memory_state)
  = db_default_compare (replicate 64 x61) 64 (replicate 9 x61) 9.
Proof.
  intros X.
  refine (proj1 (@db_compare_keys_in_memory_full_keys X memory_state
                   8 long_key_slot 64 0 (replicate 9 x61) 9 _ _ _ _ _ _ _)).
  - reflexivity.
  - reflexivity.
  - right. reflexivity.
  - vm_compute. split; discriminate.
  - repeat constructor; eexists; reflexivity.
  - exists (mk_record 56 long_key_tail). vm_compute.
    repeat split; discriminate.
  - vm_compute. split; discriminate.
Defined.

(** ** db.c: freeing a page and its extended keys *)

Lemma blob_frees_app (e1 e2 : list event) :
  blob_frees (e1 ++ e2) = blob_frees e1 ++ blob_frees e2.
Proof. apply omap_app. Qed.

Lemma db_with_extkey_cache_id (db : ham_db_t) :
  db_with_extkey_cache db (db_get_extkey_cache db) = db.
Proof. now destruct db. Qed.

Section FreePageProperties.

Context {X : externals}.

(** The loop over the key slots in an in-memory database: one [blob_free]
    per extended key, in slot order, and nothing else. *)
Lemma scrub_extkeys_in_memory (keys : list key_t) (s : state) :
  flag_set (db_get_flags (st_db s)) HAM_IN_MEMORY_DB = true ->
  scrub_extkeys keys s
  = (tt, mk_state (st_db s) (st_mem s) (st_os s) (st_blob_read s)
           (st_trace s ++ map EvBlobFree (extended_blobids (st_db s) keys))).
Proof.
  revert s. induction keys as [|bte rest IH]; intros s Hmem.
  - unfold extended_blobids. cbn. rewrite app_nil_r. now destruct s.
  - cbn [scrub_extkeys]. unfold bind, get_db, blob_free, emit, ret.
    unfold extended_blobids. cbn [List.filter].
    destruct (flag_set (key_get_flags bte) KEY_IS_EXTENDED).
    + rewrite Hmem, IH by exact Hmem. cbn [st_db st_mem st_os st_blob_read
                                            st_trace map].
      unfold extended_blobids. now rewrite <- app_assoc.
    + rewrite IH by exact Hmem. reflexivity.
Qed.

(** The same loop in a database on disk that has an extended-key cache: the
    cache after it is the cache after an [extkey_cache_remove] for each
    extended key, and the events are the frees of the entries these calls
    unlinked; nothing else changes. *)
Lemma scrub_extkeys_on_disk (keys : list key_t) (s : state)
    (c : extkey_cache_t) :
  flag_set (db_get_flags (st_db s)) HAM_IN_MEMORY_DB = false ->
  db_get_extkey_cache (st_db s) = Some c ->
  scrub_extkeys keys s
  = (tt, mk_state
           (db_with_extkey_cache (st_db s)
              (Some (run_ops (map OpRemove (extended_blobids (st_db s) keys))
                             c)))
           (st_mem s) (st_os s) (st_blob_read s)
           (st_trace s
            ++ map EvFreeExtkey
                 (removed_entries (extended_blobids (st_db s) keys) c))).
Proof.
  revert s c. induction keys as [|bte rest IH]; intros s c Hmem Hc.
  - unfold extended_blobids. cbn. rewrite <- Hc, db_with_extkey_cache_id.
    rewrite app_nil_r. now destruct s.
  - cbn [scrub_extkeys].
    unfold run_extkey_cache_remove, bind, get_db, put_db, ret, emit.
    unfold extended_blobids. cbn [List.filter].
    destruct (flag_set (key_get_flags bte) KEY_IS_EXTENDED).
    + rewrite Hmem, Hc. cbn [map removed_entries run_ops fold_left run_op].
      set (blobid := key_blobid (st_db s) (key_get_key bte)).
      destruct (chain_find blobid _) as [e|].
      all: cbv beta iota zeta.
      all: rewrite (IH _ (snd (extkey_cache_remove c blobid)))
             by (cbn; assumption || reflexivity).
      all: cbn [st_db st_mem st_os st_blob_read st_trace map].
      all: unfold extended_blobids.
      all: rewrite <- ?app_assoc.
      all: destruct s as [db mem os blobs trace], db; reflexivity.
    + rewrite (IH s c Hmem Hc). reflexivity.
Qed.

Lemma scrub_page_keys (page : ham_page_t) :
  scrub_page page = scrub_extkeys (scrubbed_keys page).
Proof.
  unfold scrub_page, scrubbed_keys.
  destruct ((page_get_type page =? PAGE_TYPE_B_ROOT)
            || (page_get_type page =? PAGE_TYPE_B_INDEX)); [|reflexivity].
  now destruct (btree_node_is_leaf (ham_page_get_btree_node page)).
Qed.

End FreePageProperties.

(** A blob id without an entry stays without one under removals. *)
Lemma removes_keep_absent (ids : list Z) (cache : extkey_cache_t)
    (blobid : Z) :
  well_formed cache ->
  chain_find blobid
    (extkey_cache_get_bucket cache (my_calc_hash cache blobid)) = None ->
  let cache' := run_ops (map OpRemove ids) cache in
  chain_find blobid
    (extkey_cache_get_bucket cache' (my_calc_hash cache' blobid)) = None.
Proof.
  revert cache. induction ids as [|i ids IH]; intros cache Hwf Hnone;
    [exact Hnone|].
  cbn [map run_ops fold_left].
  apply (IH (run_op cache (OpRemove i))); [now apply run_op_well_formed|].
  destruct (Z.eq_dec i blobid) as [->|Hne].
  - cbn [run_op]. unfold extkey_cache_remove. rewrite Hnone. exact Hnone.
  - rewrite run_op_other_keeps by assumption. exact Hnone.
Qed.

(** What a fetch answers after a series of removals: nothing for the blob
    ids removed, and for every other blob id what it answered before. *)
Lemma removes_fetch (ids : list Z) (cache : extkey_cache_t) (blobid : Z) :
  unique_ids cache ->
  (blobid ∈ ids ->
   extkey_cache_fetch (run_ops (map OpRemove ids) cache) blobid
   = (HAM_KEY_NOT_FOUND, None)) /\
  (blobid ∉ ids ->
   extkey_cache_fetch (run_ops (map OpRemove ids) cache) blobid
   = extkey_cache_fetch cache blobid).
Proof.
  intros Hu. split.
  - revert cache Hu. induction ids as [|i ids IH]; intros cache Hu Hin;
      [inversion Hin|].
    change (run_ops (map OpRemove (i :: ids)) cache)
      with (run_ops (map OpRemove ids) (run_op cache (OpRemove i))).
    assert (Hu' : unique_ids (run_op cache (OpRemove i)))
      by (apply (run_op_unique_ids _ (OpRemove i) Hu I)).
    destruct (Z.eq_dec blobid i) as [->|Hne].
    + unfold extkey_cache_fetch.
      rewrite (removes_keep_absent ids _ i (proj1 Hu')
                 (extkey_cache_remove_absent cache i Hu)).
      reflexivity.
    + apply elem_of_cons in Hin as [E|Hin]; [contradiction|].
      now apply (IH _ Hu').
  - intros Hnot.
    destruct (run_ops_other_keep (map OpRemove ids) cache blobid (proj1 Hu))
      as (_ & _ & Hfind).
    + apply Forall_forall. intros op Hop.
      apply list_elem_of_In, in_map_iff in Hop as (i & <- & Hi).
      cbn [op_blobid]. intros ->. apply Hnot. now apply list_elem_of_In.
    + unfold extkey_cache_fetch. now rewrite Hfind.
Qed.

(** *** The entries a series of removals unlinks *)

Lemma elem_of_entries (cache : extkey_cache_t) (e : extkey_t) :
  e ∈ entries cache <->
  exists (i : nat) (chain : list extkey_t),
    extkey_cache_buckets cache !! i = Some chain /\ e ∈ chain.
Proof.
  unfold entries. rewrite list_elem_of_In, in_concat. split.
  - intros (chain & Hc & He).
    apply list_elem_of_In, list_elem_of_lookup in Hc as [i Hi].
    exists i, chain. split; [exact Hi | now apply list_elem_of_In].
  - intros (i & chain & Hi & He). exists chain. split.
    + apply list_elem_of_In. eapply list_elem_of_lookup_2. exact Hi.
    + now apply list_elem_of_In.
Qed.

Lemma chain_find_some (blobid : Z) (chain : list extkey_t) (e : extkey_t) :
  chain_find blobid chain = Some e ->
  e ∈ chain /\ extkey_get_blobid e = blobid.
Proof.
  induction chain as [|a rest IH]; cbn [chain_find]; [discriminate|].
  destruct (Z.eqb_spec (extkey_get_blobid a) blobid) as [E|_].
  - intros [= <-]. split; [apply list_elem_of_here | exact E].
  - intros H. destruct (IH H) as [Hin Hid].
    split; [now apply list_elem_of_further | exact Hid].
Qed.

Lemma chain_unlink_elem (blobid : Z) (chain : list extkey_t) (e : extkey_t) :
  e ∈ chain_unlink blobid chain -> e ∈ chain.
Proof.
  induction chain as [|a rest IH]; cbn [chain_unlink]; [tauto|].
  destruct (extkey_get_blobid a =? blobid).
  - apply list_elem_of_further.
  - rewrite !elem_of_cons. tauto.
Qed.

Lemma chain_unlink_keeps (blobid : Z) (chain : list extkey_t)
    (e : extkey_t) :
  e ∈ chain -> extkey_get_blobid e <> blobid ->
  e ∈ chain_unlink blobid chain.
Proof.
  intros He Hne. induction chain as [|a rest IH]; [inversion He|].
  cbn [chain_unlink]. apply elem_of_cons in He.
  destruct (Z.eqb_spec (extkey_get_blobid a) blobid) as [E|_].
  - destruct He as [->|He]; [contradiction | exact He].
  - apply elem_of_cons. destruct He as [->|He]; [now left | right; auto].
Qed.

(** [extkey_cache_remove] unlinks nothing but entries of the blob id it is
    given. *)
Lemma entries_remove (cache : extkey_cache_t) (blobid : Z) (e : extkey_t) :
  well_formed cache ->
  let cache' := snd (extkey_cache_remove cache blobid) in
  (e ∈ entries cache' -> e ∈ entries cache) /\
  (e ∈ entries cache -> extkey_get_blobid e <> blobid -> e ∈ entries cache').
Proof.
  intros Hwf cache'. subst cache'.
  pose proof (my_calc_hash_in_range cache blobid Hwf) as Hh.
  destruct (extkey_cache_buckets cache
              !! Z.to_nat (my_calc_hash cache blobid))
    as [old|] eqn:Hold; [|apply lookup_ge_None in Hold; lia].
  unfold extkey_cache_remove, extkey_cache_get_bucket. rewrite Hold.
  cbn [default from_option id].
  destruct (chain_find blobid old) as [e0|]; [|cbn [snd]; tauto].
  rewrite !elem_of_entries.
  cbn [snd extkey_cache_set_usedsize extkey_cache_set_bucket
       extkey_cache_buckets].
  split.
  - intros (i & chain & Hi & He).
    apply list_lookup_insert_Some in Hi as [(<- & <- & _) | [_ Hi]].
    + exists (Z.to_nat (my_calc_hash cache blobid)), old.
      split; [exact Hold | eapply chain_unlink_elem; exact He].
    + now exists i, chain.
  - intros (i & chain & Hi & He) Hne.
    destruct (Nat.eq_dec (Z.to_nat (my_calc_hash cache blobid)) i)
      as [<-|Hi'].
    + rewrite Hold in Hi. injection Hi as <-.
      eexists _, _. split; [now apply list_lookup_insert_eq|].
      now apply chain_unlink_keeps.
    + exists i, chain. split; [|exact He].
      now rewrite list_lookup_insert_ne.
Qed.

(** Under the uniqueness invariant a series of removals unlinks exactly the
    entries that carry one of the blob ids, each once. *)
Lemma removed_entries_spec (ids : list Z) (cache : extkey_cache_t) :
  unique_ids cache ->
  NoDup (extkey_get_blobid <$> removed_entries ids cache) /\
  forall e,
    e ∈ removed_entries ids cache <->
    e ∈ entries cache /\ extkey_get_blobid e ∈ ids.
Proof.
  revert cache. induction ids as [|blobid ids IH]; intros cache Hu.
  { split; [constructor|]. intros e. cbn [removed_entries]. split.
    - intros H. inversion H.
    - intros [_ H]. inversion H. }
  pose proof Hu as [Hwf _].
  assert (Hu' : unique_ids (snd (extkey_cache_remove cache blobid)))
    by (apply (run_op_unique_ids _ (OpRemove blobid) Hu I)).
  destruct (IH _ Hu') as [Hnd Hspec].
  assert (Hgone : forall e,
             e ∈ removed_entries ids (snd (extkey_cache_remove cache blobid))
             -> extkey_get_blobid e <> blobid).
  { intros e He E. apply Hspec in He as [He _].
    apply (unique_ids_not_found _ blobid Hu'
             (extkey_cache_remove_absent cache blobid Hu)).
    apply list_elem_of_fmap. exists e. split; [symmetry; exact E | exact He]. }
  cbn [removed_entries].
  destruct (chain_find blobid _) as [e0|] eqn:Hfind.
  - destruct (chain_find_some _ _ _ Hfind) as [Hin0 Hid0].
    assert (He0 : e0 ∈ entries cache)
      by (apply list_elem_of_In,
            (bucket_entries cache (my_calc_hash cache blobid)),
            list_elem_of_In, Hin0).
    split.
    + rewrite fmap_cons. apply NoDup_cons. split; [|exact Hnd].
      intros Hin. apply list_elem_of_fmap in Hin as (e & E & He).
      apply (Hgone e He). congruence.
    + intros e. rewrite elem_of_cons, Hspec, elem_of_cons. split.
      * intros [-> | [He Hid]]; [split; [exact He0 | now left]|].
        split; [|now right].
        now apply (entries_remove cache blobid e Hwf).
      * intros [He [E | Hid]].
        -- left.
           destruct (unique_ids_entry_chain cache e Hu He) as [Hin Hnd'].
           pose proof (chain_find_NoDup e _ Hnd' Hin) as Hf.
           rewrite E, Hfind in Hf. now injection Hf.
        -- destruct (Z.eq_dec (extkey_get_blobid e) blobid) as [E|Hne].
           ++ left.
              destruct (unique_ids_entry_chain cache e Hu He) as [Hin Hnd'].
              pose proof (chain_find_NoDup e _ Hnd' Hin) as Hf.
              rewrite E, Hfind in Hf. now injection Hf.
           ++ right. split; [|exact Hid].
              now apply (entries_remove cache blobid e Hwf).
  - split; [exact Hnd|].
    intros e. rewrite Hspec, elem_of_cons. split.
    + intros [He Hid]. split; [|now right].
      now apply (entries_remove cache blobid e Hwf).
    + intros [He [E | Hid]].
      * exfalso.
        destruct (unique_ids_entry_chain cache e Hu He) as [Hin Hnd'].
        pose proof (chain_find_NoDup e _ Hnd' Hin) as Hf.
        rewrite E, Hfind in Hf. discriminate.
      * destruct (Z.eq_dec (extkey_get_blobid e) blobid) as [E|Hne].
        -- exfalso.
           destruct (unique_ids_entry_chain cache e Hu He) as [Hin Hnd'].
           pose proof (chain_find_NoDup e _ Hnd' Hin) as Hf.
           rewrite E, Hfind in Hf. discriminate.
        -- split; [|exact Hid].
           now apply (entries_remove cache blobid e Hwf).
Qed.

Lemma flag_set_lor (f p : Z) : p <> 0 -> flag_set (Z.lor f p) p = true.
Proof.
  intros Hp. unfold flag_set.
  replace (Z.land (Z.lor f p) p) with p.
  - now destruct (Z.eqb_spec p 0).
  - apply Z.bits_inj'. intros n _. rewrite Z.land_spec, Z.lor_spec.
    now destruct (Z.testbit f n), (Z.testbit p n).
Qed.

Lemma blob_frees_map (ids : list Z) : blob_frees (map EvBlobFree ids) = ids.
Proof.
  induction ids as [|i ids IH]; [reflexivity|].
  cbn [map]. change (blob_frees (EvBlobFree i :: map EvBlobFree ids))
    with (i :: blob_frees (map EvBlobFree ids)).
  now rewrite IH.
Qed.

Section FreePageTheorems.

Context {X : externals}.

(** What [db_free_page_struct] does to a page that is marked
    delete-pending: the key slots are not visited, so no blob is freed and
    the extended-key cache stays as it is. *)
Lemma db_free_page_struct_delete_pending (page : ham_page_t) (s : state) :
  flag_set (page_get_npers_flags page) PAGE_NPERS_DELETE_PENDING = true ->
  let s' := snd (db_free_page_struct page s) in
  blob_frees (new_events s s') = [] /\
  st_db s' = st_db s.
Proof.
  intros Hflag. destruct s as [db mem os blobs trace].
  unfold db_free_page_struct, ham_mem_free, os_munmap, next_os, emit,
    get_db, bind, ret.
  cbn -[flag_set new_events blob_frees]. rewrite Hflag.
  cbn -[flag_set new_events blob_frees].
  destruct (page_get_pers page);
    [destruct (flag_set (page_get_npers_flags page) PAGE_NPERS_MALLOC);
     [|destruct os]|].
  all: cbn -[flag_set new_events blob_frees]; split; [|reflexivity].
  all: erewrite new_events_app
         by (cbn [st_trace]; rewrite <- ?app_assoc; reflexivity).
  all: reflexivity.
Qed.

(** In an in-memory database [db_free_page] frees the blob of every
    extended key of a leaf once, in slot order, and marks the page
    delete-pending; [db_free_page_struct] on the marked page frees no blob
    again. *)
Theorem db_free_page_frees_blobs_once :
  forall (s : state) (page : ham_page_t),
    externals_ok X ->
    flag_set (db_get_flags (st_db s)) HAM_IN_MEMORY_DB = true ->
    let r := db_free_page page s in
    let s' := snd (db_free_page_struct (snd (fst r)) (snd r)) in
    blob_frees (new_events s (snd r))
    = extended_blobids (st_db s) (scrubbed_keys page) /\
    flag_set (page_get_npers_flags (snd (fst r))) PAGE_NPERS_DELETE_PENDING
    = true /\
    blob_frees (new_events (snd r) s') = [].
Proof.
  intros s page Hok Hmem r s'.
  assert (Hr : r = db_free_page page s) by reflexivity. clearbody r.
  unfold db_free_page, bind, ret in Hr.
  rewrite scrub_page_keys, (scrub_extkeys_in_memory _ s Hmem) in Hr.
  assert (Hflag : flag_set (page_get_npers_flags (snd (fst r)))
                    PAGE_NPERS_DELETE_PENDING = true).
  { subst r. cbn [fst snd page_set_npers_flags page_get_npers_flags].
    apply flag_set_lor, (delete_pending_bit X Hok). }
  split; [|split; [exact Hflag|]].
  - subst r. cbn [snd].
    erewrite new_events_app by (cbn [st_trace]; reflexivity).
    apply blob_frees_map.
  - apply (db_free_page_struct_delete_pending _ _ Hflag).
Qed.

(** In a database on disk with an extended-key cache in which no blob id
    occurs twice, [db_free_page] takes out of the cache exactly the entries
    that carry the blob id of an extended key of the leaf and frees each of
    them once; these frees are its only events.  Afterwards the cache has
    no entry for such a blob id and answers for every other blob id what it
    answered before. *)
Theorem db_free_page_evicts_extended_keys :
  forall (s : state) (page : ham_page_t) (c : extkey_cache_t),
    flag_set (db_get_flags (st_db s)) HAM_IN_MEMORY_DB = false ->
    db_get_extkey_cache (st_db s) = Some c ->
    unique_ids c ->
    let r := db_free_page page s in
    let ids := extended_blobids (st_db s) (scrubbed_keys page) in
    (exists freed : list extkey_t,
        new_events s (snd r) = map EvFreeExtkey freed /\
        NoDup (extkey_get_blobid <$> freed) /\
        forall e, e ∈ freed <->
                  e ∈ entries c /\ extkey_get_blobid e ∈ ids) /\
    exists c',
      db_get_extkey_cache (st_db (snd r)) = Some c' /\
      forall blobid : Z,
        (blobid ∈ ids ->
         extkey_cache_fetch c' blobid = (HAM_KEY_NOT_FOUND, None)) /\
        (blobid ∉ ids ->
         extkey_cache_fetch c' blobid = extkey_cache_fetch c blobid).
Proof.
  intros s page c Hdisk Hc Hu r ids.
  assert (Hr : r = db_free_page page s) by reflexivity. clearbody r.
  unfold db_free_page, bind, ret in Hr.
  rewrite scrub_page_keys, (scrub_extkeys_on_disk _ s c Hdisk Hc) in Hr.
  subst r. cbn [snd st_db]. split.
  - exists (removed_entries ids c). split.
    + apply new_events_app. reflexivity.
    + apply removed_entries_spec, Hu.
  - eexists. split; [reflexivity|].
    intros blobid. apply removes_fetch, Hu.
Qed.

End FreePageTheorems.

Lemma db_free_page_frees_blobs_once_witness :
  let X := sample_externals None leaf_node in
  blob_frees (new_events memory_state
                (snd (db_free_page leaf_page memory_state)))
  = [4096].
Proof.
  intros X.
  refine (proj1 (@db_free_page_frees_blobs_once X memory_state leaf_page
                   _ _)).
  - apply sample_externals_ok.
  - reflexivity.
Defined.

Lemma db_free_page_evicts_extended_keys_witness :
  let X := sample_externals None leaf_node in
  (exists freed : list extkey_t,
      new_events cached_state (snd (db_free_page leaf_page cached_state))
      = map EvFreeExtkey freed /\
      NoDup (extkey_get_blobid <$> freed) /\
      forall e, e ∈ freed <->
                e ∈ entries
                      (run_ops [OpInsert (mk_cache 4096 1048576) true 4096 64
                                  (replicate 64 x61);
                                OpInsert (mk_cache 4096 1048576) true 8192 3
                                  [x61; x62; x63]]
                         fresh_cache) /\
                extkey_get_blobid e ∈ [4096]) /\
  exists c',
    db_get_extkey_cache (st_db (snd (db_free_page leaf_page cached_state)))
    = Some c' /\
    forall blobid : Z,
      (blobid ∈ [4096] ->
       extkey_cache_fetch c' blobid = (HAM_KEY_NOT_FOUND, None)) /\
      (blobid ∉ [4096] ->
       extkey_cache_fetch c' blobid
       = extkey_cache_fetch
           (run_ops [OpInsert (mk_cache 4096 1048576) true 4096 64
                       (replicate 64 x61);
                     OpInsert (mk_cache 4096 1048576) true 8192 3
                       [x61; x62; x63]]
              fresh_cache) blobid).
Proof.
  intros X.
  apply (@db_free_page_evicts_extended_keys X cached_state leaf_page).
  - reflexivity.
  - reflexivity.
  - apply run_ops_unique_ids; [apply unique_ids_fresh|].
    vm_compute. repeat split.
Defined.

(** ** db.c: writing and releasing pages *)

Section WritePageProperties.

Context {X : externals}.

Lemma scrub_extkeys_error (keys : list key_t) (s : state) :
  db_get_error (st_db (snd (scrub_extkeys keys s))) = db_get_error (st_db s).
Proof.
  revert s. induction keys as [|bte rest IH]; intros s; [reflexivity|].
  cbn [scrub_extkeys].
  unfold run_extkey_cache_remove, bind, get_db, put_db, blob_free, emit, ret.
  destruct (flag_set (key_get_flags bte) KEY_IS_EXTENDED);
    [destruct (flag_set (db_get_flags (st_db s)) HAM_IN_MEMORY_DB);
     [|destruct (db_get_extkey_cache (st_db s)) as [c|];
       [destruct (chain_find _ _)|]]|];
    cbv beta iota zeta; rewrite IH; reflexivity.
Qed.

(** [db_free_page_struct] takes the page out of the cache first and frees
    the page structure last; the error slot is not touched. *)
Lemma db_free_page_struct_shape (page : ham_page_t) (s : state) :
  let s' := snd (db_free_page_struct page s) in
  (exists evs,
      extends s s' (EvCacheRemovePage (page_get_self page)
                      :: evs ++ [EvFreePageStruct (page_get_self page)])) /\
  db_get_error (st_db s') = db_get_error (st_db s).
Proof.
  cbv beta iota zeta delta [db_free_page_struct bind get_db emit].
  set (s1 := mk_state _ _ _ _ (st_trace s ++ _)).
  set (scrub := if negb _ then _ else _).
  set (release := match page_get_pers page with Some _ => _ | None => _ end).
  assert (Hscrub : (exists e1, extends s1 (snd (scrub s1)) e1) /\
                   db_get_error (st_db (snd (scrub s1)))
                   = db_get_error (st_db s)).
  { subst scrub. destruct (negb _).
    - split; [|rewrite scrub_page_keys, scrub_extkeys_error; reflexivity].
      destruct (scrub_page_extends page s1) as (e1 & He1 & _).
      now exists e1.
    - split; [exists []; apply extends_refl | reflexivity]. }
  destruct Hscrub as [[e1 He1] Herr1].
  destruct (scrub s1) as [[] s2]. cbn [snd] in He1, Herr1.
  assert (Hrel : (exists e2, extends s2 (snd (release s2)) e2) /\
                 st_db (snd (release s2)) = st_db s2).
  { subst release. unfold ham_mem_free, os_munmap, next_os, emit, bind, ret.
    destruct (page_get_pers page);
      [destruct (flag_set (page_get_npers_flags page) PAGE_NPERS_MALLOC);
       [|destruct (st_os s2)]|].
    all: cbn [snd st_db st_trace]; split; [|reflexivity].
    all: first [ exists []; apply extends_refl
               | eexists; unfold extends; cbn [st_trace]; reflexivity ]. }
  destruct Hrel as [[e2 He2] Hdb2].
  destruct (release s2) as [[] s3]. cbn [snd] in He2, Hdb2.
  cbn [snd st_db st_trace]. split; [|congruence].
  exists (e1 ++ e2). unfold extends in *. cbn [st_trace].
  rewrite He2, He1. subst s1. cbn [st_trace].
  now rewrite <- !app_assoc.
Qed.

(** A write the file system refuses: [my_write_page] answers
    [HAM_IO_ERROR] whatever the status was, stores it in the error slot and
    leaves the page dirty. *)
Lemma my_write_page_fails (page : ham_page_t) (db : ham_db_t)
    (mem : list (option (nat -> byte))) (st : ham_status_t)
    (os : list ham_status_t) (blobs : Z -> ham_status_t * ham_record_t)
    (trace : list event) :
  st <> HAM_SUCCESS ->
  my_write_page page (mk_state db mem (st :: os) blobs trace)
  = ((HAM_IO_ERROR, page),
     mk_state (db_with_error db HAM_IO_ERROR) mem os blobs
       (trace ++ [EvPwrite (db_get_fd db) (page_get_self page)
                    (page_get_pers page) (db_get_pagesize db) st])).
Proof.
  intros Hst. pose proof (status_is_error_true st Hst) as Herr.
  unfold my_write_page, os_pwrite, next_os, emit, db_set_error, put_db,
    get_db, bind, ret.
  cbn [st_db st_mem st_os st_blob_read st_trace fst snd]. rewrite Herr.
  reflexivity.
Qed.

(** [db_write_page_and_delete] does not report a failed write: when the
    file system refuses the write of a dirty page, the function still
    returns success; the error slot holds [HAM_IO_ERROR], and unless
    [DB_FLUSH_NODELETE] is given the page structure is freed although its
    content never reached the file. *)
Theorem db_write_page_and_delete_hides_write_error :
  forall (s : state) (page : ham_page_t) (flags : Z)
         (st : ham_status_t) (os : list ham_status_t),
    page_is_dirty page = true ->
    flag_set (db_get_flags (st_db s)) HAM_IN_MEMORY_DB = false ->
    st_os s = st :: os ->
    st <> HAM_SUCCESS ->
    let r := db_write_page_and_delete page flags s in
    let evs := new_events s (snd r) in
    fst r = HAM_SUCCESS /\
    db_get_error (st_db (snd r)) = HAM_IO_ERROR /\
    evs !! 0%nat
    = Some (EvPwrite (db_get_fd (st_db s)) (page_get_self page)
              (page_get_pers page) (db_get_pagesize (st_db s)) st) /\
    (if flag_set flags DB_FLUSH_NODELETE then length evs = 1%nat
     else last evs = Some (EvFreePageStruct (page_get_self page))).
Proof.
  intros [db mem os0 blobs trace] page flags st os Hdirty Hdisk Hos Hst.
  cbn [st_db st_os] in *. subst os0.
  pose proof (status_is_error_true st Hst) as Herr.
  cbv zeta.
  cbv beta iota zeta delta [db_write_page_and_delete bind get_db ret].
  cbn [st_db]. rewrite Hdirty, Hdisk. cbn [andb negb].
  rewrite my_write_page_fails by assumption. cbn [snd].
  set (s1 := mk_state (db_with_error db HAM_IO_ERROR) mem os blobs _).
  destruct (flag_set flags DB_FLUSH_NODELETE).
  - cbn [negb fst snd]. subst s1.
    rewrite (new_events_app _ _ [_]) by reflexivity.
    repeat split.
  - cbn [negb].
    destruct (db_free_page_struct_shape page s1) as [[evs Hevs] Herror].
    destruct (db_free_page_struct page s1) as [[] s2]. cbn [fst snd] in *.
    unfold extends in Hevs. subst s1. cbn [st_trace st_db] in *.
    rewrite (new_events_app _ s2 (_ :: _ :: evs ++ [_]))
      by (cbn [st_trace]; rewrite Hevs, <- app_assoc; reflexivity).
    repeat split; [exact Herror|].
    rewrite !app_comm_cons. apply last_snoc.
Qed.

End WritePageProperties.

Lemma db_write_page_and_delete_hides_write_error_witness :
  let X := sample_externals None no_node in
  fst (db_write_page_and_delete dirty_page 0 failing_disk_state)
  = HAM_SUCCESS /\
  db_get_error
    (st_db (snd (db_write_page_and_delete dirty_page 0 failing_disk_state)))
  = HAM_IO_ERROR.
Proof.
  intros X.
  destruct (@db_write_page_and_delete_hides_write_error X failing_disk_state
              dirty_page 0 HAM_INTERNAL_ERROR [])
    as (H1 & H2 & _); try reflexivity; [discriminate|].
  split; [exact H1 | exact H2].
Defined.

(** ** db.c: allocating a page while the cache has room *)

Section AllocPageProperties.

Context {X : externals}.

(** [my_alloc_page] while the page cache has room. *)
Lemma my_alloc_page_room :
  forall s : state,
    let db := st_db s in
    let r := my_alloc_page s in
    let evs := new_events s (snd r) in
    cache_can_add_page (db_get_cache db) = true ->
    Forall (fun ev => is_malloc ev = true) evs /\
    match fst r with
    | Some page =>
        db_get_error (st_db (snd r)) = db_get_error db /\
        page_get_owner page = Some (db_handle db) /\
        page_get_cache_cntr page = 20 /\
        page_is_dirty page = false /\
        page_get_self page = 0 /\
        (if flag_set (db_get_flags db) DB_USE_MMAP
         then page_get_pers page = None /\
              page_get_npers_flags page = 0 /\
              length evs = 1%nat
         else exists block,
             page_get_pers page = Some block /\
             length block = Z.to_nat (db_get_pagesize db) /\
             page_get_npers_flags page = Z.lor 0 PAGE_NPERS_MALLOC /\
             length evs = 2%nat)
    | None =>
        db_get_error (st_db (snd r)) = HAM_OUT_OF_MEMORY /\
        exists len, last evs = Some (EvMalloc len None)
    end.
Proof.
  intros [db mem os blobs trace] db0 r evs Hroom.
  assert (Hr : r = my_alloc_page (mk_state db mem os blobs trace))
    by reflexivity.
  clearbody r. subst db0. cbn [st_db] in *.
  unfold my_alloc_page, db_alloc_page_struct, ham_mem_alloc, db_set_error,
    next_mem, emit, put_db, get_db, bind, ret in Hr.
  cbn [st_db st_mem st_os st_trace st_blob_read] in Hr.
  rewrite Hroom in Hr.
  run_cases Hr.
  all: subst r evs; cbn [fst snd].
  all: match goal with
       | |- context [new_events ?s ?s'] =>
           erewrite (new_events_app s s');
             [|cbn [st_trace]; rewrite <- ?app_assoc; reflexivity]
       end.
  all: cbn [app].
  all: split; [repeat constructor|].
  all: try (split; [reflexivity|eexists; reflexivity]).
  all: repeat (split; [reflexivity|]).
  all: try (repeat split; reflexivity).
  all: eexists; repeat split.
  all: now rewrite length_map, length_seq.
Qed.


(** While the page cache has room, [my_alloc_page] only allocates: the page
    structure and, unless the file is memory-mapped, one buffer of one page
    size.  A page it returns is owned by the database, clean, at offset 0
    and has its cache counter at 20; when an allocation fails the result is
    null, the error slot holds [HAM_OUT_OF_MEMORY], and nothing allocated
    before is freed. *)
Theorem my_alloc_page_with_room :
  forall s : state,
    let db := st_db s in
    let r := my_alloc_page s in
    let evs := new_events s (snd r) in
    cache_can_add_page (db_get_cache db) = true ->
    Forall (fun ev => is_malloc ev = true) evs /\
    match fst r with
    | Some page =>
        db_get_error (st_db (snd r)) = db_get_error db /\
        page_get_owner page = Some (db_handle db) /\
        page_get_cache_cntr page = 20 /\
        page_is_dirty page = false /\
        page_get_self page = 0 /\
        (if flag_set (db_get_flags db) DB_USE_MMAP
         then page_get_pers page = None /\
              page_get_npers_flags page = 0 /\
              length evs = 1%nat
         else exists block,
             page_get_pers page = Some block /\
             length block = Z.to_nat (db_get_pagesize db) /\
             page_get_npers_flags page = Z.lor 0 PAGE_NPERS_MALLOC /\
             length evs = 2%nat)
    | None =>
        db_get_error (st_db (snd r)) = HAM_OUT_OF_MEMORY /\
        exists len, last evs = Some (EvMalloc len None)
    end.
Proof. exact my_alloc_page_room. Qed.

End AllocPageProperties.

Lemma my_alloc_page_with_room_witness :
  let X := sample_externals None no_node in
  let s := mk_state disk_db [] [] tail_store [] in
  Forall (fun ev => is_malloc ev = true)
         (new_events s (snd (my_alloc_page s))).
Proof.
  intros X s.
  refine (proj1 (@my_alloc_page_with_room X s _)).
  reflexivity.
Defined.

(** ** db.c: flushing a page *)

Section FlushPageProperties.

Context {X : externals}.

(** [db_flush_page] clears the dirty bit of a page only by a successful
    write: the page it hands on is clean exactly when it was clean before or
    write-through is on and the file system accepted the write, and no
    other field of the page changes.  A refused write is reported as
    [HAM_IO_ERROR], also in the error slot, whatever the file system
    answered. *)
Theorem db_flush_page_keeps_dirty_until_written :
  forall (s : state) (page : ham_page_t) (flags : Z),
    let db := st_db s in
    let r := db_flush_page page flags s in
    let page' := snd (fst r) in
    let accepted := negb (status_is_error (hd HAM_SUCCESS (st_os s))) in
    page' = page_set_dirty page (page_is_dirty page') /\
    page_is_dirty page'
    = page_is_dirty page
      && negb (flag_set (db_get_flags db) HAM_WRITE_THROUGH && accepted) /\
    (flag_set (db_get_flags db) HAM_WRITE_THROUGH = true ->
     page_is_dirty page = true -> accepted = false ->
     fst (fst r) = HAM_IO_ERROR /\
     db_get_error (st_db (snd r)) = HAM_IO_ERROR).
Proof.
  intros [db mem os blobs trace] page flags db0 r page' accepted.
  assert (Hr : r = db_flush_page page flags (mk_state db mem os blobs trace))
    by reflexivity.
  clearbody r. subst db0 page' accepted. cbn [st_db st_os] in *.
  unfold db_flush_page, my_write_page, os_pwrite, next_os, emit,
    db_set_error, put_db, get_db, bind, ret in Hr.
  cbn [st_db st_mem st_os st_trace st_blob_read] in Hr.
  destruct (flag_set (db_get_flags db) HAM_WRITE_THROUGH);
    destruct page as [self type dirty pers npers cntr inuse owner];
    destruct dirty; destruct os as [|st os];
    cbn in Hr; try destruct (status_is_error st) eqn:Est;
    cbn in Hr; subst r; cbn; rewrite ?Est; cbn;
    repeat split; intros; congruence.
Qed.

End FlushPageProperties.

Lemma db_flush_page_keeps_dirty_until_written_witness :
  let X := sample_externals None no_node in
  fst (fst (db_flush_page dirty_page 0 failing_write_through_state))
  = HAM_IO_ERROR /\
  page_is_dirty
    (snd (fst (db_flush_page dirty_page 0 failing_write_through_state)))
  = true.
Proof.
  intros X.
  destruct (@db_flush_page_keeps_dirty_until_written X
              failing_write_through_state dirty_page 0)
    as (_ & Hdirty & Hfail).
  split; [|exact Hdirty].
  apply Hfail; reflexivity.
Defined.

Lemma extkey_cache_destroy_assert_empty_witness :
  let db_cache := mk_cache 4096 1048576 in
  extkey_cache_get_usedsize
    (run_ops [OpInsert db_cache true 3 2 [x61; x62]; OpRemove 3] fresh_cache)
  = 0.
Proof.
  intros db_cache.
  apply (extkey_cache_destroy_assert_empty
           [OpInsert db_cache true 3 2 [x61; x62]; OpRemove 3]).
  reflexivity.
Defined.

(** ** db.c: a key loaded once is served from the extended-key cache *)

Section LoadKeyCache.

Context {X : externals}.

(** In a database on disk, a key whose loading step assembled the full key
    and found room for it in the extended-key cache is served from the
    cache the next time: the same step then answers with the first
    [key_length] bytes of the assembled block and changes nothing, with no
    allocation and no further entry. *)
Theorem load_key_second_time_cached :
  forall (s s' : state) (flags : Z) (key : list byte) (key_length : Z)
         (c : extkey_cache_t) (block : list byte),
    flag_set (db_get_flags (st_db s)) HAM_IN_MEMORY_DB = false ->
    db_get_extkey_cache (st_db s) = Some c ->
    well_formed c ->
    no_capacity (db_get_cache (st_db s)) c key_length = false ->
    Forall is_Some (st_mem s) ->
    load_key flags key key_length s = (KeyAllocated block, s') ->
    load_key flags key key_length s'
    = (KeyCached (take (Z.to_nat key_length) block), s').
Proof.
  intros [db mem os blobs trace] s' flags key kl c block.
  cbn [st_db st_mem]. intros Hdisk Hc Hwf Hcap Halloc Hload.
  assert (Hext : flag_set flags KEY_IS_EXTENDED = true).
  { unfold load_key, get_db, bind, ret in Hload. cbn [st_db] in Hload.
    destruct (flag_set flags KEY_IS_EXTENDED); [reflexivity|discriminate]. }
  set (blobid := key_blobid db key) in *.
  assert (Hfresh : exists record f1 mem' trace',
             block = memcpy
                       (memcpy (map f1 (seq 0 (Z.to_nat
                                  (ham_size_wrap (record_size record
                                                  + db_get_keysize db)))))
                               0 key
                               (Z.to_nat (db_get_keysize db
                                          - sizeof_ham_offset_t)))
                       (Z.to_nat (db_get_keysize db - sizeof_ham_offset_t))
                       (record_data record)
                       (Z.to_nat (record_size record)) /\
             s' = mk_state
                    (db_with_extkey_cache db
                       (Some (snd (extkey_cache_insert (db_get_cache db) true
                                     c blobid kl block))))
                    mem' os blobs trace').
  { unfold load_key, run_extkey_cache_insert, blob_read, ham_mem_alloc,
      next_mem, emit, db_set_error, put_db, get_db, bind, ret in Hload.
    cbn -[key_blobid flag_set status_is_error no_capacity
          extkey_cache_fetch extkey_cache_insert] in Hload.
    rewrite Hext, Hdisk, Hc in Hload. fold blobid in Hload.
    cbn -[key_blobid flag_set status_is_error no_capacity
          extkey_cache_fetch extkey_cache_insert] in Hload.
    unfold extkey_cache_fetch in Hload.
    destruct (chain_find blobid _); [discriminate|].
    rewrite (bool_decide_eq_true_2 (HAM_KEY_NOT_FOUND = HAM_KEY_NOT_FOUND)
               eq_refl) in Hload.
    cbn -[key_blobid flag_set status_is_error no_capacity
          extkey_cache_insert] in Hload.
    destruct (blobs blobid) as [rst record].
    destruct (status_is_error rst); [discriminate|].
    assert (Hmem : mem = [] \/
                   (exists f1, mem = [Some f1]) \/
                   (exists f1 f2 rest, mem = Some f1 :: Some f2 :: rest)).
    { destruct mem as [|[f1|] [|[f2|] rest]]; eauto 6; exfalso.
      all: repeat match goal with
                  | H : Forall _ (_ :: _) |- _ =>
                      apply Forall_cons in H as [[? ?] H]
                  end; discriminate. }
    destruct Hmem as [-> | [[f1 ->] | (f1 & f2 & rest & ->)]].
    all: cbn -[key_blobid flag_set status_is_error no_capacity
               extkey_cache_insert] in Hload.
    all: rewrite Hc, Hcap in Hload.
    all: cbn -[key_blobid flag_set status_is_error no_capacity
               extkey_cache_insert] in Hload.
    all: injection Hload as <- <-.
    all: do 4 eexists; split; reflexivity. }
  destruct Hfresh as (record & f1 & mem' & trace' & Hblock & ->).
  clear Hload.
  unfold load_key, get_db, bind, ret. cbn [st_db db_get_flags
    db_with_extkey_cache db_get_extkey_cache db_get_keysize].
  rewrite Hext, Hdisk. cbn [negb].
  change (key_blobid (db_with_extkey_cache db _) key) with blobid.
  destruct (extkey_cache_fetch_inserted (db_get_cache db) true c
              (snd (extkey_cache_insert (db_get_cache db) true c blobid kl
                      block))
              blobid kl block [] Hwf) as [_ Hfetch].
  - now rewrite extkey_cache_insert_done.
  - constructor.
  - cbn [run_ops fold_left] in Hfetch. rewrite Hfetch. reflexivity.
Qed.

End LoadKeyCache.

Lemma load_key_second_time_cached_witness :
  let X := sample_externals None no_node in
  let s := mk_state disk_db [] [] tail_store [] in
  load_key 8 long_key_slot 64 (snd (load_key 8 long_key_slot 64 s))
  = (KeyCached (replicate 64 x61), snd (load_key 8 long_key_slot 64 s)).
Proof.
  intros X s.
  refine (@load_key_second_time_cached X s _ 8 long_key_slot 64 fresh_cache
            (replicate 64 x61 ++ replicate 8 x00) _ _ _ _ _ _).
  - reflexivity.
  - reflexivity.
  - apply fresh_cache_well_formed.
  - reflexivity.
  - constructor.
  - reflexivity.
Defined.

(** ** db.c: fetching a page from the transaction, the cache or the file *)

Section FetchProperties.

Context {X : externals} {F : fetch_externals}.

(** [my_read_page] leaves no event and takes nothing from the heap; it
    either succeeds, leaving the database as it is and the file's bytes in
    the page buffer, or fails with [HAM_IO_ERROR] in the error slot and the
    page as it was. *)
Lemma my_read_page_run (address : Z) (page : ham_page_t) (s : state) :
  let r := my_read_page address page s in
  st_trace (snd r) = st_trace s /\
  ((fst (fst r) = HAM_SUCCESS /\ st_db (snd r) = st_db s /\
    hd HAM_SUCCESS (st_os s) = HAM_SUCCESS /\
    page_get_self (snd (fst r)) = page_get_self page /\
    page_get_owner (snd (fst r)) = page_get_owner page /\
    page_get_pers (snd (fst r))
    = (if flag_set (db_get_flags (st_db s)) DB_USE_MMAP
       then Some (file_bytes address (db_get_pagesize (st_db s)))
       else option_map (fun _ => file_bytes address
                                   (db_get_pagesize (st_db s)))
                       (page_get_pers page))) \/
   (fst (fst r) = HAM_IO_ERROR /\ snd (fst r) = page /\
    db_get_error (st_db (snd r)) = HAM_IO_ERROR /\
    hd HAM_SUCCESS (st_os s) <> HAM_SUCCESS)).
Proof.
  destruct s as [db mem os blobs trace]. cbv zeta.
  unfold my_read_page, os_mmap, os_pread, next_os, db_set_error, put_db,
    get_db, bind, ret.
  cbn [st_db st_mem st_os st_blob_read st_trace].
  destruct (flag_set (db_get_flags db) DB_USE_MMAP);
    destruct os as [|st os]; cbn; try destruct (status_is_error st) eqn:Est;
    cbn; rewrite ?Est; cbn; (split; [reflexivity|]);
    first [ left; repeat split; try reflexivity;
            now apply status_is_error_false
          | right; repeat split; intros ->; discriminate ].
Qed.

(** How [db_fetch_page] goes on when the page is neither in the transaction
    nor in the cache and may come from the file. *)
Lemma db_fetch_page_from_file (s : state) (txn : option ham_txn_t)
    (address flags : Z) :
  match txn with Some t => txn_get_page t address | None => None end = None ->
  cache_get (db_get_cache (st_db s)) address = None ->
  flag_set flags DB_ONLY_FROM_CACHE = false ->
  cache_can_add_page (db_get_cache (st_db s)) = true ->
  db_fetch_page txn address flags s
  = (let (p, s1) := my_alloc_page s in
     match p with
     | None => (None, s1)
     | Some page =>
         let (r, s2) := my_read_page address page s1 in
         let (st, page) := r in
         if status_is_error st then
           (None, snd (db_free_page_struct page (snd (db_set_error st s2))))
         else
           let page := page_set_self page address in
           let st :=
             match txn with
             | Some _ => txn_add_page txn page
             | None => HAM_SUCCESS
             end in
           if status_is_error st then
             (None, snd (db_free_page_struct page (snd (db_set_error st s2))))
           else
             let st := cache_put (db_get_cache (st_db s)) page in
             if status_is_error st then (None, snd (db_set_error st s2))
             else (Some page, s2)
     end).
Proof.
  intros Htxn Hcache Hflag Hroom. unfold db_fetch_page.
  rewrite Htxn. unfold bind at 1. unfold get_db at 1.
  rewrite Hcache, Hflag, Hroom. cbn [negb]. unfold bind at 1.
  destruct (my_alloc_page s) as [[page|] s1]; [|reflexivity].
  unfold bind at 1.
  destruct (my_read_page address page s1) as [[st page'] s2].
  destruct (status_is_error st).
  - unfold bind, ret.
    destruct (db_set_error st s2) as [? s3]. cbn [snd].
    now destruct (db_free_page_struct page' s3).
  - cbv zeta. destruct (status_is_error (match txn with
                                          | Some _ => _ | None => _ end)).
    + unfold bind, ret.
      destruct (db_set_error _ s2) as [? s3]. cbn [snd].
      now destruct (db_free_page_struct _ s3).
    + destruct (status_is_error (cache_put _ _)); [|reflexivity].
      unfold bind, ret. now destruct (db_set_error _ s2).
Qed.




Lemma db_set_error_run (st : ham_status_t) (s : state) :
  snd (db_set_error st s)
  = mk_state (db_with_error (st_db s) st) (st_mem s) (st_os s)
             (st_blob_read s) (st_trace s).
Proof. reflexivity. Qed.

Lemma my_alloc_page_room_writes_nothing (s : state) :
  cache_can_add_page (db_get_cache (st_db s)) = true ->
  writes_nothing s (snd (my_alloc_page s)).
Proof.
  intros Hroom. destruct (my_alloc_page_room s Hroom) as [Hall _].
  exists (new_events s (snd (my_alloc_page s))). split.
  - assert (Hext : exists evs, extends s (snd (my_alloc_page s)) evs).
    { destruct s as [db mem os blobs trace]. cbn [st_db] in Hroom.
      remember (my_alloc_page _) as r eqn:Hr.
      unfold my_alloc_page, db_alloc_page_struct, ham_mem_alloc,
        db_set_error, next_mem, emit, put_db, get_db, bind, ret in Hr.
      cbn [st_db st_mem st_os st_trace st_blob_read] in Hr.
      rewrite Hroom in Hr. run_cases Hr.
      all: subst r; eexists; unfold extends; cbn [snd st_trace];
        rewrite <- ?app_assoc; reflexivity. }
    destruct Hext as [evs Hext].
    now rewrite (new_events_app _ _ _ Hext).
  - induction Hall as [|ev evs Hev _ IH]; [reflexivity|].
    rewrite filter_cons, IH. now destruct ev.
Qed.


(** With room in the cache [my_alloc_page] asks nothing of the file system
    and leaves the database as it is when it returns a page. *)
Lemma my_alloc_page_room_db (s : state) :
  cache_can_add_page (db_get_cache (st_db s)) = true ->
  let r := my_alloc_page s in
  st_os (snd r) = st_os s /\
  st_blob_read (snd r) = st_blob_read s /\
  (forall page, fst r = Some page -> st_db (snd r) = st_db s).
Proof.
  destruct s as [db mem os blobs trace]. cbn [st_db]. intros Hroom. cbv zeta.
  remember (my_alloc_page _) as r eqn:Hr.
  unfold my_alloc_page, db_alloc_page_struct, ham_mem_alloc,
    db_set_error, next_mem, emit, put_db, get_db, bind, ret in Hr.
  cbn [st_db st_mem st_os st_trace st_blob_read] in Hr.
  rewrite Hroom in Hr. run_cases Hr.
  all: subst r; cbn [fst snd st_os st_db st_blob_read].
  all: repeat split; intros; congruence.
Qed.

(** The same when the heap does not run out: a page is returned, and unless
    the file is memory-mapped its buffer is a block the heap handed out for
    one page size. *)
Lemma my_alloc_page_room_memory (s : state) :
  cache_can_add_page (db_get_cache (st_db s)) = true ->
  Forall is_Some (st_mem s) ->
  let r := my_alloc_page s in
  exists page,
    fst r = Some page /\
    (flag_set (db_get_flags (st_db s)) DB_USE_MMAP = false ->
     exists block,
       page_get_pers page = Some block /\
       page_get_npers_flags page = Z.lor 0 PAGE_NPERS_MALLOC /\
       In (EvMalloc (db_get_pagesize (st_db s)) (Some block))
          (new_events s (snd r))).
Proof.
  destruct s as [db mem os blobs trace]. cbn [st_db st_mem].
  intros Hroom Hmem. cbv zeta.
  assert (Hcases : mem = [] \/
                   (exists f1, mem = [Some f1]) \/
                   (exists f1 f2 rest, mem = Some f1 :: Some f2 :: rest)).
  { destruct mem as [|[f1|] [|[f2|] rest]]; eauto 6; exfalso.
    all: repeat match goal with
                | H : Forall _ (_ :: _) |- _ =>
                    apply Forall_cons in H as [[? ?] H]
                end; discriminate. }
  remember (my_alloc_page _) as r eqn:Hr.
  unfold my_alloc_page, db_alloc_page_struct, ham_mem_alloc,
    db_set_error, next_mem, emit, put_db, get_db, bind, ret in Hr.
  cbn [st_db st_mem st_os st_trace st_blob_read] in Hr.
  rewrite Hroom in Hr.
  destruct Hcases as [-> | [[f1 ->] | (f1 & f2 & rest & ->)]];
    cbn -[flag_set] in Hr;
    destruct (flag_set (db_get_flags db) DB_USE_MMAP) eqn:Hmmap;
    rewrite ?Hmmap in Hr; cbn in Hr; subst r; cbn [fst snd].
  all: eexists; split; [reflexivity|]; intros Hm; try discriminate Hm.
  all: eexists; split; [reflexivity|]; split; [reflexivity|].
  all: erewrite new_events_app
         by (cbn [st_trace]; rewrite <- ?app_assoc; reflexivity).
  all: cbn [app]; right; left; reflexivity.
Qed.

(** [db_free_page_struct] on a page with a heap buffer frees the buffer
    and, last, the page structure. *)
Lemma db_free_page_struct_frees_buffer (page : ham_page_t) (s : state)
    (block : list byte) :
  page_get_pers page = Some block ->
  flag_set (page_get_npers_flags page) PAGE_NPERS_MALLOC = true ->
  exists evs,
    extends s (snd (db_free_page_struct page s))
      (evs ++ [EvFree (Some block);
               EvFreePageStruct (page_get_self page)]).
Proof.
  intros Hpers Hflag.
  cbv beta iota zeta delta [db_free_page_struct bind get_db emit].
  set (s1 := mk_state _ _ _ _ (st_trace s ++ _)).
  set (scrub := if negb _ then _ else _).
  assert (Hscrub : exists e1, extends s1 (snd (scrub s1)) e1).
  { subst scrub. destruct (negb _).
    - destruct (scrub_page_extends page s1) as (e1 & He1 & _).
      now exists e1.
    - exists []. apply extends_refl. }
  destruct Hscrub as [e1 He1].
  destruct (scrub s1) as [[] s2]. cbn [snd] in He1.
  rewrite Hpers, Hflag. unfold ham_mem_free, emit. cbn [snd st_trace].
  exists (EvCacheRemovePage (page_get_self page) :: e1).
  unfold extends in *. rewrite He1. subst s1. cbn [st_trace].
  now rewrite <- !app_assoc.
Qed.

(** A page [db_fetch_page] brings in from the file is at the address asked
    for, owned by the database, and holds the file's bytes of one page size
    at that address; the error slot is untouched.  When no page comes back
    although the file could be asked, the error slot holds an error. *)
Theorem db_fetch_page_outcome :
  forall (s : state) (txn : option ham_txn_t) (address flags : Z),
    let db := st_db s in
    let r := db_fetch_page txn address flags s in
    match txn with Some t => txn_get_page t address | None => None end
    = None ->
    cache_get (db_get_cache db) address = None ->
    match fst r with
    | Some page =>
        page_get_self page = address /\
        page_get_owner page = Some (db_handle db) /\
        page_get_pers page
        = Some (file_bytes address (db_get_pagesize db)) /\
        db_get_error (st_db (snd r)) = db_get_error db
    | None =>
        flag_set flags DB_ONLY_FROM_CACHE = true \/
        db_get_error (st_db (snd r)) <> HAM_SUCCESS
    end.
Proof.
  intros s txn address flags db r Htxn Hcache. subst db r.
  destruct (flag_set flags DB_ONLY_FROM_CACHE) eqn:Hflag.
  { cbv beta iota delta [db_fetch_page bind get_db].
    rewrite Htxn, Hcache, Hflag. now left. }
  destruct (cache_can_add_page (db_get_cache (st_db s))) eqn:Hroom.
  2:{ cbv beta iota delta [db_fetch_page bind get_db].
      rewrite Htxn, Hcache, Hflag, Hroom. right. discriminate. }
  rewrite (db_fetch_page_from_file s txn address flags Htxn Hcache Hflag
             Hroom).
  pose proof (my_alloc_page_room s Hroom) as [_ Hpage].
  pose proof (my_alloc_page_room_db s Hroom) as (_ & _ & Hdb).
  cbv zeta in Hdb.
  destruct (my_alloc_page s) as [[page|] s1]; cbn [fst snd] in *.
  2:{ right. destruct Hpage as [-> _]. discriminate. }
  specialize (Hdb page eq_refl).
  destruct Hpage as (Herr1 & Hown & _ & _ & _ & Hbuf).
  pose proof (my_read_page_run address page s1) as [_ Hread].
  destruct (my_read_page address page s1) as [[st page'] s2].
  cbn [fst snd] in Hread.
  assert (Hfree : forall st0 pg,
             st0 <> HAM_SUCCESS ->
             db_get_error
               (st_db (snd (db_free_page_struct pg
                              (snd (db_set_error st0 s2)))))
             <> HAM_SUCCESS).
  { intros st0 pg Hst0.
    destruct (db_free_page_struct_shape pg (snd (db_set_error st0 s2)))
      as [_ ->].
    exact Hst0. }
  assert (Hstatus : forall st0, status_is_error st0 = true ->
                                st0 <> HAM_SUCCESS)
    by (intros st0 H ->; discriminate).
  destruct Hread as [(-> & Hdb2 & _ & Hself & Howner & Hpers)
                    | (-> & -> & Herr2 & _)].
  2:{ right. apply Hfree. discriminate. }
  cbn [status_is_error]. cbv zeta.
  destruct (status_is_error (match txn with
                             | Some _ => _ | None => _ end)) eqn:Etxn.
  { right. now apply Hfree, Hstatus. }
  destruct (status_is_error (cache_put _ _)) eqn:Eput.
  { right. now apply Hstatus. }
  cbn [fst snd page_set_self page_get_self page_get_owner page_get_pers].
  rewrite Howner, Hown, Hpers, Hdb2, Hdb. repeat split.
  destruct (flag_set (db_get_flags (st_db s)) DB_USE_MMAP); [reflexivity|].
  destruct Hbuf as (block & -> & _). reflexivity.
Qed.

(** When the read of the page fails, [db_fetch_page] returns no page, the
    error slot holds [HAM_IO_ERROR], and the page structure it had
    allocated is freed last, after its heap buffer. *)
Theorem db_fetch_page_read_failure_frees_page :
  forall (s : state) (txn : option ham_txn_t) (address flags : Z)
         (st : ham_status_t) (os : list ham_status_t),
    externals_ok X ->
    match txn with Some t => txn_get_page t address | None => None end
    = None ->
    cache_get (db_get_cache (st_db s)) address = None ->
    flag_set flags DB_ONLY_FROM_CACHE = false ->
    cache_can_add_page (db_get_cache (st_db s)) = true ->
    flag_set (db_get_flags (st_db s)) DB_USE_MMAP = false ->
    Forall is_Some (st_mem s) ->
    st_os s = st :: os ->
    st <> HAM_SUCCESS ->
    let r := db_fetch_page txn address flags s in
    let evs := new_events s (snd r) in
    fst r = None /\
    db_get_error (st_db (snd r)) = HAM_IO_ERROR /\
    exists (block : list byte) (before : list event),
      In (EvMalloc (db_get_pagesize (st_db s)) (Some block)) before /\
      evs = before ++ [EvFree (Some block); EvFreePageStruct 0].
Proof.
  intros s txn address flags st os Hok Htxn Hcache Hflag Hroom Hmmap Hmem
         Hos Hst r evs.
  subst r evs.
  rewrite (db_fetch_page_from_file s txn address flags Htxn Hcache Hflag
             Hroom).
  pose proof (my_alloc_page_room s Hroom) as [_ Hpage].
  pose proof (my_alloc_page_room_db s Hroom) as (Hos1 & _ & Hdb).
  pose proof (my_alloc_page_room_writes_nothing s Hroom)
    as (e1 & Hext1 & _).
  destruct (my_alloc_page_room_memory s Hroom Hmem) as (page & Hsome & Hbuf).
  cbv zeta in Hdb, Hos1.
  destruct (Hbuf Hmmap) as (block & Hpers & Hflags & Hin).
  rewrite (new_events_app _ _ _ Hext1) in Hin.
  destruct (my_alloc_page s) as [p s1]; cbn [fst snd] in *. subst p.
  specialize (Hdb page eq_refl).
  destruct Hpage as (_ & _ & _ & _ & Hself & _).
  pose proof (my_read_page_run address page s1) as [Htrace Hread].
  destruct (my_read_page address page s1) as [[st' page'] s2].
  cbn [fst snd] in Hread, Htrace.
  destruct Hread as [(_ & _ & Hhd & _) | (-> & -> & Herr2 & _)].
  { exfalso. rewrite Hos1, Hos in Hhd. now apply Hst. }
  cbn [status_is_error fst snd]. split; [reflexivity|].
  destruct (db_free_page_struct_shape page (snd (db_set_error HAM_IO_ERROR
                                                   s2))) as [_ Herr].
  split; [rewrite Herr; reflexivity|].
  destruct (db_free_page_struct_frees_buffer page
              (snd (db_set_error HAM_IO_ERROR s2)) block Hpers)
    as [e2 Hext2].
  { rewrite Hflags. apply flag_set_lor, (malloc_bit X Hok). }
  exists block, (e1 ++ e2). split; [apply in_or_app; now left|].
  apply new_events_app. unfold extends in *.
  rewrite Hext2, db_set_error_run. cbn [st_trace].
  rewrite Htrace, Hext1, Hself. now rewrite <- !app_assoc.
Qed.

End FetchProperties.


Lemma db_fetch_page_outcome_witness :
  let X := sample_externals None no_node in
  let F := sample_fetch_externals in
  match fst (db_fetch_page None 8192 0 disk_state) with
  | Some page =>
      page_get_self page = 8192 /\
      page_get_owner page = Some 1 /\
      page_get_pers page = Some (replicate 4096 x66) /\
      db_get_error (st_db (snd (db_fetch_page None 8192 0 disk_state)))
      = HAM_SUCCESS
  | None =>
      flag_set 0 DB_ONLY_FROM_CACHE = true \/
      db_get_error (st_db (snd (db_fetch_page None 8192 0 disk_state)))
      <> HAM_SUCCESS
  end.
Proof.
  intros X F.
  apply (@db_fetch_page_outcome X F disk_state None 8192 0); reflexivity.
Defined.

Lemma db_fetch_page_read_failure_frees_page_witness :
  let X := sample_externals None no_node in
  let F := sample_fetch_externals in
  fst (db_fetch_page None 8192 0 failing_disk_state) = None /\
  db_get_error (st_db (snd (db_fetch_page None 8192 0 failing_disk_state)))
  = HAM_IO_ERROR.
Proof.
  intros X F.
  destruct (@db_fetch_page_read_failure_frees_page X F failing_disk_state
              None 8192 0 HAM_INTERNAL_ERROR [])
    as (H1 & H2 & _); try reflexivity.
  - apply sample_externals_ok.
  - constructor.
  - discriminate.
  - split; [exact H1 | exact H2].
Defined.

(** ** cursor.h: coupling a cursor *)

Lemma CURSOR_COUPLED_TO_TXN_bits (n : Z) :
  Z.testbit _CURSOR_COUPLED_TO_TXN n = (n =? 24).
Proof.
  change _CURSOR_COUPLED_TO_TXN with (2 ^ 24).
  destruct (Z.eqb_spec n 24) as [->|Hne]; [reflexivity|].
  now apply Z.pow2_bits_false.
Qed.

Lemma not_CURSOR_COUPLED_TO_TXN_bits (n : Z) :
  0 <= n < 32 ->
  Z.testbit not_CURSOR_COUPLED_TO_TXN n = negb (n =? 24).
Proof.
  intros Hn. unfold not_CURSOR_COUPLED_TO_TXN.
  rewrite Z.mod_pow2_bits_low, Z.lnot_spec by lia.
  now rewrite CURSOR_COUPLED_TO_TXN_bits.
Qed.

(** Coupling a cursor with 32-bit flags to the transaction sets the
    coupling bit, coupling it to the btree clears it; both leave every
    other flag bit as it was and the value within 32 bits, and each undoes
    the other on flags that started in the state it restores. *)
Theorem cursor_coupling_flag :
  forall flags : Z,
    0 <= flags < 2 ^ 32 ->
    let to_txn := cursor_couple_to_txnop flags in
    let to_btree := cursor_couple_to_btree flags in
    cursor_is_coupled_to_txnop to_txn = true /\
    cursor_is_coupled_to_btree to_txn = false /\
    cursor_is_coupled_to_btree to_btree = true /\
    cursor_is_coupled_to_txnop to_btree = false /\
    0 <= to_txn < 2 ^ 32 /\ 0 <= to_btree < 2 ^ 32 /\
    (forall n, n <> 24 ->
               Z.testbit to_txn n = Z.testbit flags n /\
               Z.testbit to_btree n = Z.testbit flags n) /\
    (cursor_is_coupled_to_btree flags = true ->
     cursor_couple_to_btree to_txn = flags) /\
    (cursor_is_coupled_to_txnop flags = true ->
     cursor_couple_to_txnop to_btree = flags).
Proof.
  intros flags Hrange to_txn to_btree.
  assert (Hhigh : forall n, 32 <= n -> Z.testbit flags n = false).
  { intros n Hn. apply (Z.bits_above_log2 flags n); [lia|].
    destruct (Z.eq_dec flags 0) as [->|Hz]; [cbn; lia|].
    assert (Z.log2 flags < 32) by (apply Z.log2_lt_pow2; lia). lia. }
  assert (Htxn : forall n, Z.testbit to_txn n
                           = Z.testbit flags n || (n =? 24)).
  { intros n. subst to_txn. unfold cursor_couple_to_txnop.
    now rewrite Z.lor_spec, CURSOR_COUPLED_TO_TXN_bits. }
  assert (Hbtree : forall n, Z.testbit to_btree n
                             = Z.testbit flags n && negb (n =? 24)).
  { intros n. subst to_btree. unfold cursor_couple_to_btree.
    rewrite Z.land_spec.
    destruct (Z.lt_ge_cases n 0) as [Hneg|Hpos].
    - rewrite !Z.testbit_neg_r by assumption. reflexivity.
    - destruct (Z.lt_ge_cases n 32) as [Hlow|Hhi].
      + now rewrite not_CURSOR_COUPLED_TO_TXN_bits by lia.
      + rewrite Hhigh by assumption. reflexivity. }
  assert (Hflag : forall f, flag_set f _CURSOR_COUPLED_TO_TXN
                            = Z.testbit f 24).
  { intros f. unfold flag_set.
    destruct (Z.testbit f 24) eqn:Hbit.
    - destruct (Z.eqb_spec (Z.land f _CURSOR_COUPLED_TO_TXN) 0) as [E|_];
        [|reflexivity].
      apply (f_equal (fun z => Z.testbit z 24)) in E.
      rewrite Z.land_spec, Hbit, CURSOR_COUPLED_TO_TXN_bits in E.
      discriminate.
    - destruct (Z.eqb_spec (Z.land f _CURSOR_COUPLED_TO_TXN) 0) as [_|N];
        [reflexivity|].
      exfalso. apply N. apply Z.bits_inj'. intros n _.
      rewrite Z.land_spec, CURSOR_COUPLED_TO_TXN_bits, Z.bits_0.
      destruct (Z.eqb_spec n 24) as [->|_]; [now rewrite Hbit|].
      apply andb_false_r. }
  assert (Hnonneg : forall z, (forall n, 32 <= n -> Z.testbit z n = false) ->
                              0 <= z -> 0 <= z < 2 ^ 32).
  { intros z Hz Hpos. split; [exact Hpos|].
    destruct (Z.eq_dec z 0) as [->|Hne]; [lia|].
    apply Z.log2_lt_pow2; [lia|].
    destruct (Z.lt_ge_cases (Z.log2 z) 32) as [|Hge]; [assumption|].
    pose proof (Z.bit_log2 z ltac:(lia)) as Hbit.
    rewrite Hz in Hbit by assumption. discriminate. }
  unfold cursor_is_coupled_to_txnop, cursor_is_coupled_to_btree.
  rewrite !Hflag, Htxn, Hbtree. cbn [Z.eqb Pos.eqb negb andb orb].
  rewrite orb_true_r, andb_false_r.
  repeat split; try reflexivity.
  - subst to_txn. unfold cursor_couple_to_txnop. apply Z.lor_nonneg.
    unfold _CURSOR_COUPLED_TO_TXN. lia.
  - apply Hnonneg.
    + intros n Hn. rewrite Htxn, Hhigh by assumption.
      destruct (Z.eqb_spec n 24); [lia|reflexivity].
    + subst to_txn. unfold cursor_couple_to_txnop. apply Z.lor_nonneg.
      unfold _CURSOR_COUPLED_TO_TXN. lia.
  - subst to_btree. unfold cursor_couple_to_btree. apply Z.land_nonneg.
    left. lia.
  - apply Hnonneg.
    + intros n Hn. rewrite Hbtree, Hhigh by assumption. reflexivity.
    + subst to_btree. unfold cursor_couple_to_btree. apply Z.land_nonneg.
      left. lia.
  - rewrite Htxn. destruct (Z.eqb_spec n 24); [contradiction|].
    apply orb_false_r.
  - rewrite Hbtree. destruct (Z.eqb_spec n 24); [contradiction|].
    apply andb_true_r.
  - intros Hb. apply negb_true_iff in Hb.
    apply Z.bits_inj'. intros n Hn.
    unfold cursor_couple_to_btree. rewrite Z.land_spec, Htxn.
    destruct (Z.lt_ge_cases n 32) as [Hlow|Hhi].
    + rewrite not_CURSOR_COUPLED_TO_TXN_bits by lia.
      destruct (Z.eqb_spec n 24) as [->|_];
        [now rewrite Hb | now rewrite orb_false_r, andb_true_r].
    + rewrite Hhigh by assumption.
      destruct (Z.eqb_spec n 24); [lia|reflexivity].
  - intros Hb. apply Z.bits_inj'. intros n Hn.
    unfold cursor_couple_to_txnop.
    rewrite Z.lor_spec, Hbtree, CURSOR_COUPLED_TO_TXN_bits.
    destruct (Z.eqb_spec n 24) as [->|_];
      [now rewrite Hb | now rewrite orb_false_r, andb_true_r].
Qed.

Lemma cursor_coupling_flag_witness :
  cursor_is_coupled_to_txnop (cursor_couple_to_txnop 0x10003) = true /\
  cursor_couple_to_btree (cursor_couple_to_txnop 0x10003) = 0x10003.
Proof.
  destruct (cursor_coupling_flag 0x10003) as (H1 & _ & _ & _ & _ & _ & _ &
                                              H2 & _).
  - vm_compute. split; [discriminate|reflexivity].
  - split; [exact H1|]. apply H2. reflexivity.
Defined.

(** ** cursor.h: the cache of duplicates *)

(** Inserting a line at a position up to the end of a [DupeCache] puts it
    at that position, keeps the lines before it in place and moves the
    others up by one; erasing at the same position gives the cache back;
    the count grows by one while it fits a [ham_size_t]; and appending is
    inserting at the end. *)
Theorem DupeCache_insert_erase :
  forall (cache : DupeCache) (position : nat) (dcl : DupeCacheLine),
    (position <= length (m_elements cache))%nat ->
    let cache' := DupeCache_insert cache position dcl in
    get_element cache' position = Some dcl /\
    DupeCache_erase cache' position = cache /\
    (forall i, (i < position)%nat ->
               get_element cache' i = get_element cache i) /\
    (forall i, (position <= i)%nat ->
               get_element cache' (S i) = get_element cache i) /\
    (Z.of_nat (length (m_elements cache)) < ham_size_max ->
     get_count cache' = get_count cache + 1) /\
    DupeCache_append cache dcl
    = DupeCache_insert cache (length (m_elements cache)) dcl.
Proof.
  intros [l] position dcl Hpos cache'. cbn [m_elements] in Hpos.
  subst cache'.
  unfold get_element, DupeCache_insert, DupeCache_erase, DupeCache_append,
    get_count.
  cbn [m_elements].
  assert (Hlen : length (take position l) = position)
    by (rewrite length_take; lia).
  repeat split.
  - rewrite lookup_app_r by lia. now rewrite Hlen, Nat.sub_diag.
  - f_equal. rewrite take_app_length' by (symmetry; exact Hlen).
    replace (S position) with (length (take position l) + 1)%nat by lia.
    rewrite drop_app_add. cbn [drop]. rewrite drop_0.
    apply take_drop.
  - intros i Hi. rewrite lookup_app_l by lia. now apply lookup_take_lt.
  - intros i Hi. rewrite lookup_app_r by lia. rewrite Hlen.
    replace (S i - position)%nat with (S (i - position)) by lia.
    change ((dcl :: drop position l) !! S (i - position))
      with (drop position l !! (i - position)%nat).
    rewrite lookup_drop. f_equal. lia.
  - intros Hfit. rewrite length_app, Hlen. cbn [length].
    rewrite length_drop.
    unfold ham_size_max, ham_size_modulus, ham_size_bits in Hfit.
    rewrite !ham_size_wrap_small
      by (unfold ham_size_max, ham_size_modulus, ham_size_bits; lia).
    lia.
  - now rewrite take_ge, drop_ge by lia.
Qed.

Lemma DupeCache_insert_erase_witness :
  let cache := mk_DupeCache [DupeCacheLine_btree true 0;
                             DupeCacheLine_btree true 1] in
  DupeCache_erase (DupeCache_insert cache 1 (DupeCacheLine_txn false (Some 64)))
                  1
  = cache.
Proof.
  intros cache.
  apply (DupeCache_insert_erase cache 1 (DupeCacheLine_txn false (Some 64))).
  cbn. lia.
Defined.

(** ** db.c: a prefix comparison that decides *)

Section PrefixDecides.

Context {X : externals}.

(** When at least one key is extended and the prefix comparison of the
    database answers something other than [HAM_PREFIX_REQUEST_FULLKEY]
    without raising an error, [db_compare_keys] returns that answer: no key
    is loaded, nothing is allocated, and the state changes only in that the
    error slot is reset. *)
Theorem db_compare_keys_decisive_prefix :
  forall (s : state) (lhs_flags : Z) (lhs : list byte) (lhs_length : Z)
         (rhs_flags : Z) (rhs : list byte) (rhs_length : Z)
         (prefoo : ham_prefix_compare_func_t) (cmp : Z),
    let db := st_db s in
    let prefixlen := fun flags length : Z =>
      if flag_set flags KEY_IS_EXTENDED
      then ham_size_wrap (db_get_keysize db - sizeof_ham_offset_t)
      else length in
    db_get_prefix_compare_func db = Some prefoo ->
    flag_set lhs_flags KEY_IS_EXTENDED || flag_set rhs_flags KEY_IS_EXTENDED
    = true ->
    prefoo lhs (prefixlen lhs_flags lhs_length) lhs_length
           rhs (prefixlen rhs_flags rhs_length) rhs_length
    = (cmp, HAM_SUCCESS) ->
    cmp <> HAM_PREFIX_REQUEST_FULLKEY ->
    db_compare_keys lhs_flags lhs lhs_length rhs_flags rhs rhs_length s
    = (cmp, mk_state (db_with_error db HAM_SUCCESS) (st_mem s) (st_os s)
              (st_blob_read s) (st_trace s)).
Proof.
  intros [db mem os blobs trace] lf lhs ll rf rhs rl prefoo cmp db0
         prefixlen Hpre Hext Hcmp Hne.
  subst db0 prefixlen. cbn [st_db st_mem st_os st_blob_read st_trace] in *.
  cbv beta in Hcmp. apply Z.eqb_neq in Hne.
  unfold db_compare_keys, db_set_error, put_db, get_db, bind, ret.
  cbn -[load_key flag_set free_loaded].
  replace (negb (flag_set lf KEY_IS_EXTENDED)
           && negb (flag_set rf KEY_IS_EXTENDED)) with false
    by (rewrite <- negb_orb, Hext; reflexivity).
  rewrite Hpre, Hcmp.
  cbn -[load_key flag_set free_loaded]. rewrite Hne. reflexivity.
Qed.

End PrefixDecides.

Lemma db_compare_keys_decisive_prefix_witness :
  let X := sample_externals None no_node in
  db_compare_keys 8 long_key_slot 64 0 [x61] 1 callback_state
  = (0, mk_state (db_with_error (st_db callback_state) HAM_SUCCESS)
          [] [] failing_store []).
Proof.
  intros X.
  apply (@db_compare_keys_decisive_prefix X callback_state
           8 long_key_slot 64 0 [x61] 1 my_prefix_compare_func 0).
  - reflexivity.
  - reflexivity.
  - reflexivity.
  - discriminate.
Defined.
